(** * DatabaseReplicated: a shallow embedding of
      src/Databases/DatabaseReplicated.cpp and the properties of its
      bootstrap, cluster view, recovery and rename paths. *)

From Stdlib Require Import ZArith String Ascii DecimalString.
From stdpp Require Import base strings list gmap sorting.

Local Open Scope string_scope.
Local Open Scope list_scope.
Local Open Scope Z_scope.

(** ** Outcomes of a C++ call

    A call returns, throws a [DB::Exception] carrying an error code (or
    [std::out_of_range]), or has no defined behaviour (a dereferenced end iterator, a null pointer,
    [front()] of an empty string, a statement after [__builtin_unreachable]). *)

(** Coordination::Error, the codes the code under study can meet. *)
Inductive CoordinationError :=
| ZOK | ZNODEEXISTS | ZNONODE | ZBADVERSION | ZNOTEMPTY
| ZCONNECTIONLOSS | ZOPERATIONTIMEOUT | ZSESSIONEXPIRED.

Inductive ErrorCode :=
| NO_ZOOKEEPER | LOGICAL_ERROR | BAD_ARGUMENTS | REPLICA_IS_ALREADY_EXIST
| DATABASE_REPLICATION_FAILED | UNKNOWN_DATABASE | NOT_IMPLEMENTED
| INCORRECT_QUERY | ALL_CONNECTION_TRIES_FAILED | UNKNOWN_TABLE
| TABLE_ALREADY_EXISTS | SYNTAX_ERROR | CANNOT_OPEN_FILE | CANNOT_PARSE_NUMBER
| KEEPER_EXCEPTION (e : CoordinationError)
| STD_OUT_OF_RANGE.

Inductive UndefinedBehaviour :=
| DerefEndIterator | DerefNullPointer | FrontOfEmptyString | BackOfEmptyString
| IndexOutOfRange | ReachedUnreachable.

Inductive outcome (A : Type) :=
| Returns (a : A)
| Throws (e : ErrorCode)
| Undefined (u : UndefinedBehaviour).
Arguments Returns {A} a.
Arguments Throws {A} e.
Arguments Undefined {A} u.

#[global] Instance CoordinationError_eq_dec : EqDecision CoordinationError.
Proof. solve_decision. Defined.
#[global] Instance ErrorCode_eq_dec : EqDecision ErrorCode.
Proof. solve_decision. Defined.

Definition obind {A B} (m : outcome A) (k : A → outcome B) : outcome B :=
  match m with
  | Returns a => k a
  | Throws e => Throws e
  | Undefined u => Undefined u
  end.

(** ** std::string operations used by the code *)

Module Str.

(** [s.find(needle, pos)]; [None] is [npos]. *)
Definition find (needle : string) (pos : nat) (s : string) : option nat :=
  String.index pos needle s.

(** [s.find(needle) != npos] *)
Definition contains (needle s : string) : bool :=
  bool_decide (is_Some (find needle 0 s)).

(** [s.substr(pos)] for [pos <= s.size()] *)
Definition substr_from (pos : nat) (s : string) : string :=
  String.substring pos (String.length s - pos) s.

(** [s.substr(pos)]: throws [std::out_of_range] when [pos > s.size()] *)
Definition substr (pos : nat) (s : string) : outcome string :=
  if (String.length s <? pos)%nat then Throws STD_OUT_OF_RANGE
  else Returns (substr_from pos s).

(** [s.substr(0, pos)], where [pos] may be [npos] *)
Definition substr_to (pos : option nat) (s : string) : string :=
  match pos with
  | Some n => String.substring 0 n s
  | None => s
  end.

Definition front (s : string) : option ascii := String.get 0 s.

Definition back (s : string) : option ascii :=
  match s with
  | "" => None
  | _ => String.get (String.length s - 1) s
  end.

(** [s.resize(n)] for [n <= s.size()] *)
Definition resize (n : nat) (s : string) : string := String.substring 0 n s.

Definition snoc (s : string) (c : ascii) : string := s +:+ String c "".

(** whether [s] ends with [suffix] *)
Definition ends_with (suffix s : string) : bool :=
  (String.length suffix <=? String.length s)%nat
  && bool_decide (String.substring (String.length s - String.length suffix)
                    (String.length suffix) s = suffix).

(** [toString] of an unsigned integer *)
Definition of_Z (n : Z) : string := NilZero.string_of_uint (N.to_uint (Z.to_N n)).

(** [operator<] on std::string is [String.ltb]; the total order used to
    iterate a [std::map<String, _>] and by [std::sort]. *)
Definition key_le {A} (x y : string * A) : Prop := String.le x.1 y.1.

#[global] Instance key_le_dec {A} : RelDecision (@key_le A).
Proof. intros x y. unfold key_le. apply _. Defined.

Definition sort (l : list string) : list string := merge_sort String.le l.

End Str.

(** The entries of a [std::map<String, V>] in iteration order. *)
Definition map_items {V} (m : gmap string V) : list (string * V) :=
  merge_sort Str.key_le (map_to_list m).

(** [m.emplace(k, v)]: no effect when the key is present. *)
Definition map_emplace {V} (k : string) (v : V) (m : gmap string V) : gmap string V :=
  match m !! k with
  | Some _ => m
  | None => <[k := v]> m
  end.

(** ** Arithmetic on size_t *)

Definition size_t_modulus : Z := 2 ^ 64.
Definition size_t_mul (a b : Z) : Z := (a * b) mod size_t_modulus.
Definition size_t_succ (a : Z) : Z := (a + 1) mod size_t_modulus.
Definition vector_size {A} (v : list A) : Z := Z.of_nat (length v) mod size_t_modulus.

(** ** Parsed statements and the local catalog *)

Definition UUID := Z.
Definition UUIDHelpers_Nil : UUID := 0.

(** The fields of ASTCreateQuery that the code reads or writes; [storage_engine]
    is the name of the ENGINE clause and [definition] stands for the rest. *)
Record ASTCreateQuery := {
  database : string;
  table : string;
  uuid : UUID;
  attach : bool;
  storage_engine : string;
  definition : string
}.

#[global] Instance ASTCreateQuery_eq_dec : EqDecision ASTCreateQuery.
Proof. solve_decision. Defined.

(** A table of the local catalog: its metadata file and what
    [isDictionaryExist], [storesDataOnDisk] and [tryGetTableUUID] answer. *)
Record Table := {
  metadata_file : string;
  is_dictionary : bool;
  storesDataOnDisk : bool;
  table_uuid : UUID
}.

#[global] Instance Table_eq_dec : EqDecision Table.
Proof. solve_decision. Defined.

Record DDLLogEntry := {
  entry_hosts : list string;
  entry_query : string;
  entry_initiator : string
}.

(** ** The coordination client (zkutil::ZooKeeper) *)

Record Stat := { version : Z; cversion : Z }.

Inductive CreateMode := Persistent | Ephemeral | PersistentSequential | EphemeralSequential.

Inductive Request :=
| makeCreateRequest (path data : string) (mode : CreateMode)
| makeRemoveRequest (path : string) (version : Z)
| makeSetRequest (path data : string) (version : Z).

#[global] Instance CreateMode_eq_dec : EqDecision CreateMode.
Proof. solve_decision. Defined.
#[global] Instance Request_eq_dec : EqDecision Request.
Proof. solve_decision. Defined.

(** What a FutureGet holds: [.get()] returns the response or rethrows. *)
Record GetResponse := { error : CoordinationError; data : string }.
Definition FutureGet := outcome GetResponse.

(** The calls of the client that DatabaseReplicated.cpp makes. *)
Inductive ZkCall :=
| zk_exists (path : string)
| zk_tryGet (path : string)
| zk_get (path : string)
| zk_getChildren (path : string)
| zk_asyncTryGet (path : string)
| zk_set (path data : string)
| zk_create (path data : string) (mode : CreateMode)
| zk_createAncestors (path : string)
| zk_tryMulti (ops : list Request)
| zk_multi (ops : list Request)
| zk_tryRemove (path : string)
| zk_tryRemoveRecursive (path : string).

(** The C++ type of what each call hands back ([Stat] through the out
    parameter; [tryGet] returns false as [None]). *)
Definition ZkResponse (c : ZkCall) : Type :=
  match c with
  | zk_exists _ => bool
  | zk_tryGet _ => option string
  | zk_get _ => (string * Stat)%type
  | zk_getChildren _ => (list string * Stat)%type
  | zk_asyncTryGet _ => FutureGet
  | zk_set _ _ => unit
  | zk_create _ _ _ => string
  | zk_createAncestors _ => unit
  | zk_tryMulti _ => CoordinationError
  | zk_multi _ => unit
  | zk_tryRemove _ => CoordinationError
  | zk_tryRemoveRecursive _ => unit
  end.

(** A coordination service: any state type with an answer to each call.
    The state is threaded through the calls, so an instance may change it
    between two calls of this process as other clients would. *)
Class ZooKeeper (S : Type) :=
  zk_answer : ∀ c : ZkCall, S → outcome (ZkResponse c) * S.

(** ** Collaborators outside this translation unit

    The parser, the file-name escaping, the printers and the CREATE
    interpreter are used through their signatures only. *)
Class Collaborators := {
  (** [parseQuery(ParserCreateQuery, text, ...)]: the AST, or the parser's exception *)
  parseQuery : string → outcome ASTCreateQuery;
  escapeForFileName : string → string;
  unescapeForFileName : string → string;
  (** [Cluster::Address::toString(host, port)] *)
  Address_toString : string → Z → string;
  (** [toString(const UUID &)] *)
  UUID_toString : UUID → string;
  (** [parse<UInt32>(text)] *)
  parse_UInt32 : string → outcome Z;
  (** [DDLLogEntry::toString()] *)
  DDLLogEntry_toString : DDLLogEntry → string;
  (** [TABLE_WITH_UUID_NAME_PLACEHOLDER] *)
  TABLE_WITH_UUID_NAME_PLACEHOLDER : string;
  (** the storage that [InterpreterCreateQuery::execute] builds for a CREATE *)
  InterpreterCreateQuery_storage : ASTCreateQuery → outcome Table;
  (** the n-th draw of [thread_local_rng()] *)
  thread_local_rng : nat → Z
}.

(** The server context: [hasZooKeeper()], [getFQDNOrHostName()], [getTCPPort()]. *)
Record ServerContext := {
  hasZooKeeper : bool;
  FQDNOrHostName : string;
  TCPPort : Z
}.

(** The members of a DatabaseReplicated object. *)
Record DatabaseReplicated := {
  database_name : string;
  db_uuid : UUID;
  zookeeper_path : string;
  shard_name : string;
  replica_name : string;
  replica_path : string;
  global_context : ServerContext
}.

(** [context.getMetadataTransaction()] *)
Record MetadataTransaction := {
  is_initial_query : bool;
  txn_zookeeper_path : string;
  ops : list Request
}.

(** Calls into the local catalog and the query pipeline that change local state. *)
Inductive LocalCall :=
| executeQuery_CreateDatabaseIfNotExists (name : string)
| DatabaseAtomic_removeDictionary (name : string)
| IStorage_shutdown (name : string)
| DatabaseAtomic_dropTable (name : string) (no_delay : bool)
| DatabaseAtomic_renameTable (name to_database to_name : string) (exchange dictionary : bool)
| DatabaseCatalog_waitTableFinallyDropped (id : UUID)
| InterpreterCreateQuery_execute (query : ASTCreateQuery)
| DatabaseAtomic_drop.

Inductive Event :=
| Zk (c : ZkCall)
| Local (c : LocalCall).

(** The state a member function runs in: the coordination service, the
    calls made so far, the tables of this database (name to table), the other
    databases of the DatabaseCatalog, the metadata transaction of the query
    context and the number of random draws taken. *)
Record World (K : Type) := mkWorld {
  zk : K;
  trace : list Event;
  tables : gmap string Table;
  databases : gmap string (gmap string Table);
  txn : option MetadataTransaction;
  rng_draws : nat
}.
Arguments mkWorld {K}.
Arguments zk {K}.
Arguments trace {K}.
Arguments tables {K}.
Arguments databases {K}.
Arguments txn {K}.
Arguments rng_draws {K}.

Definition local_calls (t : list Event) : list LocalCall :=
  omap (λ e, match e with Local c => Some c | Zk _ => None end) t.

(** ** The monad of member functions: state passing with exceptions.
    A throw keeps the effects made before it. *)
Definition M (K A : Type) : Type := World K → outcome A * World K.

Definition ret {K A} (a : A) : M K A := λ w, (Returns a, w).
Definition throw {K A} (e : ErrorCode) : M K A := λ w, (Throws e, w).
Definition undefined {K A} (u : UndefinedBehaviour) : M K A := λ w, (Undefined u, w).
Definition lift {K A} (o : outcome A) : M K A := λ w, (o, w).

Definition bind {K A B} (m : M K A) (k : A → M K B) : M K B := λ w,
  match m w with
  | (Returns a, w') => k a w'
  | (Throws e, w') => (Throws e, w')
  | (Undefined u, w') => (Undefined u, w')
  end.

Notation "'do' x <- m ; k" := (bind m (λ x, k))
  (at level 10, x name, m at level 100, k at level 200).
Notation "'do' ' p <- m ; k" := (bind m (λ x, match x with p => k end))
  (at level 10, p pattern, m at level 100, k at level 200).
Notation "'run' m ; k" := (bind m (λ _, k))
  (at level 10, m at level 100, k at level 200).

Fixpoint mapM {K A B} (f : A → M K B) (l : list A) : M K (list B) :=
  match l with
  | [] => ret []
  | x :: l' => do y <- f x; do ys <- mapM f l'; ret (y :: ys)
  end.

(** One call of the coordination client, recorded in the trace. *)
Definition zookeeper {K} `{!ZooKeeper K} (c : ZkCall) : M K (ZkResponse c) := λ w,
  let '(r, s) := zk_answer c (zk w) in
  (r, mkWorld s (trace w ++ [Zk c]) (tables w) (databases w) (txn w) (rng_draws w)).

Definition record_local {K} (c : LocalCall) : M K unit := λ w,
  (Returns (), mkWorld (zk w) (trace w ++ [Local c]) (tables w) (databases w) (txn w) (rng_draws w)).

Definition get_tables {K} : M K (gmap string Table) := λ w, (Returns (tables w), w).
Definition put_tables {K} (t : gmap string Table) : M K unit := λ w,
  (Returns (), mkWorld (zk w) (trace w) t (databases w) (txn w) (rng_draws w)).
Definition get_databases {K} : M K (gmap string (gmap string Table)) := λ w, (Returns (databases w), w).
Definition put_databases {K} (d : gmap string (gmap string Table)) : M K unit := λ w,
  (Returns (), mkWorld (zk w) (trace w) (tables w) d (txn w) (rng_draws w)).
Definition get_txn {K} : M K (option MetadataTransaction) := λ w, (Returns (txn w), w).
Definition put_txn {K} (t : option MetadataTransaction) : M K unit := λ w,
  (Returns (), mkWorld (zk w) (trace w) (tables w) (databases w) t (rng_draws w)).

(** [thread_local_rng()] *)
Definition draw {K} `{!Collaborators} : M K Z := λ w,
  (Returns (thread_local_rng (rng_draws w)),
   mkWorld (zk w) (trace w) (tables w) (databases w) (txn w) (S (rng_draws w))).

(** ** The local catalog (DatabaseAtomic and DatabaseCatalog) *)

(** Modelled from the spec: [DatabaseAtomic::empty] of the local catalog,
    which is not under src/; the database holds no object. *)
Definition empty {K} : M K bool := λ w, (Returns (bool_decide (tables w = ∅)), w).

(** Modelled from the spec: [isTableExist] of the local catalog. *)
Definition isTableExist {K} (table_name : string) : M K bool := λ w,
  (Returns (bool_decide (is_Some (tables w !! table_name))), w).

(** Modelled from the spec: [getTablesIterator], iteration of the existing
    tables; the names in the order of the catalog's [std::map]. *)
Definition getTablesIterator {K} : M K (list string) := λ w,
  (Returns (map_items (tables w)).*1, w).

(** [DatabaseReplicated::readMetadataFile] (line 636): the whole metadata
    file of the table; opening a missing file throws. *)
Definition readMetadataFile {K} (table_name : string) : M K string := λ w,
  match tables w !! table_name with
  | Some t => (Returns (metadata_file t), w)
  | None => (Throws CANNOT_OPEN_FILE, w)
  end.

(** Modelled from the spec: local drop of a dictionary or of a table by the
    local catalog ([DatabaseAtomic::removeDictionary], [::dropTable]). *)
Definition local_drop {K} (c : LocalCall) (table_name : string) : M K unit :=
  run record_local c;
  do t <- get_tables;
  put_tables (delete table_name t).

(** Modelled from the spec: [executeQuery] of
    CREATE DATABASE IF NOT EXISTS <name> ENGINE=Ordinary. *)
Definition executeQuery_create_database {K} (name : string) : M K unit :=
  run record_local (executeQuery_CreateDatabaseIfNotExists name);
  do d <- get_databases;
  put_databases (map_emplace name ∅ d).

(** Modelled from the spec: the atomic rename (or exchange) of the local
    catalog, [DatabaseAtomic::renameTable], which is not under src/. *)
Definition DatabaseAtomic_rename {K} (this_name table_name to_database to_table_name : string)
    (exchange dictionary : bool) : M K unit :=
  run record_local (DatabaseAtomic_renameTable table_name to_database to_table_name exchange dictionary);
  do t <- get_tables;
  do d <- get_databases;
  match t !! table_name with
  | None => throw UNKNOWN_TABLE
  | Some src =>
    if bool_decide (to_database = this_name) then
      match t !! to_table_name with
      | None => if exchange then throw UNKNOWN_TABLE
                else put_tables (<[to_table_name := src]> (delete table_name t))
      | Some dst => if exchange then put_tables (<[to_table_name := src]> (<[table_name := dst]> t))
                    else throw TABLE_ALREADY_EXISTS
      end
    else
      match d !! to_database with
      | None => throw UNKNOWN_DATABASE
      | Some other =>
        match other !! to_table_name with
        | None => if exchange then throw UNKNOWN_TABLE
                  else run put_tables (delete table_name t);
                       put_databases (<[to_database := <[to_table_name := src]> other]> d)
        | Some dst => if exchange
                      then run put_tables (<[table_name := dst]> t);
                           put_databases (<[to_database := <[to_table_name := src]> other]> d)
                      else throw TABLE_ALREADY_EXISTS
        end
      end
  end.

(** Modelled from the spec: [InterpreterCreateQuery(query).execute()], the
    secondary CREATE that adds the table to the local catalog. *)
Definition InterpreterCreateQuery_run {K} `{!Collaborators} (query : ASTCreateQuery) : M K unit :=
  run record_local (InterpreterCreateQuery_execute query);
  do storage <- lift (InterpreterCreateQuery_storage query);
  do t <- get_tables;
  put_tables (<[table query := storage]> t).

(** Modelled from the spec: [DatabaseAtomic::drop], the local catalog
    frees all local objects. *)
Definition DatabaseAtomic_drop_all {K} : M K unit :=
  run record_local DatabaseAtomic_drop;
  put_tables ∅.

(** Modelled from the spec: [zkutil::KeeperMultiException::check], which is
    not under src/: it returns on ZOK and throws the Keeper exception of
    every other code (other errors propagate). *)
Definition KeeperMultiException_check (code : CoordinationError) : outcome unit :=
  if decide (code = ZOK) then Returns () else Throws (KEEPER_EXCEPTION code).

(** ** DatabaseReplicated.cpp *)

Definition DROPPED_MARK : string := "DROPPED".
Definition BROKEN_TABLES_SUFFIX : string := "_broken_tables".
Definition max_retries : Z := 10.
Definition slash : ascii := "/"%char.

(** What [std::make_shared<Cluster>(settings, shards, username, password, port, false)] receives. *)
Record Cluster := {
  shards : list (list string);
  username : string;
  password : string;
  port : Z;
  secure : bool
}.

(** Lines 78-83: the normalisation of [zookeeper_path] in the constructor. *)
Definition normalize_zookeeper_path (zookeeper_path_ : string) : outcome string :=
  let zookeeper_path := zookeeper_path_ in
  match Str.back zookeeper_path with
  | None => Undefined BackOfEmptyString
  | Some b =>
    (* if (zookeeper_path.back() == '/') zookeeper_path.resize(zookeeper_path.size() - 1); *)
    let zookeeper_path :=
      if decide (b = slash)
      then Str.resize (String.length zookeeper_path - 1) zookeeper_path
      else zookeeper_path in
    (* if (zookeeper_path.front() != '/') zookeeper_path = "/" + zookeeper_path; *)
    match Str.front zookeeper_path with
    | None => Undefined FrontOfEmptyString
    | Some f =>
      if decide (f ≠ slash)
      then Returns ("/" +:+ zookeeper_path)
      else Returns zookeeper_path
    end
  end.

(** Lines 122-132. *)
Definition parseFullReplicaName (name : string) : outcome (string * string) :=
  match Str.find "|" 0 name with
  | None => Throws LOGICAL_ERROR
  | Some pos =>
    if bool_decide (is_Some (Str.find "|" (pos + 1) name))
    then Throws LOGICAL_ERROR
    else Returns (Str.substr_to (Some pos) name, Str.substr_from (pos + 1) name)
  end.

(** Lines 161-167: [future.get()] of each future in turn. *)
Fixpoint getCluster_collect (futures : list FutureGet) (success : bool) (host_ids : list string)
    : outcome (bool * list string) :=
  match futures with
  | [] => Returns (success, host_ids)
  | future :: futures' =>
    obind future (λ res,
      let success := if decide (error res ≠ ZOK) then false else success in
      getCluster_collect futures' success (host_ids ++ [data res]))
  end.

(** [shards.back().empty()] and [shards.back().emplace_back(host)]; [shards]
    is never empty here. *)
Definition back_is_empty (shards : list (list string)) : bool :=
  bool_decide (last shards = Some []).
Definition back_emplace_back (host : string) (shards : list (list string)) : list (list string) :=
  alter (λ shard, shard ++ [host]) (Nat.pred (length shards)) shards.

Section DatabaseReplicated.
Context {K : Type} `{!ZooKeeper K} `{!Collaborators}.

(** Lines 50-53. *)
Definition getHostID (global_context : ServerContext) (db_uuid : UUID) : string :=
  Address_toString (FQDNOrHostName global_context) (TCPPort global_context)
    +:+ ":" +:+ UUID_toString db_uuid.

(** Lines 117-120. *)
Definition getFullReplicaName (shard_name replica_name : string) : string :=
  shard_name +:+ "|" +:+ replica_name.

(** Lines 209-218: the requests of the bootstrap multi-op. *)
Definition createDatabaseNodes_ops (zookeeper_path : string) : list Request :=
  [ makeCreateRequest zookeeper_path "" Persistent;
    makeCreateRequest (zookeeper_path +:+ "/log") "" Persistent;
    makeCreateRequest (zookeeper_path +:+ "/replicas") "" Persistent;
    makeCreateRequest (zookeeper_path +:+ "/counter") "" Persistent;
    makeCreateRequest (zookeeper_path +:+ "/counter/cnt-") "" Persistent;
    makeRemoveRequest (zookeeper_path +:+ "/counter/cnt-") (-1);
    makeCreateRequest (zookeeper_path +:+ "/metadata") "" Persistent;
    makeCreateRequest (zookeeper_path +:+ "/max_log_ptr") "1" Persistent;
    makeCreateRequest (zookeeper_path +:+ "/logs_to_keep") "1000" Persistent ].

(** Lines 205-230. *)
Definition createDatabaseNodesInZooKeeper (zookeeper_path : string) : M K bool :=
  run zookeeper (zk_createAncestors zookeeper_path);
  let ops := createDatabaseNodes_ops zookeeper_path in
  do res <- zookeeper (zk_tryMulti ops);
  if decide (res = ZOK) then ret true
  else if decide (res = ZNODEEXISTS) then ret false
  else
    run lift (KeeperMultiException_check res);
    (* assert(false); __builtin_unreachable(); *)
    undefined ReachedUnreachable.

(** Lines 232-254. *)
Definition createReplicaNodesInZooKeeper (this : DatabaseReplicated) : M K unit :=
  let host_id := getHostID (global_context this) (db_uuid this) in
  let entry := {| entry_hosts := []; entry_query := ""; entry_initiator := "" |} in
  let query_path_prefix := zookeeper_path this +:+ "/log/query-" in
  let counter_prefix := zookeeper_path this +:+ "/counter/cnt-" in
  do counter_path <- zookeeper (zk_create counter_prefix "" EphemeralSequential);
  do counter_suffix <- lift (Str.substr (String.length counter_prefix) counter_path);
  let query_path := query_path_prefix +:+ counter_suffix in
  let ops :=
    [ makeCreateRequest (replica_path this) host_id Persistent;
      makeCreateRequest (replica_path this +:+ "/log_ptr") "0" Persistent;
      makeCreateRequest query_path (DDLLogEntry_toString entry) Persistent;
      makeRemoveRequest counter_path (-1) ] in
  zookeeper (zk_multi ops).

(** Lines 71-99 of the constructor: validation, normalisation, bootstrap of
    the database nodes, and [replica_path]. *)
Definition DatabaseReplicated_init (name_ : string) (uuid : UUID)
    (zookeeper_path_ shard_name_ replica_name_ : string) (context_ : ServerContext)
    : M K DatabaseReplicated :=
  if bool_decide (zookeeper_path_ = "") || bool_decide (shard_name_ = "")
     || bool_decide (replica_name_ = "")
  then throw BAD_ARGUMENTS
  else if Str.contains "/" shard_name_ || Str.contains "/" replica_name_
  then throw BAD_ARGUMENTS
  else if Str.contains "|" shard_name_ || Str.contains "|" replica_name_
  then throw BAD_ARGUMENTS
  else
    do zookeeper_path <- lift (normalize_zookeeper_path zookeeper_path_);
    if negb (hasZooKeeper context_) then throw NO_ZOOKEEPER
    else
      do node_exists <- zookeeper (zk_exists zookeeper_path);
      run (if negb node_exists
           then run createDatabaseNodesInZooKeeper zookeeper_path; ret ()
           else ret ());
      ret {| database_name := name_;
             db_uuid := uuid;
             zookeeper_path := zookeeper_path;
             shard_name := shard_name_;
             replica_name := replica_name_;
             replica_path :=
               zookeeper_path +:+ "/replicas/" +:+ getFullReplicaName shard_name_ replica_name_;
             global_context := context_ |}.

(** Lines 101-114 of the constructor. *)
Definition DatabaseReplicated_register (this : DatabaseReplicated) : M K unit :=
  do found <- zookeeper (zk_tryGet (replica_path this));
  match found with
  | Some replica_host_id =>
    let host_id := getHostID (global_context this) (db_uuid this) in
    if decide (replica_host_id ≠ host_id)
    then throw REPLICA_IS_ALREADY_EXIST
    else ret ()
  | None =>
    createReplicaNodesInZooKeeper this
  end.

(** Lines 58-115. *)
Definition DatabaseReplicated_new (name_ : string) (uuid : UUID)
    (zookeeper_path_ shard_name_ replica_name_ : string) (context_ : ServerContext)
    : M K DatabaseReplicated :=
  do this <- DatabaseReplicated_init name_ uuid zookeeper_path_ shard_name_ replica_name_ context_;
  run DatabaseReplicated_register this;
  ret this.

(** Lines 146-171: one pass of the retry loop of [getCluster]; the last
    component is whether the pass ends in [break]. *)
Definition getCluster_pass (this : DatabaseReplicated)
    : M K (list string * list string * bool * bool) :=
  do '(hosts, stat) <- zookeeper (zk_getChildren (zookeeper_path this +:+ "/replicas"));
  if bool_decide (hosts = []) then throw LOGICAL_ERROR
  else
    let cver := cversion stat in
    let hosts := Str.sort hosts in
    do futures <- mapM (λ host,
        zookeeper (zk_asyncTryGet (zookeeper_path this +:+ "/replicas/" +:+ host))) hosts;
    do '(success, host_ids) <- lift (getCluster_collect futures true []);
    do '(_, stat) <- zookeeper (zk_get (zookeeper_path this +:+ "/replicas"));
    (* if (success && cver == stat.version) break; *)
    ret (hosts, host_ids, success, success && bool_decide (cver = version stat)).

(** Lines 144-172: [while (++iteration <= max_retries)]; the body runs for
    iteration = 1 .. max_retries and [left] counts the passes still allowed. *)
Fixpoint getCluster_while (this : DatabaseReplicated) (left : nat)
    (hosts host_ids : list string) (success : bool)
    : M K (list string * list string * bool) :=
  match left with
  | O => ret (hosts, host_ids, success)
  | S left' =>
    do '(hosts, host_ids, success, break) <- getCluster_pass this;
    if break : bool then ret (hosts, host_ids, success)
    else getCluster_while this left' hosts host_ids success
  end.

(** Lines 181-196: the grouping loop, at index [i] with [rest] the hosts
    from [i] on. *)
Fixpoint getCluster_group (i : nat) (rest host_ids : list string)
    (current_shard : string) (shards : list (list string)) : outcome (list (list string)) :=
  match rest with
  | [] => Returns shards
  | hosts_i :: rest' =>
    match host_ids !! i with
    | None => Undefined IndexOutOfRange
    | Some id =>
      if bool_decide (id = DROPPED_MARK)
      then getCluster_group (S i) rest' host_ids current_shard shards
      else
        obind (parseFullReplicaName hosts_i) (λ '(shard, replica),
          let pos := Str.find ":" 0 id in
          let host := Str.substr_to pos id in
          let '(current_shard, shards) :=
            if bool_decide (shard ≠ current_shard)
            then (shard, if negb (back_is_empty shards) then shards ++ [[]] else shards)
            else (current_shard, shards) in
          getCluster_group (S i) rest' host_ids current_shard
            (back_emplace_back (unescapeForFileName host) shards))
    end
  end.

(** Lines 134-203. *)
Definition getCluster (this : DatabaseReplicated) : M K Cluster :=
  do '(hosts, host_ids, success) <- getCluster_while this (Z.to_nat max_retries) [] [] false;
  if negb success then throw ALL_CONNECTION_TRIES_FAILED
  else
    match hosts with
    | [] => undefined IndexOutOfRange
    | front :: _ =>
      do '(current_shard, _) <- lift (parseFullReplicaName front);
      do shards <- lift (getCluster_group 0 hosts host_ids current_shard [[]]);
      ret {| shards := shards;
             username := "default";
             password := "";
             port := TCPPort (global_context this);
             secure := false |}
    end.

(** Lines 445-451: [futures[i].get()] for each table name, until the first failure. *)
Fixpoint snapshot_collect (table_names : list string) (futures : list FutureGet)
    (table_name_to_metadata : gmap string string) : outcome (gmap string string) :=
  match table_names, futures with
  | [], _ => Returns table_name_to_metadata
  | _ :: _, [] => Undefined IndexOutOfRange
  | table_name :: table_names', future :: futures' =>
    obind future (λ res,
      if decide (error res ≠ ZOK) then Returns table_name_to_metadata
      else snapshot_collect table_names' futures'
             (map_emplace (unescapeForFileName table_name) (data res) table_name_to_metadata))
  end.

(** Lines 436-467: one pass of the retry loop; the last component is
    whether the pass ends in [break]. *)
Definition snapshot_pass (this : DatabaseReplicated) (max_log_ptr : Z)
    : M K (gmap string string * Z * bool) :=
  do '(table_names, _) <- zookeeper (zk_getChildren (zookeeper_path this +:+ "/metadata"));
  do futures <- mapM (λ table,
      zookeeper (zk_asyncTryGet (zookeeper_path this +:+ "/metadata/" +:+ table))) table_names;
  do table_name_to_metadata <- lift (snapshot_collect table_names futures ∅);
  do '(text, _) <- zookeeper (zk_get (zookeeper_path this +:+ "/max_log_ptr"));
  do new_max_log_ptr <- lift (parse_UInt32 text);
  if bool_decide (new_max_log_ptr = max_log_ptr)
     && bool_decide (vector_size table_names = Z.of_nat (size table_name_to_metadata) mod size_t_modulus)
  then ret (table_name_to_metadata, max_log_ptr, true)
  else if bool_decide (max_log_ptr < new_max_log_ptr)
  then ret (table_name_to_metadata, new_max_log_ptr, false)
  else ret (table_name_to_metadata, max_log_ptr, false).

(** Lines 434-468: [while (++iteration <= max_retries)]; [left] counts the
    passes still allowed and the value of [iteration] at exit is returned. *)
Fixpoint snapshot_while (this : DatabaseReplicated) (left : nat) (iteration : Z)
    (table_name_to_metadata : gmap string string) (max_log_ptr : Z)
    : M K (gmap string string * Z * Z) :=
  match left with
  | O => ret (table_name_to_metadata, max_log_ptr, iteration + 1)
  | S left' =>
    let iteration := iteration + 1 in
    do '(table_name_to_metadata, max_log_ptr, break) <- snapshot_pass this max_log_ptr;
    if break : bool then ret (table_name_to_metadata, max_log_ptr, iteration)
    else snapshot_while this left' iteration table_name_to_metadata max_log_ptr
  end.

(** Lines 429-476; the result carries the updated [max_log_ptr] (a reference
    parameter in the source). *)
Definition tryGetConsistentMetadataSnapshot (this : DatabaseReplicated) (max_log_ptr : Z)
    : M K (gmap string string * Z) :=
  do '(table_name_to_metadata, max_log_ptr, iteration) <-
    snapshot_while this (Z.to_nat max_retries) 0 ∅ max_log_ptr;
  if bool_decide (max_retries < iteration) then throw DATABASE_REPLICATION_FAILED
  else ret (table_name_to_metadata, max_log_ptr).

(** Lines 478-493. *)
Definition parseQueryFromMetadataInZooKeeper (this : DatabaseReplicated)
    (node_name query : string) : outcome ASTCreateQuery :=
  obind (parseQuery query) (λ create,
    if bool_decide (uuid create = UUIDHelpers_Nil)
       || bool_decide (table create ≠ TABLE_WITH_UUID_NAME_PLACEHOLDER)
       || negb (bool_decide (database create = ""))
    then Throws LOGICAL_ERROR
    else Returns {| database := database_name this;
                    table := unescapeForFileName node_name;
                    uuid := uuid create;
                    attach := false;
                    storage_engine := storage_engine create;
                    definition := definition create |}).

(** Lines 319-344: the body of the loop over the local tables; [true] when
    [name] is appended to [tables_to_detach]. *)
Definition should_detach (table_name_to_metadata : gmap string string)
    (name local_metadata : string) : outcome bool :=
  let in_zk := table_name_to_metadata !! name in
  (* in_zk->second *)
  let in_zk_second :=
    match in_zk with
    | Some text => Returns text
    | None => Undefined DerefEndIterator
    end in
  if bool_decide (in_zk = None) || bool_decide (in_zk ≠ Some local_metadata)
  then
    obind in_zk_second (λ zk_metadata,
      let looks_like_replicated := Str.contains "ReplicatedMergeTree" zk_metadata in
      if looks_like_replicated
      then
        obind (parseQuery local_metadata) (λ local_create,
        obind (parseQuery zk_metadata) (λ zk_create,
          if bool_decide (uuid local_create = uuid zk_create)
          then Returns false
          else Returns true))
      else Returns true)
  else Returns false.

(** Lines 316-347: the loop over [existing_tables_it]. *)
Fixpoint recover_scan (table_name_to_metadata : gmap string string) (names : list string)
    (tables_to_detach : list string) (total_tables : Z) : M K (list string * Z) :=
  match names with
  | [] => ret (tables_to_detach, total_tables)
  | name :: names' =>
    do local_metadata <- readMetadataFile name;
    do detach <- lift (should_detach table_name_to_metadata name local_metadata);
    recover_scan table_name_to_metadata names'
      (if detach : bool then tables_to_detach ++ [name] else tables_to_detach)
      (size_t_succ total_tables)
  end.

(** Lines 370-396: the body of the loop over [tables_to_detach]; the
    counters are [dropped_dicts], [moved_tables] and [dropped_tables].  The
    DDL guards are not modelled, and the database keeps its name while the
    function runs, so the test of line 374 never fires. *)
Definition recover_detach_one (this : DatabaseReplicated) (to_db_name : string)
    (max_log_ptr : Z) (table_name : string) (counters : Z * Z * list UUID)
    : M K (Z * Z * list UUID) :=
  let '(dropped_dicts, moved_tables, dropped_tables) := counters in
  do random <- draw;
  let to_name :=
    table_name +:+ "_" +:+ Str.of_Z max_log_ptr +:+ "_" +:+ Str.of_Z (random mod 1000) in
  do existing <- get_tables;
  match existing !! table_name with
  | None => undefined DerefNullPointer
  | Some t =>
    if is_dictionary t then
      run local_drop (DatabaseAtomic_removeDictionary table_name) table_name;
      ret (size_t_succ dropped_dicts, moved_tables, dropped_tables)
    else if negb (storesDataOnDisk t) then
      run record_local (IStorage_shutdown table_name);
      run local_drop (DatabaseAtomic_dropTable table_name true) table_name;
      ret (dropped_dicts, moved_tables, dropped_tables ++ [table_uuid t])
    else
      (* DatabaseCatalog::instance().getDatabase(to_db_name) *)
      do catalog <- get_databases;
      if bool_decide (catalog !! to_db_name = None) then throw UNKNOWN_DATABASE
      else
        run DatabaseAtomic_rename (database_name this) table_name to_db_name to_name false false;
        ret (dropped_dicts, size_t_succ moved_tables, dropped_tables)
  end.

Fixpoint recover_detach (this : DatabaseReplicated) (to_db_name : string) (max_log_ptr : Z)
    (tables_to_detach : list string) (counters : Z * Z * list UUID)
    : M K (Z * Z * list UUID) :=
  match tables_to_detach with
  | [] => ret counters
  | table_name :: rest =>
    do counters <- recover_detach_one this to_db_name max_log_ptr table_name counters;
    recover_detach this to_db_name max_log_ptr rest counters
  end.

(** Lines 406-424: the loop over [table_name_to_metadata]. *)
Fixpoint recover_create (this : DatabaseReplicated) (items : list (string * string)) : M K unit :=
  match items with
  | [] => ret ()
  | name_and_meta :: items' =>
    do present <- isTableExist name_and_meta.1;
    if present : bool then recover_create this items'
    else
      do query_ast <- lift (parseQueryFromMetadataInZooKeeper this name_and_meta.1 name_and_meta.2);
      run InterpreterCreateQuery_run query_ast;
      recover_create this items'
  end.

(** Lines 300-427. *)
Definition recoverLostReplica (this : DatabaseReplicated) (our_log_ptr max_log_ptr : Z)
    : M K unit :=
  let new_replica := bool_decide (our_log_ptr = 0) in
  do is_empty <- empty;
  if new_replica && negb is_empty then throw LOGICAL_ERROR
  else
    do '(table_name_to_metadata, max_log_ptr) <-
      tryGetConsistentMetadataSnapshot this max_log_ptr;
    do names <- getTablesIterator;
    do '(tables_to_detach, total_tables) <- recover_scan table_name_to_metadata names [] 0;
    let db_name := database_name this in
    let to_db_name := database_name this +:+ BROKEN_TABLES_SUFFIX in
    if bool_decide (total_tables < size_t_mul (vector_size tables_to_detach) 2)
    then throw DATABASE_REPLICATION_FAILED
    else
      run (if negb (bool_decide (tables_to_detach = []))
           then executeQuery_create_database to_db_name
           else ret ());
      do '(_, _, dropped_tables) <-
        recover_detach this to_db_name max_log_ptr tables_to_detach (0, 0, []);
      run mapM (λ id, record_local (DatabaseCatalog_waitTableFinallyDropped id)) dropped_tables;
      run recover_create this (map_items table_name_to_metadata);
      zookeeper (zk_set (replica_path this +:+ "/log_ptr") (Str.of_Z max_log_ptr)).

(** Lines 495-507. *)
Definition drop (this : DatabaseReplicated) : M K unit :=
  run zookeeper (zk_set (replica_path this) DROPPED_MARK);
  run DatabaseAtomic_drop_all;
  run zookeeper (zk_tryRemoveRecursive (replica_path this));
  do res <- zookeeper (zk_tryRemove (zookeeper_path this +:+ "/replicas"));
  if decide (res = ZOK)
  then zookeeper (zk_tryRemoveRecursive (zookeeper_path this))
  else ret ().

(** [txn->ops.emplace_back(op)] *)
Definition txn_ops_emplace_back (op : Request) : M K unit :=
  do current <- get_txn;
  match current with
  | None => undefined DerefNullPointer
  | Some t =>
    put_txn (Some {| is_initial_query := is_initial_query t;
                     txn_zookeeper_path := txn_zookeeper_path t;
                     ops := ops t ++ [op] |})
  end.

(** [to_database.isTableExist(name, context)] on the database called
    [to_database]: this one or another database of the catalog. *)
Definition IDatabase_isTableExist (this : DatabaseReplicated) (to_database name : string)
    : M K bool :=
  if bool_decide (to_database = database_name this) then isTableExist name
  else
    do d <- get_databases;
    ret (bool_decide (is_Some (d !! to_database ≫= (.!! name)))).

(** Lines 535-566; [to_database] is the name of the database object passed
    by reference, so [this != &to_database] compares it to our name. *)
Definition renameTable (this : DatabaseReplicated) (table_name to_database to_table_name : string)
    (exchange dictionary : bool) : M K unit :=
  do current <- get_txn;
  match current with
  | None => undefined DerefNullPointer
  | Some t =>
    run (if is_initial_query t then
           if bool_decide (database_name this ≠ to_database) then throw NOT_IMPLEMENTED
           else if bool_decide (table_name = to_table_name) then throw INCORRECT_QUERY
           else
             do source_exists <- isTableExist table_name;
             if negb source_exists then throw UNKNOWN_TABLE
             else
               do target_missing <-
                 (if exchange
                  then do e <- IDatabase_isTableExist this to_database to_table_name; ret (negb e)
                  else ret false);
               if target_missing : bool then throw UNKNOWN_TABLE
               else
                 do statement <- readMetadataFile table_name;
                 let metadata_zk_path :=
                   txn_zookeeper_path t +:+ "/metadata/" +:+ escapeForFileName table_name in
                 let metadata_zk_path_to :=
                   txn_zookeeper_path t +:+ "/metadata/" +:+ escapeForFileName to_table_name in
                 run txn_ops_emplace_back (makeRemoveRequest metadata_zk_path (-1));
                 run (if exchange then
                        do statement_to <- readMetadataFile to_table_name;
                        run txn_ops_emplace_back (makeRemoveRequest metadata_zk_path_to (-1));
                        txn_ops_emplace_back
                          (makeCreateRequest metadata_zk_path statement_to Persistent)
                      else ret ());
                 txn_ops_emplace_back (makeCreateRequest metadata_zk_path_to statement Persistent)
         else ret ());
    DatabaseAtomic_rename (database_name this) table_name to_database to_table_name
      exchange dictionary
  end.

End DatabaseReplicated.

(** ** A recorded session with the coordination service

    The service answers the calls of this process with the answers of a
    recording, one per call and in order, whatever other clients did in
    between; an answer of the wrong shape or a recording that ran out is a
    lost connection. *)

Inductive Answer :=
| answer_bool (b : bool)
| answer_tryGet (found : option string)
| answer_get (text : string) (stat : Stat)
| answer_children (names : list string) (stat : Stat)
| answer_future (future : FutureGet)
| answer_done
| answer_path (created : string)
| answer_code (code : CoordinationError)
| answer_throw (e : ErrorCode).

Definition connection_lost {A} : outcome A := Throws (KEEPER_EXCEPTION ZCONNECTIONLOSS).

Definition replay_answer (c : ZkCall) (a : Answer) : outcome (ZkResponse c) :=
  match c return outcome (ZkResponse c) with
  | zk_exists _ =>
    match a with answer_bool b => Returns b | answer_throw e => Throws e | _ => connection_lost end
  | zk_tryGet _ =>
    match a with answer_tryGet o => Returns o | answer_throw e => Throws e | _ => connection_lost end
  | zk_get _ =>
    match a with answer_get t st => Returns (t, st) | answer_throw e => Throws e | _ => connection_lost end
  | zk_getChildren _ =>
    match a with answer_children l st => Returns (l, st) | answer_throw e => Throws e | _ => connection_lost end
  | zk_asyncTryGet _ =>
    match a with answer_future f => Returns f | answer_throw e => Throws e | _ => connection_lost end
  | zk_set _ _ =>
    match a with answer_done => Returns () | answer_throw e => Throws e | _ => connection_lost end
  | zk_create _ _ _ =>
    match a with answer_path p => Returns p | answer_throw e => Throws e | _ => connection_lost end
  | zk_createAncestors _ =>
    match a with answer_done => Returns () | answer_throw e => Throws e | _ => connection_lost end
  | zk_tryMulti _ =>
    match a with answer_code e => Returns e | answer_throw e => Throws e | _ => connection_lost end
  | zk_multi _ =>
    match a with answer_done => Returns () | answer_throw e => Throws e | _ => connection_lost end
  | zk_tryRemove _ =>
    match a with answer_code e => Returns e | answer_throw e => Throws e | _ => connection_lost end
  | zk_tryRemoveRecursive _ =>
    match a with answer_done => Returns () | answer_throw e => Throws e | _ => connection_lost end
  end.

#[global] Instance Recording : ZooKeeper (list Answer) := λ c recording,
  match recording with
  | [] => (connection_lost, [])
  | a :: recording' => (replay_answer c a, recording')
  end.

(** ** Sample collaborators and statements for the examples *)

Module Sample.

Definition local_MergeTree : string :=
  "ATTACH TABLE _ UUID '00000000-0000-0000-0000-000000000001' (`x` Int32) ENGINE = MergeTree ORDER BY x".
Definition zk_ReplicatedMergeTree : string :=
  "ATTACH TABLE _ UUID '00000000-0000-0000-0000-000000000001' (`x` Int32) ENGINE = ReplicatedMergeTree('/clickhouse/tables/t', 'r1') ORDER BY x".
Definition zk_ReplicatedMergeTree_other : string :=
  "ATTACH TABLE _ UUID '00000000-0000-0000-0000-000000000003' (`x` Int32) ENGINE = ReplicatedMergeTree('/clickhouse/tables/t', 'r1') ORDER BY x".
Definition local_Log : string :=
  "ATTACH TABLE _ UUID '00000000-0000-0000-0000-000000000002' (`x` Int32) ENGINE = Log".
Definition zk_Log : string :=
  "ATTACH TABLE _ UUID '00000000-0000-0000-0000-000000000002' (`x` Int32, `y` Int32) ENGINE = Log".
Definition with_database : string :=
  "ATTACH TABLE db1.t UUID '00000000-0000-0000-0000-000000000002' (`x` Int32) ENGINE = Log".

Definition statement (db tbl : string) (id : UUID) (engine columns : string) : ASTCreateQuery :=
  {| database := db; table := tbl; uuid := id; attach := true;
     storage_engine := engine; definition := columns |}.

(** What ParserCreateQuery yields on the sample statements. *)
Definition statements : list (string * ASTCreateQuery) :=
  [ (local_MergeTree, statement "" "_" 1 "MergeTree" "(`x` Int32) ORDER BY x");
    (zk_ReplicatedMergeTree, statement "" "_" 1 "ReplicatedMergeTree" "(`x` Int32) ORDER BY x");
    (zk_ReplicatedMergeTree_other, statement "" "_" 3 "ReplicatedMergeTree" "(`x` Int32) ORDER BY x");
    (local_Log, statement "" "_" 2 "Log" "(`x` Int32)");
    (zk_Log, statement "" "_" 2 "Log" "(`x` Int32, `y` Int32)");
    (with_database, statement "db1" "t" 2 "Log" "(`x` Int32)") ].

(** A parser that knows the sample statements and rejects every other text,
    the empty query among them. *)
Definition parse (text : string) : outcome ASTCreateQuery :=
  match list_find (λ entry, entry.1 = text) statements with
  | Some (_, (_, ast)) => Returns ast
  | None => Throws SYNTAX_ERROR
  end.

Definition parse_number (text : string) : outcome Z :=
  match NilZero.uint_of_string text with
  | Some n => Returns (Z.of_N (N.of_uint n))
  | None => Throws CANNOT_PARSE_NUMBER
  end.

(** The names of the examples need no escaping. *)
#[global] Instance collaborators : Collaborators := {|
  parseQuery := parse;
  escapeForFileName := id;
  unescapeForFileName := id;
  Address_toString host tcp_port := host +:+ ":" +:+ Str.of_Z tcp_port;
  UUID_toString := Str.of_Z;
  parse_UInt32 := parse_number;
  DDLLogEntry_toString entry := entry_query entry;
  TABLE_WITH_UUID_NAME_PLACEHOLDER := "_";
  InterpreterCreateQuery_storage query :=
    Returns {| metadata_file := definition query; is_dictionary := false;
               storesDataOnDisk := true; table_uuid := uuid query |};
  thread_local_rng n := Z.of_nat n * 7919
|}.

Definition context : ServerContext :=
  {| hasZooKeeper := true; FQDNOrHostName := "host1"; TCPPort := 9000 |}.

Definition db (path : string) : DatabaseReplicated :=
  {| database_name := "db1"; db_uuid := 7; zookeeper_path := path;
     shard_name := "s1"; replica_name := "r1";
     replica_path := path +:+ "/replicas/s1|r1"; global_context := context |}.

Definition world (recording : list Answer) (local : gmap string Table) : World (list Answer) :=
  mkWorld recording [] local ∅ None 0.

Definition stored (text : string) (id : UUID) : Table :=
  {| metadata_file := text; is_dictionary := false; storesDataOnDisk := true; table_uuid := id |}.

Definition ok (text : string) : Answer :=
  answer_future (Returns {| error := ZOK; data := text |}).

(** One pass of [getCluster] during which another replica registers: the
    children of /replicas change between the listing (cversion [n]) and the
    second read of the stat (cversion [n + 1]); the data version stays 0. *)
Definition churning_pass (n : Z) : list Answer :=
  [ answer_children ["s1|r1"] {| version := 0; cversion := n |};
    ok "host1:9000:7";
    answer_get "" {| version := 0; cversion := n + 1 |} ].

Definition churning_session : list Answer :=
  concat (churning_pass <$> [1; 2; 3; 4; 5; 6; 7; 8; 9; 10]).

(** One pass of [getCluster] on a quiet service: one replica was created
    (cversion 1) and the data of /replicas was never set (version 0). *)
Definition quiet_pass : list Answer :=
  [ answer_children ["s1|r1"] {| version := 0; cversion := 1 |};
    ok "host1:9000:7";
    answer_get "" {| version := 0; cversion := 1 |} ].

Definition quiet_session : list Answer := concat (replicate 10 quiet_pass).

(** One pass of [getCluster] on a service with three replicas, the first of
    which was dropped. *)
Definition tombstone_pass : list Answer :=
  [ answer_children ["s1|r2"; "s1|r1"; "s2|r1"] {| version := 0; cversion := 3 |};
    ok "DROPPED";
    ok "host2:9000:7";
    ok "host3:9000:7";
    answer_get "" {| version := 0; cversion := 3 |} ].

Definition tombstone_session : list Answer := concat (replicate 10 tombstone_pass).

End Sample.

(** ** Notions used to state the properties *)

(** [w'] differs from [w] by calls to the coordination service only: the
    tables, the other databases, the metadata transaction, the random draws
    and the local calls of the trace are those of [w]. *)
Definition coordination_only {K} (w w' : World K) : Prop :=
  tables w' = tables w ∧ databases w' = databases w ∧ txn w' = txn w
  ∧ rng_draws w' = rng_draws w ∧ local_calls (trace w') = local_calls (trace w).

(** A computation that only calls the coordination service. *)
Definition frames {K A} (m : M K A) : Prop := ∀ w, coordination_only w (m w).2.

(** The world [w] once [calls] were made, which left the coordination
    service in the state [s] and the local tables [t]. *)
Definition after {K} (w : World K) (s : K) (calls : list Event) (t : gmap string Table)
    : World K :=
  mkWorld s (trace w ++ calls) t (databases w) (txn w) (rng_draws w).

(** The reconciliation rule in the words of the specification (section 4.4,
    phase 2): detach when the name is missing from the snapshot; keep when
    the texts are equal; keep when both sides parse to
    ReplicatedMergeTree-class engines and their UUIDs match; else detach. *)
Definition is_ReplicatedMergeTree_class (engine : string) : bool :=
  String.prefix "Replicated" engine && Str.ends_with "MergeTree" engine.

Definition spec_marks_for_detach `{!Collaborators} (snapshot : gmap string string)
    (name local_metadata : string) : bool :=
  match snapshot !! name with
  | None => true
  | Some zk_metadata =>
    if bool_decide (local_metadata = zk_metadata) then false
    else
      match parseQuery local_metadata, parseQuery zk_metadata with
      | Returns local_create, Returns snapshot_create =>
        negb (is_ReplicatedMergeTree_class (storage_engine local_create)
              && is_ReplicatedMergeTree_class (storage_engine snapshot_create)
              && bool_decide (uuid local_create = uuid snapshot_create))
      | _, _ => true
      end
  end.

(** The hosts of the replicas read from /replicas whose node does not hold
    the DROPPED mark, in the order of the listing. *)
Definition visible_hosts `{!Collaborators} (hosts host_ids : list string) : list string :=
  omap (λ '(_, id),
          if bool_decide (id = DROPPED_MARK) then None
          else Some (unescapeForFileName (Str.substr_to (Str.find ":" 0 id) id)))
       (zip hosts host_ids).

(** [host_ids] are the values of the replica nodes of [hosts] as read by a
    pass of [getCluster]: the data of the responses held by the futures of
    the asyncTryGet calls on the nodes of [hosts]. *)
Definition replica_values_read {K} `{!ZooKeeper K} (this : DatabaseReplicated)
    (hosts host_ids : list string) : Prop :=
  ∃ (w_before w_after : World K) (responses : list GetResponse),
    mapM (λ host, zookeeper (zk_asyncTryGet (zookeeper_path this +:+ "/replicas/" +:+ host)))
         hosts w_before
      = (Returns (Returns <$> responses), w_after)
    ∧ host_ids = data <$> responses.

(** ** The metadata-transaction hooks and [propose] *)

(** What [propose] reads of a query context. *)
Inductive QueryKind := NO_QUERY | INITIAL_QUERY | SECONDARY_QUERY.

#[global] Instance QueryKind_eq_dec : EqDecision QueryKind.
Proof. solve_decision. Defined.

Record QueryContext := {
  query_kind : QueryKind;
  distributed_ddl_task_timeout : Z
}.

(** What [propose] reads of the AST of a statement: whether
    [query->as<ASTQueryWithTableAndOutput>()] yields a pointer (the cast is
    [IAST::as], which is not under src/ and decides it by the dynamic type of
    the statement) and the database of the statement, the types of the
    commands when [query->as<ASTAlterQuery>()] yields a pointer, and the rest
    of the statement. *)
Record ASTQuery := {
  is_query_with_table : bool;
  query_database : string;
  alter_commands : option (list Z);
  query_body : string
}.

(** [std::make_shared<DDLQueryStatusInputStream>(node_path, entry, context, hosts_to_wait)] *)
Record DDLQueryStatusInputStream := {
  stream_node_path : string;
  stream_entry : DDLLogEntry;
  stream_hosts_to_wait : list string
}.

Record BlockIO := { io_in : option DDLQueryStatusInputStream }.

(** Lines 274-278: the loop over the commands of an ALTER. *)
Fixpoint propose_check_alter (isSupportedAlterType : Z → bool) (commands : list Z)
    : outcome unit :=
  match commands with
  | [] => Returns ()
  | command :: commands' =>
    if negb (isSupportedAlterType command) then Throws NOT_IMPLEMENTED
    else propose_check_alter isSupportedAlterType commands'
  end.

Section Hooks.
Context {K : Type} `{!ZooKeeper K} `{!Collaborators}.

(** The functions of other translation units that the hooks and [propose]
    call: the serializer of a CREATE, the methods of the base class
    DatabaseAtomic, the predicate on ALTER types, the printer of a statement
    and the methods of the DDL worker. *)
Variable getObjectDefinitionFromCreateQuery : ASTCreateQuery → string.
Variable DatabaseAtomic_commitCreateTable : ASTCreateQuery → Table → string → string → M K unit.
Variable DatabaseAtomic_commitAlterTable : string → string → string → string → M K unit.
Variable DatabaseAtomic_createDictionary : string → ASTCreateQuery → M K unit.
Variable DatabaseAtomic_detachTablePermanently : string → M K unit.
Variable isSupportedAlterType : Z → bool.
Variable queryToString : ASTQuery → string.
Variable getCommonHostID : string.
Variable tryEnqueueAndExecuteEntry : DDLLogEntry → QueryContext → M K string.

(** Lines 523-533. *)
Definition dropTable (this : DatabaseReplicated) (table_name : string) (no_delay : bool)
    : M K unit :=
  do current <- get_txn;
  run (match current with
       | Some t =>
         if is_initial_query t then
           let metadata_zk_path :=
             zookeeper_path this +:+ "/metadata/" +:+ escapeForFileName table_name in
           txn_ops_emplace_back (makeRemoveRequest metadata_zk_path (-1))
         else ret ()
       | None => ret ()
       end);
  local_drop (DatabaseAtomic_dropTable table_name no_delay) table_name.

(** Lines 568-582. *)
Definition commitCreateTable (query : ASTCreateQuery) (storage : Table)
    (table_metadata_tmp_path table_metadata_path : string) : M K unit :=
  do current <- get_txn;
  run (match current with
       | Some t =>
         if is_initial_query t then
           let metadata_zk_path :=
             txn_zookeeper_path t +:+ "/metadata/" +:+ escapeForFileName (table query) in
           let statement := getObjectDefinitionFromCreateQuery query in
           txn_ops_emplace_back (makeCreateRequest metadata_zk_path statement Persistent)
         else ret ()
       | None => ret ()
       end);
  DatabaseAtomic_commitCreateTable query storage table_metadata_tmp_path table_metadata_path.

(** Lines 584-595. *)
Definition commitAlterTable (table_name table_metadata_tmp_path table_metadata_path
    statement : string) : M K unit :=
  do current <- get_txn;
  run (match current with
       | Some t =>
         if is_initial_query t then
           let metadata_zk_path :=
             txn_zookeeper_path t +:+ "/metadata/" +:+ escapeForFileName table_name in
           txn_ops_emplace_back (makeSetRequest metadata_zk_path statement (-1))
         else ret ()
       | None => ret ()
       end);
  DatabaseAtomic_commitAlterTable table_name table_metadata_tmp_path table_metadata_path
    statement.

(** Lines 597-610. *)
Definition createDictionary (dictionary_name : string) (query : ASTCreateQuery) : M K unit :=
  do current <- get_txn;
  run (match current with
       | Some t =>
         if is_initial_query t then
           let metadata_zk_path :=
             txn_zookeeper_path t +:+ "/metadata/" +:+ escapeForFileName dictionary_name in
           let statement := getObjectDefinitionFromCreateQuery query in
           txn_ops_emplace_back (makeCreateRequest metadata_zk_path statement Persistent)
         else ret ()
       | None => ret ()
       end);
  DatabaseAtomic_createDictionary dictionary_name query.

(** Lines 612-622. *)
Definition removeDictionary (this : DatabaseReplicated) (dictionary_name : string) : M K unit :=
  do current <- get_txn;
  run (match current with
       | Some t =>
         if is_initial_query t then
           let metadata_zk_path :=
             zookeeper_path this +:+ "/metadata/" +:+ escapeForFileName dictionary_name in
           txn_ops_emplace_back (makeRemoveRequest metadata_zk_path (-1))
         else ret ()
       | None => ret ()
       end);
  local_drop (DatabaseAtomic_removeDictionary dictionary_name) dictionary_name.

(** Lines 624-634. *)
Definition detachTablePermanently (this : DatabaseReplicated) (table_name : string)
    : M K unit :=
  do current <- get_txn;
  run (match current with
       | Some t =>
         if is_initial_query t then
           let metadata_zk_path :=
             zookeeper_path this +:+ "/metadata/" +:+ escapeForFileName table_name in
           txn_ops_emplace_back (makeRemoveRequest metadata_zk_path (-1))
         else ret ()
       | None => ret ()
       end);
  DatabaseAtomic_detachTablePermanently table_name.

(** Lines 264-297. *)
Definition propose (this : DatabaseReplicated) (query : ASTQuery) (query_context : QueryContext)
    : M K BlockIO :=
  if bool_decide (query_kind query_context ≠ INITIAL_QUERY) then throw INCORRECT_QUERY
  else
    (* if (auto * ddl_query = query->as<ASTQueryWithTableAndOutput>())
         ddl_query->database.clear(); *)
    let query :=
      if is_query_with_table query
      then {| is_query_with_table := true; query_database := "";
              alter_commands := alter_commands query; query_body := query_body query |}
      else query in
    run (match alter_commands query with
         | Some commands => lift (propose_check_alter isSupportedAlterType commands)
         | None => ret ()
         end);
    let entry := {| entry_hosts := [];
                    entry_query := queryToString query;
                    entry_initiator := getCommonHostID |} in
    do node_path <- tryEnqueueAndExecuteEntry entry query_context;
    if bool_decide (distributed_ddl_task_timeout query_context = 0)
    then ret {| io_in := None |}
    else
      do '(hosts_to_wait, _) <- zookeeper (zk_getChildren (zookeeper_path this +:+ "/replicas"));
      ret {| io_in := Some {| stream_node_path := node_path;
                              stream_entry := entry;
                              stream_hosts_to_wait := hosts_to_wait |} |}.

End Hooks.

(** Lines 350-426 of [recoverLostReplica]: what follows the scan of the
    local tables once the safety valve has let it pass. *)
Definition recover_apply {K} `{!ZooKeeper K} `{!Collaborators} (this : DatabaseReplicated)
    (table_name_to_metadata : gmap string string) (max_log_ptr : Z)
    (tables_to_detach : list string) : M K unit :=
  let to_db_name := database_name this +:+ BROKEN_TABLES_SUFFIX in
  run (if negb (bool_decide (tables_to_detach = []))
       then executeQuery_create_database to_db_name
       else ret ());
  do '(_, _, dropped_tables) <-
    recover_detach this to_db_name max_log_ptr tables_to_detach (0, 0, []);
  run mapM (λ id, record_local (DatabaseCatalog_waitTableFinallyDropped id)) dropped_tables;
  run recover_create this (map_items table_name_to_metadata);
  zookeeper (zk_set (replica_path this +:+ "/log_ptr") (Str.of_Z max_log_ptr)).

(** ** Further notions *)

(** Every call that [m] adds to the trace satisfies [P]. *)
Definition emits {K A} (P : Event → Prop) (m : M K A) : Prop :=
  ∀ w, ∃ t, trace (m w).2 = trace w ++ t ∧ Forall P t.

(** The reads of the coordination service. *)
Definition is_store_read (e : Event) : Prop :=
  match e with
  | Zk (zk_exists _) | Zk (zk_tryGet _) | Zk (zk_get _)
  | Zk (zk_getChildren _) | Zk (zk_asyncTryGet _) => True
  | _ => False
  end.

(** A call that does not write to the coordination service. *)
Definition no_store_write (e : Event) : Prop :=
  match e with
  | Local _ => True
  | Zk _ => is_store_read e
  end.

(** The number of [getChildren] calls in a trace. *)
Definition is_listing (e : Event) : bool :=
  match e with
  | Zk (zk_getChildren _) => true
  | _ => false
  end.

Definition listings (t : list Event) : nat :=
  length (filter (λ e, is_listing e = true) t).

(** The calls that [m] adds to the trace, taken together, satisfy [Q]. *)
Definition adds {K A} (Q : list Event → Prop) (m : M K A) : Prop :=
  ∀ w, ∃ t, trace (m w).2 = trace w ++ t ∧ Q t.

(** A read of the coordination service other than a listing. *)
Definition is_node_read (e : Event) : Prop := is_store_read e ∧ is_listing e = false.

(** [host_ids] are the values of the replica nodes of [hosts], one for each
    host and each fetched with the answer ZOK. *)
Definition replica_values_fetched {K} `{!ZooKeeper K} (this : DatabaseReplicated)
    (hosts host_ids : list string) : Prop :=
  ∃ (w_before w_after : World K) (responses : list GetResponse),
    mapM (λ host, zookeeper (zk_asyncTryGet (zookeeper_path this +:+ "/replicas/" +:+ host)))
         hosts w_before
      = (Returns (Returns <$> responses), w_after)
    ∧ host_ids = data <$> responses
    ∧ length responses = length hosts
    ∧ Forall (λ response, error response = ZOK) responses.

(** [snapshot] was read in one pass under the log pointer [pointer]: the
    children of /metadata were listed, each child was fetched, and the node
    max_log_ptr, read after the fetches, held [pointer]; and (the listing
    fitting a size_t) every fetch answered ZOK, no two children unescape to
    the same name, and [snapshot] maps the unescaped name of each child to
    the data fetched from it. *)
Definition snapshot_taken {K} `{!ZooKeeper K} `{!Collaborators} (this : DatabaseReplicated)
    (snapshot : gmap string string) (pointer : Z) : Prop :=
  ∃ (w0 w1 w2 w3 : World K) table_names stat futures text stat',
    zookeeper (zk_getChildren (zookeeper_path this +:+ "/metadata")) w0
      = (Returns (table_names, stat), w1)
    ∧ mapM (λ table,
        zookeeper (zk_asyncTryGet (zookeeper_path this +:+ "/metadata/" +:+ table)))
        table_names w1 = (Returns futures, w2)
    ∧ zookeeper (zk_get (zookeeper_path this +:+ "/max_log_ptr")) w2
      = (Returns (text, stat'), w3)
    ∧ parse_UInt32 text = Returns pointer
    ∧ (Z.of_nat (length table_names) < size_t_modulus →
       ∃ responses,
         futures = Returns <$> responses
         ∧ Forall (λ response, error response = ZOK) responses
         ∧ NoDup (unescapeForFileName <$> table_names)
         ∧ snapshot = list_to_map (zip (unescapeForFileName <$> table_names)
                                       (data <$> responses))).

(** [m] calls no write of the coordination service, except that its last
    call may be [seal]: either the run does not return and has called no
    write, or it ends with [seal], run after calls that are no writes, and
    its outcome and final state are those of [seal]. *)
Definition sealed {K} (seal : M K unit) (m : M K unit) : Prop :=
  ∀ w, ((m w).1 ≠ Returns ()
        ∧ ∃ t, trace (m w).2 = trace w ++ t ∧ Forall no_store_write t)
       ∨ (∃ w0 t0, trace w0 = trace w ++ t0 ∧ Forall no_store_write t0 ∧ m w = seal w0).

(** What recovery may ask of the local catalog, given the tables [before]
    recovery of the database [db]: a dictionary is removed; a table that
    stores no data on disk is shut down and dropped; a table that stores data
    on disk is renamed, never exchanged, into the database <db>_broken_tables;
    a CREATE is run for this database with a non-Nil UUID and without ATTACH;
    the database itself is never dropped. *)
Definition recovery_call_ok (before : gmap string Table) (db : string) (e : Event) : Prop :=
  match e with
  | Zk _ => True
  | Local (executeQuery_CreateDatabaseIfNotExists name) => name = db +:+ BROKEN_TABLES_SUFFIX
  | Local (DatabaseAtomic_removeDictionary name) =>
    ∃ t, before !! name = Some t ∧ is_dictionary t = true
  | Local (IStorage_shutdown name) | Local (DatabaseAtomic_dropTable name _) =>
    ∃ t, before !! name = Some t ∧ is_dictionary t = false ∧ storesDataOnDisk t = false
  | Local (DatabaseAtomic_renameTable name to_database _ exchange _) =>
    (∃ t, before !! name = Some t ∧ is_dictionary t = false ∧ storesDataOnDisk t = true)
    ∧ to_database = db +:+ BROKEN_TABLES_SUFFIX ∧ exchange = false
  | Local (DatabaseCatalog_waitTableFinallyDropped _) => True
  | Local (InterpreterCreateQuery_execute query) =>
    database query = db ∧ attach query = false ∧ uuid query ≠ UUIDHelpers_Nil
  | Local DatabaseAtomic_drop => False
  end.

(** The tables [now] are among the tables [before], unchanged. *)
Definition shrunk_from (before now : gmap string Table) : Prop :=
  ∀ name, now !! name = None ∨ now !! name = before !! name.

(** Started on tables among [before], [m] adds only calls that satisfy [P]
    and ends on tables among [before]. *)
Definition detaching {K A} (before : gmap string Table) (P : Event → Prop) (m : M K A) : Prop :=
  ∀ w, shrunk_from before (tables w) →
       ∃ t, trace (m w).2 = trace w ++ t ∧ Forall P t
            ∧ shrunk_from before (tables (m w).2).

(** Started on tables among [before], [m] adds only calls that satisfy [P]. *)
Definition calling {K A} (before : gmap string Table) (P : Event → Prop) (m : M K A) : Prop :=
  ∀ w, shrunk_from before (tables w) →
       ∃ t, trace (m w).2 = trace w ++ t ∧ Forall P t.

(** The world [w] with [added] appended to the requests of its metadata
    transaction, when it has one. *)
Definition with_ops {K} (added : list Request) (w : World K) : World K :=
  mkWorld (zk w) (trace w) (tables w) (databases w)
    ((λ t, {| is_initial_query := is_initial_query t;
              txn_zookeeper_path := txn_zookeeper_path t;
              ops := ops t ++ added |}) <$> txn w)
    (rng_draws w).

(** The world in which a hook calls the local catalog: the request [op]
    (of the transaction) is queued in the metadata transaction when there is
    one and it is of an initial query. *)
Definition queued {K} (op : MetadataTransaction → Request) (w : World K) : World K :=
  match txn w with
  | Some t => if is_initial_query t then with_ops [op t] w else w
  | None => w
  end.

(** The node of an object under /metadata. *)
Definition metadata_node `{!Collaborators} (root name : string) : string :=
  root +:+ "/metadata/" +:+ escapeForFileName name.

(** Modelled from the spec: the effect of the requests of a multi-op on the
    values of the nodes of the coordination service, whose client is not
    under src/: a create needs the node absent, a remove and a set (with
    version -1, which matches every version) need it present. *)
Definition apply_request (r : Request) (nodes : gmap string string)
    : option (gmap string string) :=
  match r with
  | makeCreateRequest path data _ =>
    match nodes !! path with
    | None => Some (<[path := data]> nodes)
    | Some _ => None
    end
  | makeRemoveRequest path _ =>
    match nodes !! path with
    | Some _ => Some (delete path nodes)
    | None => None
    end
  | makeSetRequest path data _ =>
    match nodes !! path with
    | Some _ => Some (<[path := data]> nodes)
    | None => None
    end
  end.

Fixpoint apply_requests (rs : list Request) (nodes : gmap string string)
    : option (gmap string string) :=
  match rs with
  | [] => Some nodes
  | r :: rs' => apply_request r nodes ≫= apply_requests rs'
  end.

(** * Properties *)

(** ** Strings *)

Lemma append_cons (c : ascii) (s t : string) : String c s +:+ t = String c (s +:+ t).
Proof. reflexivity. Qed.

Lemma length_snoc s c : String.length (Str.snoc s c) = S (String.length s).
Proof.
  unfold Str.snoc. induction s as [|a s IH]; [done|].
  rewrite append_cons. simpl. by rewrite IH.
Qed.

Lemma snoc_cases s : s = "" ∨ ∃ r c, s = Str.snoc r c.
Proof.
  induction s as [|a s [->|(r & c & ->)]]; [by left|right..].
  - by exists "", a.
  - by exists (String a r), c.
Qed.

Lemma snoc_nonempty r c : Str.snoc r c ≠ "".
Proof. by destruct r. Qed.

Lemma get_snoc r c : String.get (String.length r) (Str.snoc r c) = Some c.
Proof.
  unfold Str.snoc. induction r as [|a r IH]; [done|].
  rewrite append_cons. simpl. exact IH.
Qed.

Lemma back_snoc r c : Str.back (Str.snoc r c) = Some c.
Proof.
  unfold Str.back. destruct (Str.snoc r c) eqn:E; [by destruct r|].
  rewrite <-E, length_snoc. simpl. rewrite Nat.sub_0_r. apply get_snoc.
Qed.

Lemma substring_snoc r c : String.substring 0 (String.length r) (Str.snoc r c) = r.
Proof.
  unfold Str.snoc. induction r as [|a r IH]; [done|].
  rewrite append_cons. simpl. by rewrite IH.
Qed.

Lemma resize_snoc r c : Str.resize (String.length (Str.snoc r c) - 1) (Str.snoc r c) = r.
Proof.
  unfold Str.resize. rewrite length_snoc. simpl. rewrite Nat.sub_0_r. apply substring_snoc.
Qed.

Lemma front_cons a s : Str.front (String a s) = Some a.
Proof. reflexivity. Qed.

Lemma back_cons a s : s ≠ "" → Str.back (String a s) = Str.back s.
Proof.
  intros Hs. destruct (snoc_cases s) as [->|(r & c & ->)]; [done|].
  change (String a (Str.snoc r c)) with (Str.snoc (String a r) c).
  by rewrite !back_snoc.
Qed.

Lemma substring_tail r t : String.substring (String.length r) (String.length t) (r +:+ t) = t.
Proof.
  induction r as [|a r IH].
  - change ("" +:+ t) with t. simpl.
    induction t as [|b t IHt]; [done|]. simpl. by rewrite IHt.
  - rewrite append_cons. simpl. exact IH.
Qed.

Lemma ends_with_double_slash r : Str.ends_with "//" (Str.snoc (Str.snoc r slash) slash) = true.
Proof.
  unfold Str.ends_with. rewrite !length_snoc.
  replace (Str.snoc (Str.snoc r slash) slash) with (r +:+ "//").
  2:{ unfold Str.snoc. induction r as [|a r IH]; [done|]. rewrite !append_cons. by rewrite IH. }
  replace (S (S (String.length r)) - String.length "//")%nat with (String.length r)
    by (simpl; lia).
  change (String.length "//") with 2%nat.
  change 2%nat with (String.length "//") at 2 3.
  rewrite substring_tail. done.
Qed.

(** ** The monad *)

Lemma bind_returns {K A B} (m : M K A) (k : A → M K B) w a w' :
  m w = (Returns a, w') → bind m k w = k a w'.
Proof. unfold bind. by intros ->. Qed.

Lemma bind_throws {K A B} (m : M K A) (k : A → M K B) w e w' :
  m w = (Throws e, w') → bind m k w = (Throws e, w').
Proof. unfold bind. by intros ->. Qed.

Lemma bind_inv {K A B} (m : M K A) (k : A → M K B) w b w' :
  bind m k w = (Returns b, w') → ∃ a w1, m w = (Returns a, w1) ∧ k a w1 = (Returns b, w').
Proof.
  unfold bind. destruct (m w) as [[a|e|u] w1]; [eauto|done..].
Qed.

Section Properties.
Context {K : Type} {keeper : ZooKeeper K} {collaborators : Collaborators}.

(** ** C10: the stored path *)

Lemma normalize_zookeeper_path_ok (p : string) :
  p ≠ "" → p ≠ "/" → Str.ends_with "//" p = false →
  ∃ q, normalize_zookeeper_path p = Returns q
       ∧ Str.front q = Some slash ∧ Str.back q ≠ Some slash.
Proof.
  intros Hne Hroot Hdouble.
  destruct (snoc_cases p) as [->|(r & c & ->)]; [done|].
  unfold normalize_zookeeper_path. rewrite back_snoc.
  destruct (decide (c = slash)) as [->|Hc].
  - rewrite resize_snoc.
    destruct r as [|f r]; [done|].
    assert (Str.back (String f r) ≠ Some slash) as Hback.
    { intros Hb. destruct (snoc_cases (String f r)) as [?|(r' & c' & Hr')]; [done|].
      rewrite Hr', back_snoc in Hb. injection Hb as ->.
      rewrite Hr', ends_with_double_slash in Hdouble. done. }
    rewrite front_cons. destruct (decide (f ≠ slash)) as [Hf|Hf].
    + eexists. split; [done|]. split; [done|].
      change ("/" +:+ String f r) with (String slash (String f r)).
      by rewrite back_cons.
    + apply dec_stable in Hf as ->. eexists. split; [done|]. by split.
  - destruct (Str.front (Str.snoc r c)) as [f|] eqn:Hfront.
    2:{ by destruct r. }
    destruct (decide (f ≠ slash)) as [Hf|Hf].
    + eexists. split; [done|]. split; [done|].
      change ("/" +:+ Str.snoc r c) with (String slash (Str.snoc r c)).
      rewrite back_cons by apply snoc_nonempty. rewrite back_snoc. congruence.
    + apply dec_stable in Hf as ->. eexists. split; [done|]. split; [done|].
      rewrite back_snoc. congruence.
Qed.

Lemma DatabaseReplicated_init_path name_ id p shard replica ctx (w : World K) this w' :
  DatabaseReplicated_init name_ id p shard replica ctx w = (Returns this, w') →
  normalize_zookeeper_path p = Returns (zookeeper_path this).
Proof.
  unfold DatabaseReplicated_init.
  repeat (match goal with |- context [if ?b then throw _ else _] => destruct b end;
          [discriminate|]).
  intros Hi. apply bind_inv in Hi as (q & w1 & Hq & Hi).
  unfold lift in Hq. injection Hq as Hq <-. rewrite Hq.
  destruct (negb (hasZooKeeper ctx)); [discriminate|].
  apply bind_inv in Hi as (ex & w2 & _ & Hi).
  apply bind_inv in Hi as (? & w3 & _ & Hi).
  unfold ret in Hi. by injection Hi as <- _.
Qed.

(** C10 (amended).  For every non-empty path argument other than "/" that
    does not end with "//", the normalisation of the constructor is
    well-defined, and the path it stores begins with '/' and does not end
    with '/'. *)
Theorem stored_zookeeper_path_normalized (p : string) :
  p ≠ "" → p ≠ "/" → Str.ends_with "//" p = false →
  ∃ q, normalize_zookeeper_path p = Returns q
       ∧ Str.front q = Some slash ∧ Str.back q ≠ Some slash
       ∧ ∀ name_ id shard replica ctx (w : World K) this w',
           DatabaseReplicated_new name_ id p shard replica ctx w = (Returns this, w') →
           zookeeper_path this = q.
Proof.
  intros Hne Hroot Hdouble.
  destruct (normalize_zookeeper_path_ok p Hne Hroot Hdouble) as (q & Hq & Hfront & Hback).
  exists q. repeat split; [done..|].
  intros name_ id shard replica ctx w this w' Hnew.
  unfold DatabaseReplicated_new in Hnew.
  apply bind_inv in Hnew as (this' & w1 & Hinit & Hnew).
  apply bind_inv in Hnew as (? & w2 & _ & Hnew).
  unfold ret in Hnew. injection Hnew as -> _.
  apply DatabaseReplicated_init_path in Hinit. congruence.
Qed.

(** ** C5: a replica node that already exists *)

Lemma DatabaseReplicated_init_fields name_ id p shard replica ctx (w : World K) this w' :
  DatabaseReplicated_init name_ id p shard replica ctx w = (Returns this, w') →
  global_context this = ctx ∧ db_uuid this = id
  ∧ replica_path this = zookeeper_path this +:+ "/replicas/" +:+ shard +:+ "|" +:+ replica.
Proof.
  unfold DatabaseReplicated_init.
  repeat (match goal with |- context [if ?b then throw _ else _] => destruct b end;
          [discriminate|]).
  intros Hi. apply bind_inv in Hi as (q & w1 & Hq & Hi).
  destruct (negb (hasZooKeeper ctx)); [discriminate|].
  apply bind_inv in Hi as (ex & w2 & _ & Hi).
  apply bind_inv in Hi as (? & w3 & _ & Hi).
  unfold ret in Hi. by injection Hi as <- _.
Qed.

(** C5.  When the node /replicas/<shard|replica> already exists at
    construction, the constructor resumes without creating replica nodes
    (its only further call is the read of that node) if the value read equals
    this process's host-id, and raises ReplicaExists if the value differs. *)
Theorem existing_replica_node_resumes_or_refuses
    name_ id p shard replica ctx (w : World K) this w1 v s' :
  DatabaseReplicated_init name_ id p shard replica ctx w = (Returns this, w1) →
  zk_answer (zk_tryGet (replica_path this)) (zk w1) = (Returns (Some v), s') →
  let w2 := mkWorld s' (trace w1 ++ [Zk (zk_tryGet (replica_path this))])
              (tables w1) (databases w1) (txn w1) (rng_draws w1) in
  replica_path this = zookeeper_path this +:+ "/replicas/" +:+ shard +:+ "|" +:+ replica
  ∧ (v = getHostID ctx id →
     DatabaseReplicated_new name_ id p shard replica ctx w = (Returns this, w2))
  ∧ (v ≠ getHostID ctx id →
     DatabaseReplicated_new name_ id p shard replica ctx w
       = (Throws REPLICA_IS_ALREADY_EXIST, w2)).
Proof.
  intros Hinit Hget w2.
  destruct (DatabaseReplicated_init_fields _ _ _ _ _ _ _ _ _ Hinit) as (Hctx & Hid & Hpath).
  split; [done|].
  unfold DatabaseReplicated_new. rewrite (bind_returns _ _ _ _ _ Hinit).
  assert (zookeeper (zk_tryGet (replica_path this)) w1 = (Returns (Some v), w2)) as Hcall.
  { unfold zookeeper. by rewrite Hget. }
  unfold DatabaseReplicated_register.
  split; intros Hv.
  - erewrite bind_returns.
    2:{ erewrite bind_returns by exact Hcall. rewrite Hctx, Hid.
        destruct (decide (v ≠ getHostID ctx id)); [done|]. reflexivity. }
    reflexivity.
  - erewrite bind_throws; [reflexivity|].
    erewrite bind_returns by exact Hcall. rewrite Hctx, Hid.
    destruct (decide (v ≠ getHostID ctx id)); [|done]. reflexivity.
Qed.

(** ** C4: the bootstrap of the database nodes *)

(** C4 (amended).  createDatabaseNodesInZooKeeper issues, after
    createAncestors, a single multi-op that creates the root, log, replicas
    and counter nodes, creates and then removes one persistent child cnt- of
    counter, creates the metadata node and writes max_log_ptr=1 and
    logs_to_keep=1000; ZOK is returned as true, ZNODEEXISTS as false, and
    every other error propagates as an exception. *)
Theorem createDatabaseNodesInZooKeeper_spec (path : string) (w : World K) s1 r s2 :
  zk_answer (zk_createAncestors path) (zk w) = (Returns (), s1) →
  zk_answer (zk_tryMulti (createDatabaseNodes_ops path)) s1 = (r, s2) →
  createDatabaseNodes_ops path =
    [ makeCreateRequest path "" Persistent;
      makeCreateRequest (path +:+ "/log") "" Persistent;
      makeCreateRequest (path +:+ "/replicas") "" Persistent;
      makeCreateRequest (path +:+ "/counter") "" Persistent;
      makeCreateRequest (path +:+ "/counter/cnt-") "" Persistent;
      makeRemoveRequest (path +:+ "/counter/cnt-") (-1);
      makeCreateRequest (path +:+ "/metadata") "" Persistent;
      makeCreateRequest (path +:+ "/max_log_ptr") "1" Persistent;
      makeCreateRequest (path +:+ "/logs_to_keep") "1000" Persistent ]
  ∧ createDatabaseNodesInZooKeeper path w =
      (match r with
       | Returns ZOK => Returns true
       | Returns ZNODEEXISTS => Returns false
       | Returns code => Throws (KEEPER_EXCEPTION code)
       | Throws e => Throws e
       | Undefined u => Undefined u
       end,
       mkWorld s2
         (trace w ++ [Zk (zk_createAncestors path);
                      Zk (zk_tryMulti (createDatabaseNodes_ops path))])
         (tables w) (databases w) (txn w) (rng_draws w)).
Proof.
  intros Hanc Hmulti. split; [reflexivity|].
  unfold createDatabaseNodesInZooKeeper.
  erewrite bind_returns by (unfold zookeeper; rewrite Hanc; reflexivity).
  unfold bind at 1. unfold zookeeper at 1. cbn [zk trace tables databases txn rng_draws].
  rewrite Hmulti, <-app_assoc. cbn [app].
  destruct r as [code|e|u]; [|done..].
  destruct code; reflexivity.
Qed.

(** ** C7: the preconditions of a rename *)

(** C7.  On an initial query, renameTable checks its preconditions in turn
    and throws before any request is queued in the metadata transaction
    and before the local catalog is called (the state is left as it was):
    NotImplemented if the target database is another database, IncorrectQuery
    if the table is renamed to itself, UnknownTable if the source table does
    not exist, and UnknownTable if an exchange is requested and the target
    table does not exist. *)
Theorem renameTable_preconditions
    this table_name to_database to_table_name exchange dictionary (w : World K) t :
  txn w = Some t → is_initial_query t = true →
  (to_database ≠ database_name this →
   renameTable this table_name to_database to_table_name exchange dictionary w
     = (Throws NOT_IMPLEMENTED, w))
  ∧ (to_database = database_name this → table_name = to_table_name →
     renameTable this table_name to_database to_table_name exchange dictionary w
       = (Throws INCORRECT_QUERY, w))
  ∧ (to_database = database_name this → table_name ≠ to_table_name →
     tables w !! table_name = None →
     renameTable this table_name to_database to_table_name exchange dictionary w
       = (Throws UNKNOWN_TABLE, w))
  ∧ (to_database = database_name this → table_name ≠ to_table_name →
     is_Some (tables w !! table_name) →
     exchange = true → tables w !! to_table_name = None →
     renameTable this table_name to_database to_table_name exchange dictionary w
       = (Throws UNKNOWN_TABLE, w)).
Proof.
  intros Htxn Hinitial.
  repeat split; intros; subst;
    unfold renameTable, bind, get_txn, isTableExist, IDatabase_isTableExist, isTableExist, ret;
    cbn beta; rewrite Htxn, Hinitial.
  - rewrite bool_decide_eq_true_2 by done. reflexivity.
  - rewrite bool_decide_eq_false_2 by (intros Hne; by apply Hne).
    rewrite bool_decide_eq_true_2 by done. reflexivity.
  - rewrite bool_decide_eq_false_2 by (intros Hne; by apply Hne).
    rewrite bool_decide_eq_false_2 by done.
    match goal with Hsource : tables w !! _ = None |- _ => rewrite Hsource end.
    rewrite bool_decide_eq_false_2 by (by intros [? ?]). reflexivity.
  - rewrite bool_decide_eq_false_2 by (intros Hne; by apply Hne).
    rewrite bool_decide_eq_false_2 by done.
    rewrite (bool_decide_eq_true_2 (is_Some _)) by done. cbn [negb].
    rewrite (bool_decide_eq_true_2 (_ = _)) by done.
    match goal with Htarget : tables w !! _ = None |- _ => rewrite Htarget end.
    rewrite bool_decide_eq_false_2 by (by intros [? ?]). reflexivity.
Qed.

(** ** C8: statements read from the metadata nodes *)

(** C8 (amended).  When the stored text does not parse, the exception of
    the parser propagates.  When it parses to a CREATE,
    parseQueryFromMetadataInZooKeeper raises LogicalError unless the UUID is
    non-Nil, the table is exactly the UUID name placeholder and the database
    is empty; otherwise it returns that CREATE with the database set to this
    database's name, the table set to the unescaped node name and the attach
    flag cleared. *)
Theorem parseQueryFromMetadataInZooKeeper_spec this node_name query :
  (∀ e, parseQuery query = Throws e →
        parseQueryFromMetadataInZooKeeper this node_name query = Throws e)
  ∧ (∀ create, parseQuery query = Returns create →
       (uuid create = UUIDHelpers_Nil
        ∨ table create ≠ TABLE_WITH_UUID_NAME_PLACEHOLDER
        ∨ database create ≠ "" →
        parseQueryFromMetadataInZooKeeper this node_name query = Throws LOGICAL_ERROR)
       ∧ (uuid create ≠ UUIDHelpers_Nil →
          table create = TABLE_WITH_UUID_NAME_PLACEHOLDER →
          database create = "" →
          parseQueryFromMetadataInZooKeeper this node_name query
            = Returns {| database := database_name this;
                         table := unescapeForFileName node_name;
                         uuid := uuid create;
                         attach := false;
                         storage_engine := storage_engine create;
                         definition := definition create |})).
Proof.
  unfold parseQueryFromMetadataInZooKeeper. split.
  - by intros e ->.
  - intros create ->. cbn [obind]. split.
    + intros [Hu|[Ht|Hd]].
      * by rewrite (bool_decide_eq_true_2 _ Hu).
      * rewrite (bool_decide_eq_true_2 _ Ht). by rewrite orb_true_r.
      * rewrite (bool_decide_eq_false_2 _ Hd). cbn [negb]. by rewrite orb_true_r.
    + intros Hu Ht Hd.
      rewrite (bool_decide_eq_false_2 _ Hu).
      rewrite (bool_decide_eq_false_2 (_ ≠ _)) by (intros Hne; by apply Hne).
      by rewrite (bool_decide_eq_true_2 _ Hd).
Qed.

(** ** C1: reconciliation of a local table with the snapshot *)

(** C1 (amended).  For a local table whose name is present in the
    consistent metadata snapshot: it is kept if the local metadata text
    equals the snapshot text; if the texts differ and the snapshot text does
    not contain "ReplicatedMergeTree" it is marked for detach; if the texts
    differ, the snapshot text contains "ReplicatedMergeTree" and both texts
    parse to CREATE statements, it is kept when their table UUIDs match and
    marked for detach when they differ. *)
Theorem reconciliation_of_present_table
    (snapshot : gmap string string) name local_metadata zk_metadata :
  snapshot !! name = Some zk_metadata →
  (local_metadata = zk_metadata →
   should_detach snapshot name local_metadata = Returns false)
  ∧ (local_metadata ≠ zk_metadata →
     Str.contains "ReplicatedMergeTree" zk_metadata = false →
     should_detach snapshot name local_metadata = Returns true)
  ∧ (local_metadata ≠ zk_metadata →
     Str.contains "ReplicatedMergeTree" zk_metadata = true →
     ∀ local_create zk_create,
       parseQuery local_metadata = Returns local_create →
       parseQuery zk_metadata = Returns zk_create →
       (uuid local_create = uuid zk_create →
        should_detach snapshot name local_metadata = Returns false)
       ∧ (uuid local_create ≠ uuid zk_create →
          should_detach snapshot name local_metadata = Returns true)).
Proof.
  intros Hzk. unfold should_detach. rewrite Hzk.
  rewrite (bool_decide_eq_false_2 (Some _ = None)) by done. cbn [orb].
  split; [|split].
  - intros ->. by rewrite bool_decide_eq_false_2 by (intros Hne; by apply Hne).
  - intros Hne Hlooks. rewrite bool_decide_eq_true_2 by congruence.
    cbn [obind]. by rewrite Hlooks.
  - intros Hne Hlooks local_create zk_create Hlocal Hsnapshot.
    rewrite bool_decide_eq_true_2 by congruence.
    cbn [obind]. rewrite Hlooks, Hlocal, Hsnapshot. cbn [obind].
    split; intros Huuid.
    + by rewrite bool_decide_eq_true_2.
    + by rewrite bool_decide_eq_false_2.
Qed.

(** ** C6: a new replica with a non-empty catalog *)

(** C6 (amended).  recoverLostReplica, when invoked with a local log
    pointer of 0 while the local catalog is non-empty, rejects the
    invocation: it raises LogicalError before the metadata snapshot is read,
    and the state is left as it was. *)
Theorem recoverLostReplica_new_replica_not_empty this max_log_ptr (w : World K) :
  tables w ≠ ∅ →
  recoverLostReplica this 0 max_log_ptr w = (Throws LOGICAL_ERROR, w).
Proof.
  intros Hne. unfold recoverLostReplica, bind at 1, empty.
  rewrite (bool_decide_eq_false_2 _ Hne). reflexivity.
Qed.

(** ** Calls that leave the local state alone *)

Lemma coordination_only_refl (w : World K) : coordination_only w w.
Proof. by repeat split. Qed.

Lemma coordination_only_trans (w1 w2 w3 : World K) :
  coordination_only w1 w2 → coordination_only w2 w3 → coordination_only w1 w3.
Proof. unfold coordination_only. intros (?&?&?&?&?) (?&?&?&?&?). repeat split; congruence. Qed.

Lemma frames_zookeeper c : frames (zookeeper c).
Proof.
  intros w. unfold zookeeper. destruct (zk_answer c (zk w)) as [r s].
  repeat split. cbn. unfold local_calls. rewrite omap_app. cbn. by rewrite app_nil_r.
Qed.

Lemma frames_ret {A} (a : A) : frames (@ret K A a).
Proof. intros w. apply coordination_only_refl. Qed.

Lemma frames_throw {A} e : frames (@throw K A e).
Proof. intros w. apply coordination_only_refl. Qed.

Lemma frames_lift {A} (o : outcome A) : frames (@lift K A o).
Proof. intros w. apply coordination_only_refl. Qed.

Lemma frames_bind {A B} (m : M K A) (k : A → M K B) :
  frames m → (∀ a, frames (k a)) → frames (bind m k).
Proof.
  intros Hm Hk w. unfold bind. specialize (Hm w).
  destruct (m w) as [[a|e|u] w1]; [|done..].
  eapply coordination_only_trans; [exact Hm|apply Hk].
Qed.

Lemma frames_mapM {A B} (f : A → M K B) l : (∀ a, frames (f a)) → frames (mapM f l).
Proof.
  intros Hf. induction l as [|x l IH]; [apply frames_ret|].
  cbn [mapM]. apply frames_bind; [apply Hf|intros y].
  apply frames_bind; [exact IH|intros ys]. apply frames_ret.
Qed.

Lemma frames_snapshot_pass this max_log_ptr : frames (snapshot_pass this max_log_ptr).
Proof.
  unfold snapshot_pass.
  apply frames_bind; [apply frames_zookeeper|intros [table_names stat]].
  apply frames_bind; [apply frames_mapM; intros name; exact (frames_zookeeper _)|intros futures].
  apply frames_bind; [apply frames_lift|intros snapshot].
  apply frames_bind; [apply frames_zookeeper|intros [text stat']].
  apply frames_bind; [apply frames_lift|intros new_max_log_ptr].
  repeat case_match; apply frames_ret.
Qed.

Lemma frames_snapshot_while this left iteration snapshot max_log_ptr :
  frames (snapshot_while this left iteration snapshot max_log_ptr).
Proof.
  revert iteration snapshot max_log_ptr.
  induction left as [|left IH]; intros iteration snapshot max_log_ptr; cbn [snapshot_while].
  - apply frames_ret.
  - apply frames_bind; [apply frames_snapshot_pass|intros [[snapshot' max'] break]].
    destruct break; [apply frames_ret|apply IH].
Qed.

Lemma frames_tryGetConsistentMetadataSnapshot this max_log_ptr :
  frames (tryGetConsistentMetadataSnapshot this max_log_ptr).
Proof.
  unfold tryGetConsistentMetadataSnapshot.
  apply frames_bind; [apply frames_snapshot_while|intros [[snapshot max'] iteration]].
  case_match; [apply frames_throw|apply frames_ret].
Qed.

(** The scan of the local tables reads the state and counts every table. *)
Lemma recover_scan_pure snapshot names detach0 total0 (w : World K) r w' :
  0 ≤ total0 < size_t_modulus →
  recover_scan snapshot names detach0 total0 w = (r, w') →
  w' = w
  ∧ ∀ detach total, r = Returns (detach, total) →
      total = (total0 + Z.of_nat (length names)) mod size_t_modulus
      ∧ (length detach ≤ length detach0 + length names)%nat.
Proof.
  revert detach0 total0.
  induction names as [|name names IH]; intros detach0 total0 Htotal; cbn [recover_scan].
  - unfold ret. intros [= <- <-]. split; [done|]. intros detach total [= <- <-].
    cbn [length]. rewrite Z.add_0_r, Z.mod_small by done. split; [done|lia].
  - unfold bind at 1, readMetadataFile.
    destruct (tables w !! name) as [t|]; [|intros [= <- <-]; by split].
    unfold bind at 1, lift.
    destruct (should_detach snapshot name (metadata_file t)) as [d|e|u];
      [|intros [= <- <-]; by split..].
    intros Hscan. apply IH in Hscan as [-> Hscan].
    2:{ unfold size_t_succ. apply Z.mod_pos_bound. done. }
    split; [done|]. intros detach total Hr.
    destruct (Hscan detach total Hr) as [-> Hlen]. split.
    + unfold size_t_succ. cbn [length]. rewrite Zplus_mod_idemp_l. f_equal. lia.
    + destruct d; cbn [length] in *; rewrite ?length_app in Hlen; cbn [length] in *; lia.
Qed.

Lemma length_map_items {V} (m : gmap string V) : length (map_items m) = size m.
Proof.
  unfold map_items. rewrite <-length_map_to_list.
  apply Permutation_length, merge_sort_Permutation.
Qed.

(** The detach set of the scan: the names for which the body of the loop
    answers [true], in the order of the iteration. *)
Lemma recover_scan_marks snapshot names detach0 total0 (w : World K) detach total w' :
  recover_scan snapshot names detach0 total0 w = (Returns (detach, total), w') →
  ∃ marked, detach = detach0 ++ marked
    ∧ ∀ name, name ∈ marked ↔
        name ∈ names
        ∧ ∃ t, tables w !! name = Some t
               ∧ should_detach snapshot name (metadata_file t) = Returns true.
Proof.
  revert detach0 total0.
  induction names as [|name names IH]; intros detach0 total0; cbn [recover_scan].
  - unfold ret. intros [= <- <- <-]. exists []. rewrite app_nil_r. split; [done|].
    intros name. split; [by intros ?%elem_of_nil|by intros [?%elem_of_nil _]].
  - unfold bind at 1, readMetadataFile.
    destruct (tables w !! name) as [t|] eqn:Ht; [|done].
    unfold bind at 1, lift.
    destruct (should_detach snapshot name (metadata_file t)) as [d|e|u] eqn:Hd; [|done..].
    intros Hscan. apply IH in Hscan as (marked & -> & Hmarked).
    destruct d.
    + exists (name :: marked). rewrite <-app_assoc. split; [done|].
      intros name0. rewrite !elem_of_cons, Hmarked. split.
      * intros [->|[? ?]]; [|by auto]. split; [by left|]. by exists t.
      * intros [[->|?] ?]; by auto.
    + exists marked. split; [done|].
      intros name0. rewrite elem_of_cons, Hmarked. split.
      * intros [? ?]. by auto.
      * intros [[->|?] Hname]; [|by auto].
        destruct Hname as (t' & Ht' & Hd'). congruence.
Qed.

(** The scan returns as soon as the body of the loop does for every table. *)
Lemma recover_scan_returns snapshot names detach0 total0 (w : World K) :
  (∀ name, name ∈ names →
     ∃ t d, tables w !! name = Some t
            ∧ should_detach snapshot name (metadata_file t) = Returns d) →
  ∃ detach total, recover_scan snapshot names detach0 total0 w = (Returns (detach, total), w).
Proof.
  revert detach0 total0.
  induction names as [|name names IH]; intros detach0 total0 Hbody; cbn [recover_scan].
  - by eexists _, _.
  - destruct (Hbody name) as (t & d & Ht & Hd); [by left|].
    unfold bind at 1, readMetadataFile. rewrite Ht.
    unfold bind at 1, lift. rewrite Hd.
    apply IH. intros name' Hin. apply Hbody. by right.
Qed.

(** ** C2: the safety valve *)

Lemma elem_of_map_items {V} (m : gmap string V) k v : (k, v) ∈ map_items m ↔ m !! k = Some v.
Proof.
  unfold map_items. rewrite merge_sort_Permutation. apply elem_of_map_to_list.
Qed.

(** When the body of the loop decides every table, the scan returns the
    tables it marks, in the order of the iteration. *)
Lemma recover_scan_decided snapshot (marked : string → bool) names detach0 total0
    (w : World K) :
  (∀ name, name ∈ names →
     ∃ t, tables w !! name = Some t
          ∧ should_detach snapshot name (metadata_file t) = Returns (marked name)) →
  ∃ total,
    recover_scan snapshot names detach0 total0 w
    = (Returns (detach0 ++ filter (λ name, marked name = true) names, total), w).
Proof.
  revert detach0 total0.
  induction names as [|name names IH]; intros detach0 total0 Hbody; cbn [recover_scan].
  - exists total0. by rewrite filter_nil, app_nil_r.
  - destruct (Hbody name) as (t & Ht & Hd); [by left|].
    unfold bind at 1, readMetadataFile. rewrite Ht.
    unfold bind at 1, lift. rewrite Hd.
    destruct (IH (if marked name then detach0 ++ [name] else detach0) (size_t_succ total0))
      as [total Hscan].
    { intros name' Hin. apply Hbody. by right. }
    exists total. rewrite Hscan. rewrite filter_cons.
    destruct (marked name); [|by rewrite decide_False by done].
    by rewrite decide_True, <-app_assoc by done.
Qed.

Lemma length_filter_fst {V} (P : string → Prop) `{!∀ name, Decision (P name)}
    (l : list (string * V)) :
  length (filter P l.*1) = length (filter (λ entry, P entry.1) l).
Proof.
  induction l as [|entry l IH]; [done|].
  cbn [fmap list_fmap]. rewrite !filter_cons.
  destruct (decide (P entry.1)); cbn [length]; by rewrite IH.
Qed.

(** The number of names that [P] holds of, among those of the iteration. *)
Lemma length_filter_map_items {V} (P : string → Prop) `{!∀ name, Decision (P name)}
    (m : gmap string V) :
  length (filter P (map_items m).*1) = size (filter (λ entry, P entry.1) m).
Proof.
  rewrite length_filter_fst. unfold map_items.
  rewrite (merge_sort_Permutation Str.key_le (map_to_list m)).
  rewrite map_filter_alt, <-length_map_to_list.
  symmetry. apply Permutation_length, map_to_list_to_map.
  apply (sublist_NoDup _ (map_to_list m).*1); [apply NoDup_fst_map_to_list|].
  apply fmap_sublist, sublist_filter.
Qed.

(** C2.  recoverLostReplica, invoked with a non-zero local log pointer,
    raises ReplicationFailed and leaves the local state as it was whenever it
    obtains the consistent snapshot, the reconciliation decides every local
    table (the table is named in the snapshot and no parser exception is
    raised when the two texts are compared), and the number T of local tables
    and the number D of tables marked for detach satisfy T < 2·D: no table is
    dropped, renamed or detached and no shadow database is created (no call to
    the local catalog or the query pipeline is made, and the tables and
    databases are unchanged). *)
Theorem recovery_safety_valve
    this our_log_ptr max_log_ptr (w : World K) snapshot max_log_ptr' w1
    (marked : string → bool) :
  our_log_ptr ≠ 0 →
  tryGetConsistentMetadataSnapshot this max_log_ptr w = (Returns (snapshot, max_log_ptr'), w1) →
  (∀ name t, tables w !! name = Some t →
     should_detach snapshot name (metadata_file t) = Returns (marked name)) →
  Z.of_nat (size (tables w))
    < 2 * Z.of_nat (size (filter (λ entry, marked entry.1 = true) (tables w))) →
  Z.of_nat (size (tables w)) < 2 ^ 63 →
  recoverLostReplica this our_log_ptr max_log_ptr w = (Throws DATABASE_REPLICATION_FAILED, w1)
  ∧ tables w1 = tables w ∧ databases w1 = databases w
  ∧ local_calls (trace w1) = local_calls (trace w).
Proof.
  intros Hour Hsnapshot Hdecided Hvalve Hbound.
  pose proof (frames_tryGetConsistentMetadataSnapshot this max_log_ptr w) as Hframe.
  rewrite Hsnapshot in Hframe. destruct Hframe as (Htables & Hdbs & _ & _ & Hcalls).
  cbn [snd] in *.
  destruct (recover_scan_decided snapshot marked (map_items (tables w1)).*1 [] 0 w1)
    as [total Hscan].
  { intros name [[name' t] [-> Hin]]%list_elem_of_fmap. cbn [fst].
    apply elem_of_map_items in Hin. exists t. split; [done|].
    apply Hdecided. by rewrite <-Htables. }
  cbn [app] in Hscan.
  pose proof Hscan as Hpure.
  apply recover_scan_pure in Hpure as [_ Hpure]; [|by compute].
  destruct (Hpure _ _ eq_refl) as [Htotal _].
  rewrite length_fmap, length_map_items, Htables in Htotal.
  assert (total = Z.of_nat (size (tables w))) as ->.
  { rewrite Htotal, Z.add_0_l. apply Z.mod_small. unfold size_t_modulus. lia. }
  split; [|done].
  unfold recoverLostReplica, bind at 1, empty.
  rewrite (bool_decide_eq_false_2 (our_log_ptr = 0)) by done. cbn [andb].
  rewrite (bind_returns _ _ _ _ _ Hsnapshot).
  unfold bind at 1, getTablesIterator.
  rewrite (bind_returns _ _ _ _ _ Hscan).
  rewrite bool_decide_eq_true_2; [reflexivity|].
  unfold size_t_mul, vector_size, size_t_modulus.
  rewrite length_filter_map_items, Htables.
  pose proof (map_size_filter (λ entry : string * Table, marked entry.1 = true) (tables w)).
  rewrite (Z.mod_small (Z.of_nat (size (filter _ (tables w))))) by lia.
  rewrite Z.mod_small by lia. lia.
Qed.

(** ** C9: dropped replicas and the cluster view *)

Lemma concat_back_emplace_back host (groups : list (list string)) :
  groups ≠ [] →
  concat (back_emplace_back host groups) = concat groups ++ [host]
  ∧ back_emplace_back host groups ≠ [].
Proof.
  intros Hne. destruct (decide (groups = [])) as [|_]; [done|].
  destruct groups as [|g groups _] using rev_ind; [done|].
  unfold back_emplace_back. rewrite length_app. cbn [length].
  replace (Nat.pred (length groups + 1)) with (length groups + 0)%nat by lia.
  rewrite alter_app_r. cbn. rewrite !concat_app. cbn. rewrite !app_nil_r, app_assoc.
  split; [done|]. by destruct groups.
Qed.

Lemma visible_hosts_cons host hosts id host_ids :
  visible_hosts (host :: hosts) (id :: host_ids)
  = (if bool_decide (id = DROPPED_MARK) then []
     else [unescapeForFileName (Str.substr_to (Str.find ":" 0 id) id)])
    ++ visible_hosts hosts host_ids.
Proof. unfold visible_hosts. cbn. by destruct (bool_decide (id = DROPPED_MARK)). Qed.

Lemma getCluster_group_visible i rest host_ids current_shard groups groups' :
  groups ≠ [] →
  getCluster_group i rest host_ids current_shard groups = Returns groups' →
  concat groups' = concat groups ++ visible_hosts rest (skipn i host_ids).
Proof.
  revert i current_shard groups.
  induction rest as [|host rest IH]; intros i current_shard groups Hne; cbn [getCluster_group].
  - intros [= <-]. unfold visible_hosts. cbn. by rewrite app_nil_r.
  - destruct (host_ids !! i) as [id|] eqn:Hid; [|done].
    rewrite (drop_S _ _ _ Hid), visible_hosts_cons.
    destruct (bool_decide (id = DROPPED_MARK)).
    + intros Hgroup. by apply IH in Hgroup.
    + destruct (parseFullReplicaName host) as [[shard replica]|e|u]; [|done..].
      cbn [obind].
      destruct (bool_decide (shard ≠ current_shard)).
      * destruct (back_is_empty groups); cbn [negb].
        -- intros Hgroup.
           destruct (concat_back_emplace_back
                       (unescapeForFileName (Str.substr_to (Str.find ":" 0 id) id))
                       groups Hne) as [Hconcat Hne'].
           apply IH in Hgroup; [|done]. rewrite Hgroup, Hconcat. by rewrite <-app_assoc.
        -- intros Hgroup.
           assert (groups ++ [[]] ≠ []) as Hne1 by (by destruct groups).
           destruct (concat_back_emplace_back
                       (unescapeForFileName (Str.substr_to (Str.find ":" 0 id) id))
                       (groups ++ [[]]) Hne1) as [Hconcat Hne'].
           apply IH in Hgroup; [|done]. rewrite Hgroup, Hconcat.
           rewrite concat_app. cbn. by rewrite !app_nil_r, <-app_assoc.
      * intros Hgroup.
        destruct (concat_back_emplace_back
                    (unescapeForFileName (Str.substr_to (Str.find ":" 0 id) id))
                    groups Hne) as [Hconcat Hne'].
        apply IH in Hgroup; [|done]. rewrite Hgroup, Hconcat. by rewrite <-app_assoc.
Qed.

(** The host ids of a pass are the data of the responses held by the
    futures, one per listed host. *)
Lemma getCluster_collect_data futures success host_ids success' host_ids' :
  getCluster_collect futures success host_ids = Returns (success', host_ids') →
  ∃ responses, futures = Returns <$> responses
               ∧ host_ids' = host_ids ++ (data <$> responses).
Proof.
  revert success host_ids.
  induction futures as [|future futures IH]; intros success host_ids; cbn [getCluster_collect].
  - intros [= <- <-]. exists []. by rewrite app_nil_r.
  - destruct future as [res|e|u]; [|done..]. cbn [obind].
    intros (responses & -> & ->)%IH. exists (res :: responses).
    split; [done|]. by rewrite <-app_assoc.
Qed.

Lemma getCluster_pass_reads this (w : World K) hosts host_ids success break w' :
  getCluster_pass this w = (Returns (hosts, host_ids, success, break), w') →
  replica_values_read this hosts host_ids.
Proof.
  unfold getCluster_pass. intros Hpass.
  apply bind_inv in Hpass as ([children stat] & w1 & _ & Hpass).
  destruct (bool_decide (children = [])); [done|].
  apply bind_inv in Hpass as (futures & w2 & Hfutures & Hpass).
  apply bind_inv in Hpass as ([success0 host_ids0] & w3 & Hcollect & Hpass).
  apply bind_inv in Hpass as ([text stat'] & w4 & _ & Hpass).
  apply pair_equal_spec in Hpass as [[= <- <- <- <-] <-].
  apply pair_equal_spec in Hcollect as [Hcollect <-].
  apply getCluster_collect_data in Hcollect as (responses & -> & ->).
  by exists w1, w2, responses.
Qed.

Lemma getCluster_while_reads this left hosts0 host_ids0 success0 (w : World K)
    hosts host_ids success w' :
  left ≠ 0%nat →
  getCluster_while this left hosts0 host_ids0 success0 w
    = (Returns (hosts, host_ids, success), w') →
  replica_values_read this hosts host_ids.
Proof.
  revert hosts0 host_ids0 success0 w.
  induction left as [|left IH]; intros hosts0 host_ids0 success0 w Hleft; [done|].
  cbn [getCluster_while]. intros Hwhile.
  apply bind_inv in Hwhile as ([[[hosts1 host_ids1] success1] break] & w1 & Hpass & Hwhile).
  destruct break.
  - apply pair_equal_spec in Hwhile as [[= <- <- <-] <-].
    by eapply getCluster_pass_reads.
  - destruct left as [|left].
    + apply pair_equal_spec in Hwhile as [[= <- <- <-] <-].
      by eapply getCluster_pass_reads.
    + by eapply IH.
Qed.

(** C9.  Whatever the coordination service answers, the hosts of a cluster
    returned by getCluster are exactly those of the listed replicas whose
    node value is not the DROPPED mark: a replica whose node holds DROPPED
    contributes no host.  And the first thing drop() does is to write the
    DROPPED mark into the replica node, in the state of the service it finds.
    If that write does not return, drop ends with its outcome: nothing is
    removed, locally or in the service.  If it returns, the removals follow,
    each asked of the service in the state the call before left: the local
    database is dropped, the replica node is removed recursively, the removal
    of /replicas is tried and, when it answers ZOK, the root is removed
    recursively; drop ends with the first of these calls that does not
    return. *)
Theorem dropped_replica_invisible this (w : World K) :
  (∀ cluster w', getCluster this w = (Returns cluster, w') →
     ∃ hosts host_ids,
       getCluster_while this (Z.to_nat max_retries) [] [] false w
         = (Returns (hosts, host_ids, true), w')
       ∧ replica_values_read this hosts host_ids
       ∧ concat (shards cluster) = visible_hosts hosts host_ids)
  ∧ (let mark := zk_set (replica_path this) DROPPED_MARK in
     let remove_replica := zk_tryRemoveRecursive (replica_path this) in
     let remove_replicas := zk_tryRemove (zookeeper_path this +:+ "/replicas") in
     let remove_root := zk_tryRemoveRecursive (zookeeper_path this) in
     let marked := zk_answer mark (zk w) in
     let replica_removed := zk_answer remove_replica marked.2 in
     let replicas_removed := zk_answer remove_replicas replica_removed.2 in
     let root_removed := zk_answer remove_root replicas_removed.2 in
     (marked.1 ≠ Returns () →
      drop this w = (marked.1, after w marked.2 [Zk mark] (tables w)))
     ∧ (marked.1 = Returns () → replica_removed.1 ≠ Returns () →
        drop this w
        = (replica_removed.1,
           after w replica_removed.2
             [Zk mark; Local DatabaseAtomic_drop; Zk remove_replica] ∅))
     ∧ (marked.1 = Returns () → replica_removed.1 = Returns () →
        replicas_removed.1 ≠ Returns ZOK →
        drop this w
        = (match replicas_removed.1 with
           | Returns _ => Returns ()
           | Throws e => Throws e
           | Undefined u => Undefined u
           end,
           after w replicas_removed.2
             [Zk mark; Local DatabaseAtomic_drop; Zk remove_replica; Zk remove_replicas] ∅))
     ∧ (marked.1 = Returns () → replica_removed.1 = Returns () →
        replicas_removed.1 = Returns ZOK →
        drop this w
        = (root_removed.1,
           after w root_removed.2
             [Zk mark; Local DatabaseAtomic_drop; Zk remove_replica; Zk remove_replicas;
              Zk remove_root] ∅))).
Proof.
  split.
  - intros cluster w' Hcluster. unfold getCluster in Hcluster.
    apply bind_inv in Hcluster as ([[hosts host_ids] success] & w1 & Hwhile & Hcluster).
    destruct success; cbn [negb] in Hcluster; [|done].
    destruct hosts as [|front hosts]; [done|].
    apply bind_inv in Hcluster as ([current_shard ?] & w2 & Hfront & Hcluster).
    apply bind_inv in Hcluster as (groups & w3 & Hgroup & Hcluster).
    unfold lift in Hfront, Hgroup. unfold ret in Hcluster.
    apply pair_equal_spec in Hfront as [_ <-]. apply pair_equal_spec in Hgroup as [Hgroup <-].
    apply pair_equal_spec in Hcluster as [[= <-] <-].
    exists (front :: hosts), host_ids. split; [done|].
    split; [eapply getCluster_while_reads; [|exact Hwhile]; by compute|].
    apply getCluster_group_visible in Hgroup; [|done].
    cbn [shards]. by rewrite Hgroup.
  - cbv zeta.
    unfold drop, bind, zookeeper, DatabaseAtomic_drop_all, bind, record_local, put_tables,
      ret, after.
    cbn [zk trace tables databases txn rng_draws].
    destruct (zk_answer (zk_set (replica_path this) DROPPED_MARK) (zk w))
      as [[[]|e|u] s1]; cbn [fst snd];
      [|by repeat split..].
    cbn [zk trace tables databases txn rng_draws].
    destruct (zk_answer (zk_tryRemoveRecursive (replica_path this)) s1)
      as [[[]|e|u] s2]; cbn [fst snd];
      [|rewrite <-!app_assoc; by repeat split..].
    cbn [zk trace tables databases txn rng_draws].
    destruct (zk_answer (zk_tryRemove (zookeeper_path this +:+ "/replicas")) s2)
      as [[code|e|u] s3]; cbn [fst snd];
      [|rewrite <-!app_assoc; by repeat split..].
    destruct (decide (code = ZOK)) as [->|Hcode].
    + cbn [zk trace tables databases txn rng_draws].
      destruct (zk_answer (zk_tryRemoveRecursive (zookeeper_path this)) s3) as [r4 s4].
      cbn [fst snd]. rewrite <-!app_assoc. by repeat split.
    + rewrite <-!app_assoc. repeat split; try done.
      intros _ _ [= Heq]. by destruct Hcode.
Qed.

End Properties.

(** * Examples on recorded sessions *)

(** C10: the path "a//" passes the validation of the constructor and is
    stored as "/a/", which ends with '/'. *)
Lemma stored_path_keeps_second_slash :
  "a//" ≠ ""
  ∧ normalize_zookeeper_path "a//" = Returns "/a/"
  ∧ Str.back "/a/" = Some slash
  ∧ (DatabaseReplicated_new "db1" 7 "a//" "s1" "r1" Sample.context
       (Sample.world [answer_bool true; answer_tryGet (Some "host1:9000:7")] ∅)).1
    = Returns (Sample.db "/a/").
Proof. repeat split; [done|..]; vm_compute; reflexivity. Qed.

Lemma stored_zookeeper_path_normalized_witness :
  ∃ q, normalize_zookeeper_path "clickhouse/db/" = Returns q
       ∧ Str.front q = Some slash ∧ Str.back q ≠ Some slash
       ∧ ∀ name_ id shard replica ctx (w : World (list Answer)) this w',
           DatabaseReplicated_new name_ id "clickhouse/db/" shard replica ctx w
             = (Returns this, w') →
           zookeeper_path this = q.
Proof.
  apply (stored_zookeeper_path_normalized "clickhouse/db/");
    [discriminate|discriminate|reflexivity].
Defined.

(** C5: the same replica name, once with our host-id and once with the
    host-id of another host. *)
Lemma existing_replica_node_witness :
  DatabaseReplicated_new "db1" 7 "/ch/db" "s1" "r1" Sample.context
    (Sample.world [answer_bool true; answer_tryGet (Some "host1:9000:7")] ∅)
  = (Returns (Sample.db "/ch/db"),
     mkWorld [] [Zk (zk_exists "/ch/db"); Zk (zk_tryGet "/ch/db/replicas/s1|r1")] ∅ ∅ None 0)
  ∧ DatabaseReplicated_new "db1" 7 "/ch/db" "s1" "r1" Sample.context
      (Sample.world [answer_bool true; answer_tryGet (Some "host2:9000:9")] ∅)
    = (Throws REPLICA_IS_ALREADY_EXIST,
       mkWorld [] [Zk (zk_exists "/ch/db"); Zk (zk_tryGet "/ch/db/replicas/s1|r1")] ∅ ∅ None 0).
Proof.
  split.
  - refine (proj1 (proj2 (existing_replica_node_resumes_or_refuses
      "db1" 7 "/ch/db" "s1" "r1" Sample.context
      (Sample.world [answer_bool true; answer_tryGet (Some "host1:9000:7")] ∅)
      (Sample.db "/ch/db")
      (mkWorld [answer_tryGet (Some "host1:9000:7")] [Zk (zk_exists "/ch/db")] ∅ ∅ None 0)
      "host1:9000:7" [] _ _)) _); vm_compute; reflexivity.
  - refine (proj2 (proj2 (existing_replica_node_resumes_or_refuses
      "db1" 7 "/ch/db" "s1" "r1" Sample.context
      (Sample.world [answer_bool true; answer_tryGet (Some "host2:9000:9")] ∅)
      (Sample.db "/ch/db")
      (mkWorld [answer_tryGet (Some "host2:9000:9")] [Zk (zk_exists "/ch/db")] ∅ ∅ None 0)
      "host2:9000:9" [] _ _)) _); [vm_compute; reflexivity..|discriminate].
Defined.

(** C4: the child of counter is created with the Persistent mode, and no
    request of the multi-op is ephemeral-sequential. *)
Lemma bootstrap_counter_child_is_persistent :
  createDatabaseNodes_ops "/clickhouse/db" !! 4%nat
    = Some (makeCreateRequest "/clickhouse/db/counter/cnt-" "" Persistent)
  ∧ ∀ path data,
      makeCreateRequest path data EphemeralSequential ∉ createDatabaseNodes_ops "/clickhouse/db".
Proof.
  split; [reflexivity|]. intros path data Hin.
  unfold createDatabaseNodes_ops in Hin.
  repeat (apply elem_of_cons in Hin as [Hin|Hin]; [discriminate|]).
  by apply elem_of_nil in Hin.
Qed.

Lemma createDatabaseNodesInZooKeeper_witness :
  createDatabaseNodesInZooKeeper "/ch/db"
    (Sample.world [answer_done; answer_code ZNODEEXISTS] ∅)
  = (Returns false,
     mkWorld [] [Zk (zk_createAncestors "/ch/db");
                 Zk (zk_tryMulti (createDatabaseNodes_ops "/ch/db"))] ∅ ∅ None 0)
  ∧ (createDatabaseNodesInZooKeeper "/ch/db"
       (Sample.world [answer_done; answer_code ZBADVERSION] ∅)).1
    = Throws (KEEPER_EXCEPTION ZBADVERSION).
Proof.
  split.
  - refine (proj2 (createDatabaseNodesInZooKeeper_spec "/ch/db"
      (Sample.world [answer_done; answer_code ZNODEEXISTS] ∅)
      [answer_code ZNODEEXISTS] (Returns ZNODEEXISTS) [] _ _)); reflexivity.
  - refine (f_equal fst (proj2 (createDatabaseNodesInZooKeeper_spec "/ch/db"
      (Sample.world [answer_done; answer_code ZBADVERSION] ∅)
      [answer_code ZBADVERSION] (Returns ZBADVERSION) [] _ _))); reflexivity.
Defined.

(** C7: the four refusals on a catalog that holds the table t only. *)
Lemma renameTable_preconditions_witness :
  let t := {| is_initial_query := true; txn_zookeeper_path := "/ch/db"; ops := [] |} in
  let w : World (list Answer) :=
    mkWorld [] [] {["t" := Sample.stored Sample.local_Log 2]} ∅ (Some t) 0 in
  renameTable (Sample.db "/ch/db") "t" "db2" "u" false false w = (Throws NOT_IMPLEMENTED, w)
  ∧ renameTable (Sample.db "/ch/db") "t" "db1" "t" false false w = (Throws INCORRECT_QUERY, w)
  ∧ renameTable (Sample.db "/ch/db") "v" "db1" "u" false false w = (Throws UNKNOWN_TABLE, w)
  ∧ renameTable (Sample.db "/ch/db") "t" "db1" "u" true false w = (Throws UNKNOWN_TABLE, w).
Proof.
  intros t w.
  pose proof (λ name to_db to_name exchange,
    renameTable_preconditions (Sample.db "/ch/db") name to_db to_name exchange false w t
      eq_refl eq_refl) as Hrename.
  split; [|split; [|split]].
  - apply (proj1 (Hrename "t" "db2" "u" false)). discriminate.
  - by apply (proj1 (proj2 (Hrename "t" "db1" "t" false))).
  - by apply (proj1 (proj2 (proj2 (Hrename "v" "db1" "u" false)))).
  - apply (proj2 (proj2 (proj2 (Hrename "t" "db1" "u" true))));
      [done|done|by eexists|done|done].
Defined.

(** C8: a text that is no statement makes the parser throw, and its
    exception is not LogicalError. *)
Lemma unparsable_metadata_is_a_syntax_error :
  parseQuery "" = Throws SYNTAX_ERROR
  ∧ parseQueryFromMetadataInZooKeeper (Sample.db "/ch/db") "t" "" = Throws SYNTAX_ERROR
  ∧ parseQueryFromMetadataInZooKeeper (Sample.db "/ch/db") "t" "" ≠ Throws LOGICAL_ERROR.
Proof. repeat split; [vm_compute; reflexivity..|discriminate]. Qed.

Lemma parseQueryFromMetadataInZooKeeper_witness :
  parseQueryFromMetadataInZooKeeper (Sample.db "/ch/db") "t" Sample.with_database
    = Throws LOGICAL_ERROR
  ∧ parseQueryFromMetadataInZooKeeper (Sample.db "/ch/db") "t" Sample.zk_Log
    = Returns {| database := "db1"; table := "t"; uuid := 2; attach := false;
                 storage_engine := "Log"; definition := "(`x` Int32, `y` Int32)" |}
  ∧ parseQueryFromMetadataInZooKeeper (Sample.db "/ch/db") "t" "SELECT 1" = Throws SYNTAX_ERROR.
Proof.
  split; [|split].
  - refine (proj1 (proj2 (parseQueryFromMetadataInZooKeeper_spec
      (Sample.db "/ch/db") "t" Sample.with_database)
      (Sample.statement "db1" "t" 2 "Log" "(`x` Int32)") _) _);
      [vm_compute; reflexivity|right; right; discriminate].
  - refine (proj2 (proj2 (parseQueryFromMetadataInZooKeeper_spec
      (Sample.db "/ch/db") "t" Sample.zk_Log)
      (Sample.statement "" "_" 2 "Log" "(`x` Int32, `y` Int32)") _) _ _ _);
      [vm_compute; reflexivity|discriminate|reflexivity|reflexivity].
  - refine (proj1 (parseQueryFromMetadataInZooKeeper_spec
      (Sample.db "/ch/db") "t" "SELECT 1") SYNTAX_ERROR _); vm_compute; reflexivity.
Defined.

(** C1: the local statement of t has the MergeTree engine and the snapshot
    statement the ReplicatedMergeTree engine with the same UUID; the texts
    differ and the local side is not of the ReplicatedMergeTree class, so the
    rule of the specification marks t, yet the scan keeps it. *)
Lemma local_MergeTree_kept_against_ReplicatedMergeTree :
  let snapshot : gmap string string := {["t" := Sample.zk_ReplicatedMergeTree]} in
  Sample.local_MergeTree ≠ Sample.zk_ReplicatedMergeTree
  ∧ parseQuery Sample.local_MergeTree
    = Returns (Sample.statement "" "_" 1 "MergeTree" "(`x` Int32) ORDER BY x")
  ∧ is_ReplicatedMergeTree_class "MergeTree" = false
  ∧ spec_marks_for_detach snapshot "t" Sample.local_MergeTree = true
  ∧ should_detach snapshot "t" Sample.local_MergeTree = Returns false
  ∧ (recover_scan snapshot ["t"] [] 0
       (Sample.world [] {["t" := Sample.stored Sample.local_MergeTree 1]})).1
    = Returns ([], 1).
Proof. intros snapshot. repeat split; [discriminate|vm_compute; reflexivity..]. Qed.

Lemma reconciliation_of_present_table_witness :
  should_detach {["t" := Sample.zk_Log]} "t" Sample.zk_Log = Returns false
  ∧ should_detach {["t" := Sample.zk_Log]} "t" Sample.local_Log = Returns true
  ∧ should_detach {["t" := Sample.zk_ReplicatedMergeTree]} "t" Sample.local_MergeTree
    = Returns false
  ∧ should_detach {["t" := Sample.zk_ReplicatedMergeTree_other]} "t" Sample.local_MergeTree
    = Returns true.
Proof.
  split; [|split; [|split]].
  - refine (proj1 (reconciliation_of_present_table {["t" := Sample.zk_Log]} "t"
      Sample.zk_Log Sample.zk_Log _) _); [vm_compute; reflexivity|reflexivity].
  - refine (proj1 (proj2 (reconciliation_of_present_table {["t" := Sample.zk_Log]} "t"
      Sample.local_Log Sample.zk_Log _)) _ _);
      [vm_compute; reflexivity|discriminate|vm_compute; reflexivity].
  - refine (proj1 (proj2 (proj2 (reconciliation_of_present_table
      {["t" := Sample.zk_ReplicatedMergeTree]} "t"
      Sample.local_MergeTree Sample.zk_ReplicatedMergeTree _)) _ _
      (Sample.statement "" "_" 1 "MergeTree" "(`x` Int32) ORDER BY x")
      (Sample.statement "" "_" 1 "ReplicatedMergeTree" "(`x` Int32) ORDER BY x") _ _) _);
      [vm_compute; reflexivity|discriminate|vm_compute; reflexivity..].
  - refine (proj2 (proj2 (proj2 (reconciliation_of_present_table
      {["t" := Sample.zk_ReplicatedMergeTree_other]} "t"
      Sample.local_MergeTree Sample.zk_ReplicatedMergeTree_other _)) _ _
      (Sample.statement "" "_" 1 "MergeTree" "(`x` Int32) ORDER BY x")
      (Sample.statement "" "_" 3 "ReplicatedMergeTree" "(`x` Int32) ORDER BY x") _ _) _);
      [vm_compute; reflexivity|discriminate|vm_compute; reflexivity..|discriminate].
Defined.

(** C2: one local table whose definition in the snapshot is another one, so
    that T = 1 and D = 1 (as the scan computes them on the snapshot the
    service holds), yet with a local log pointer of 0 the guard of lines
    302-309 refuses first, with LogicalError.  With a snapshot text that names
    ReplicatedMergeTree and is no statement, the exception of the parser comes
    out of the scan.  And for a table that /metadata does not name the scan
    reads through the end iterator (line 324) before the valve is reached. *)
Lemma recovery_refused_without_ReplicationFailed :
  let this := Sample.db "/ch/db" in
  let local : gmap string Table := {["t" := Sample.stored Sample.local_Log 2]} in
  let reading (text : string) :=
    [ answer_children ["t"] {| version := 0; cversion := 1 |};
      Sample.ok text;
      answer_get "5" {| version := 0; cversion := 0 |} ] in
  let w := Sample.world (reading Sample.zk_Log) local in
  let w1 : World (list Answer) :=
    mkWorld [] [Zk (zk_getChildren "/ch/db/metadata");
                Zk (zk_asyncTryGet "/ch/db/metadata/t");
                Zk (zk_get "/ch/db/max_log_ptr")] local ∅ None 0 in
  let unparsable := "ENGINE = ReplicatedMergeTree" in
  let unnamed :=
    Sample.world [ answer_children [] {| version := 0; cversion := 0 |};
                   answer_get "5" {| version := 0; cversion := 0 |} ] local in
  (tryGetConsistentMetadataSnapshot this 5 w = (Returns ({["t" := Sample.zk_Log]}, 5), w1)
   ∧ recover_scan {["t" := Sample.zk_Log]} ["t"] [] 0 w1 = (Returns (["t"], 1), w1)
   ∧ Z.of_nat (size local) < 2 * Z.of_nat (length ["t"])
   ∧ recoverLostReplica this 0 5 w = (Throws LOGICAL_ERROR, w))
  ∧ (spec_marks_for_detach {["t" := unparsable]} "t" Sample.local_Log = true
     ∧ (recoverLostReplica this 3 5 (Sample.world (reading unparsable) local)).1
       = Throws SYNTAX_ERROR)
  ∧ (spec_marks_for_detach ∅ "t" Sample.local_Log = true
     ∧ (recoverLostReplica this 3 5 unnamed).1 = Undefined DerefEndIterator).
Proof. repeat split; vm_compute; reflexivity. Qed.

(** C2: three local tables, of which the snapshot holds another definition
    for a and for b and the same definition for c: T = 3 and D = 2. *)
Lemma recovery_safety_valve_witness :
  let session :=
    [ answer_children ["a"; "b"; "c"] {| version := 0; cversion := 3 |};
      Sample.ok Sample.zk_Log;
      Sample.ok Sample.zk_Log;
      Sample.ok Sample.zk_Log;
      answer_get "5" {| version := 0; cversion := 0 |} ] in
  let local : gmap string Table :=
    {[ "a" := Sample.stored Sample.local_Log 2;
       "b" := Sample.stored Sample.local_MergeTree 1;
       "c" := Sample.stored Sample.zk_Log 2 ]} in
  let snapshot : gmap string string :=
    {[ "a" := Sample.zk_Log; "b" := Sample.zk_Log; "c" := Sample.zk_Log ]} in
  let w1 : World (list Answer) :=
    mkWorld [] [Zk (zk_getChildren "/ch/db/metadata");
                Zk (zk_asyncTryGet "/ch/db/metadata/a");
                Zk (zk_asyncTryGet "/ch/db/metadata/b");
                Zk (zk_asyncTryGet "/ch/db/metadata/c");
                Zk (zk_get "/ch/db/max_log_ptr")] local ∅ None 0 in
  let marked (name : string) := negb (String.eqb name "c") in
  (Z.of_nat (size local) = 3
   ∧ Z.of_nat (size (filter (λ entry, marked entry.1 = true) local)) = 2)
  ∧ recoverLostReplica (Sample.db "/ch/db") 3 5 (Sample.world session local)
    = (Throws DATABASE_REPLICATION_FAILED, w1)
  ∧ tables w1 = local ∧ databases w1 = ∅ ∧ local_calls (trace w1) = [].
Proof.
  intros session local snapshot w1 marked.
  split; [split; vm_compute; reflexivity|].
  refine (recovery_safety_valve (Sample.db "/ch/db") 3 5 (Sample.world session local)
            snapshot 5 w1 marked _ _ _ _ _).
  - discriminate.
  - vm_compute. reflexivity.
  - intros name t Hlookup. change (local !! name = Some t) in Hlookup. unfold local in Hlookup.
    apply lookup_insert_Some in Hlookup as [[<- <-]|[_ Hlookup]]; [vm_compute; reflexivity|].
    apply lookup_insert_Some in Hlookup as [[<- <-]|[_ Hlookup]]; [vm_compute; reflexivity|].
    apply lookup_singleton_Some in Hlookup as [<- <-]. vm_compute. reflexivity.
  - vm_compute. reflexivity.
  - vm_compute. reflexivity.
Defined.

(** C6: a local log pointer of 0 on a catalog that holds one table: the
    invocation is rejected, and no call to the coordination service is made. *)
Lemma new_replica_with_tables_is_rejected :
  let w := Sample.world [] {["t" := Sample.stored Sample.local_Log 2]} in
  tables w ≠ ∅
  ∧ recoverLostReplica (Sample.db "/ch/db") 0 5 w = (Throws LOGICAL_ERROR, w)
  ∧ trace w = [].
Proof.
  intros w. split; [|split; [vm_compute; reflexivity|reflexivity]].
  apply (proj1 (bool_decide_eq_false (tables w = ∅))). vm_compute. reflexivity.
Qed.

Lemma recoverLostReplica_new_replica_not_empty_witness :
  let w := Sample.world [] {["t" := Sample.stored Sample.local_Log 2;
                             "u" := Sample.stored Sample.zk_Log 2]} in
  recoverLostReplica (Sample.db "/ch/db") 0 9 w = (Throws LOGICAL_ERROR, w).
Proof.
  intros w. apply recoverLostReplica_new_replica_not_empty.
  apply (proj1 (bool_decide_eq_false (tables w = ∅))). vm_compute. reflexivity.
Defined.

(** C9: the replica s1|r1 holds the DROPPED mark and the cluster has the
    hosts of the two other replicas only.  A drop whose mark is written
    removes the local table and the replica node and leaves /replicas, which
    is not empty; a drop whose mark meets an expired session removes
    nothing. *)
Lemma dropped_replica_invisible_witness :
  let this := Sample.db "/ch/db" in
  let w := Sample.world Sample.tombstone_session ∅ in
  let cluster :=
    {| shards := [["host2"]; ["host3"]]; username := "default"; password := "";
       port := 9000; secure := false |} in
  let local : gmap string Table := {["t" := Sample.stored Sample.local_Log 2]} in
  let mark := Zk (zk_set "/ch/db/replicas/s1|r1" "DROPPED") in
  ((getCluster this w).1 = Returns cluster
   ∧ ∃ hosts host_ids,
       getCluster_while this (Z.to_nat max_retries) [] [] false w
         = (Returns (hosts, host_ids, true), (getCluster this w).2)
       ∧ replica_values_read this hosts host_ids
       ∧ concat (shards cluster) = visible_hosts hosts host_ids)
  ∧ drop this (Sample.world [answer_done; answer_done; answer_code ZNOTEMPTY] local)
    = (Returns (),
       mkWorld []
         [mark; Local DatabaseAtomic_drop;
          Zk (zk_tryRemoveRecursive "/ch/db/replicas/s1|r1");
          Zk (zk_tryRemove "/ch/db/replicas")] ∅ ∅ None 0)
  ∧ drop this (Sample.world [answer_throw (KEEPER_EXCEPTION ZSESSIONEXPIRED); answer_done]
                 local)
    = (Throws (KEEPER_EXCEPTION ZSESSIONEXPIRED),
       mkWorld [answer_done] [mark] local ∅ None 0).
Proof.
  intros this w cluster local mark. split; [|split].
  - split; [vm_compute; reflexivity|].
    apply (proj1 (dropped_replica_invisible this w)).
    vm_compute. reflexivity.
  - refine (proj1 (proj2 (proj2 (proj2 (dropped_replica_invisible this
              (Sample.world [answer_done; answer_done; answer_code ZNOTEMPTY] local)))))
              _ _ _).
    + vm_compute. reflexivity.
    + vm_compute. reflexivity.
    + vm_compute. discriminate.
  - refine (proj1 (proj2 (dropped_replica_invisible this
              (Sample.world [answer_throw (KEEPER_EXCEPTION ZSESSIONEXPIRED); answer_done]
                 local))) _).
    vm_compute. discriminate.
Defined.

(** C3.  A session in which the children of /replicas change during every
    one of the ten passes (the cversion read with the listing differs from
    the cversion read afterwards) and every fetch succeeds: no consistent
    snapshot is ever obtained, yet getCluster returns the cluster of the last
    listing instead of raising AllConnectionTriesFailed.  And on a quiet
    service (cversion 1 at both reads of every pass, data version 0) the
    first pass is consistent, yet all ten passes of three calls are made:
    the test of the loop compares the cversion with the data version. *)
Theorem getCluster_returns_unvalidated_snapshot :
  (getCluster (Sample.db "/ch/db") (Sample.world Sample.churning_session ∅)).1
    = Returns {| shards := [["host1"]]; username := "default"; password := "";
                 port := 9000; secure := false |}
  ∧ length (trace (getCluster (Sample.db "/ch/db")
                     (Sample.world Sample.churning_session ∅)).2) = 30%nat
  ∧ (getCluster_pass (Sample.db "/ch/db") (Sample.world Sample.quiet_pass ∅)).1
    = Returns (["s1|r1"], ["host1:9000:7"], true, false)
  ∧ length (trace (getCluster (Sample.db "/ch/db")
                     (Sample.world Sample.quiet_session ∅)).2) = 30%nat.
Proof. repeat split; vm_compute; reflexivity. Qed.

(** * Further properties *)

(** ** Searching a character *)

Lemma prefix_empty s : String.prefix "" s = true.
Proof. by destruct s. Qed.

Lemma find_char_nil c pos : Str.find (String c "") pos "" = None.
Proof. by destruct pos. Qed.

Lemma find_char_cons c b s :
  Str.find (String c "") 0 (String b s)
  = if decide (c = b) then Some 0%nat else S <$> Str.find (String c "") 0 s.
Proof.
  unfold Str.find. cbn [String.index String.prefix].
  destruct (ascii_dec c b) as [->|Hne].
  - rewrite prefix_empty. by rewrite decide_True.
  - rewrite decide_False by done. by destruct (String.index 0 (String c "") s).
Qed.

Lemma find_char_shift c pos b s :
  Str.find (String c "") (S pos) (String b s) = S <$> Str.find (String c "") pos s.
Proof. unfold Str.find. cbn [String.index]. by destruct (String.index pos (String c "") s). Qed.

Lemma contains_char_cons c b s :
  Str.contains (String c "") (String b s) = false
  ↔ c ≠ b ∧ Str.contains (String c "") s = false.
Proof.
  unfold Str.contains. rewrite find_char_cons, !bool_decide_eq_false.
  destruct (decide (c = b)) as [->|Hne].
  - split; [intros Hno; destruct Hno; by eexists|by intros [? _]].
  - rewrite fmap_is_Some. split; [by intros Hno|by intros [_ Hno]].
Qed.

Lemma contains_char_none c s :
  Str.contains (String c "") s = false ↔ Str.find (String c "") 0 s = None.
Proof.
  unfold Str.contains. rewrite bool_decide_eq_false, <-eq_None_not_Some. done.
Qed.

Lemma length_append s t : String.length (s +:+ t) = (String.length s + String.length t)%nat.
Proof. induction s as [|a s IH]; [done|]. rewrite append_cons. cbn. by rewrite IH. Qed.

Lemma append_assoc (s t u : string) : (s +:+ t) +:+ u = s +:+ (t +:+ u).
Proof. induction s as [|a s IH]; [done|]. rewrite !append_cons. by rewrite IH. Qed.

Lemma substring_head s t : String.substring 0 (String.length s) (s +:+ t) = s.
Proof.
  induction s as [|a s IH].
  - by destruct t.
  - rewrite append_cons. cbn. by rewrite IH.
Qed.

(** The first occurrence of [c] in [s c t], when [c] is not in [s]. *)
Lemma find_char_first c s t :
  Str.contains (String c "") s = false →
  Str.find (String c "") 0 (s +:+ String c t) = Some (String.length s).
Proof.
  induction s as [|a s IH].
  - intros _. change ("" +:+ String c t) with (String c t).
    by rewrite find_char_cons, decide_True.
  - intros [Hne Hs]%contains_char_cons. rewrite append_cons, find_char_cons.
    rewrite decide_False by done. by rewrite IH.
Qed.

(** The search after the occurrence at [length s] is the search in [t]. *)
Lemma find_char_after c s t :
  Str.find (String c "") (String.length s + 1) (s +:+ String c t)
  = (λ n, (String.length s + 1 + n)%nat) <$> Str.find (String c "") 0 t.
Proof.
  induction s as [|a s IH].
  - change ("" +:+ String c t) with (String c t). cbn [String.length Nat.add].
    by rewrite find_char_shift.
  - rewrite append_cons. cbn [String.length Nat.add]. rewrite find_char_shift, IH.
    by destruct (Str.find (String c "") 0 t).
Qed.

(** A string splits at the first occurrence of a character. *)
Lemma find_char_split c name pos :
  Str.find (String c "") 0 name = Some pos →
  ∃ s t, name = s +:+ String c t ∧ String.length s = pos
         ∧ Str.contains (String c "") s = false.
Proof.
  revert pos. induction name as [|b name IH]; intros pos.
  - by rewrite find_char_nil.
  - rewrite find_char_cons. destruct (decide (c = b)) as [->|Hne].
    + intros [= <-]. by exists "", name.
    + destruct (Str.find (String c "") 0 name) as [pos'|] eqn:Hfind; [|done].
      intros [= <-]. destruct (IH pos' eq_refl) as (s & t & -> & <- & Hs).
      exists (String b s), t. split; [done|]. split; [done|].
      by apply contains_char_cons.
Qed.

Lemma substr_from_after c s t :
  Str.substr_from (String.length s + 1) (s +:+ String c t) = t.
Proof.
  unfold Str.substr_from.
  replace (s +:+ String c t) with (Str.snoc s c +:+ t)
    by (unfold Str.snoc; by rewrite append_assoc).
  rewrite length_append, length_snoc.
  replace (S (String.length s) + String.length t - (String.length s + 1))%nat
    with (String.length t) by lia.
  rewrite Nat.add_1_r, <-(length_snoc s c). apply substring_tail.
Qed.

Section FurtherProperties.
Context {K : Type} {keeper : ZooKeeper K} {collaborators : Collaborators}.

(** ** Full replica names *)

Lemma parseFullReplicaName_join shard replica :
  Str.contains "|" shard = false →
  parseFullReplicaName (getFullReplicaName shard replica)
  = if Str.contains "|" replica then Throws LOGICAL_ERROR else Returns (shard, replica).
Proof.
  intros Hshard. unfold parseFullReplicaName, getFullReplicaName.
  change ("|" +:+ replica) with (String "|" replica).
  rewrite (find_char_first "|" shard replica Hshard).
  rewrite find_char_after. unfold Str.contains.
  destruct (Str.find "|" 0 replica) as [pos|]; cbn [fmap option_fmap option_map].
  - by rewrite !bool_decide_eq_true_2 by by eexists.
  - rewrite !bool_decide_eq_false_2 by (by intros [? ?]).
    cbn [Str.substr_to]. by rewrite substring_head, substr_from_after.
Qed.

(** X1.  parseFullReplicaName returns (shard, replica) for exactly the names
    shard|replica in which neither part contains '|'; for every other name
    (no '|' at all, or more than one) it throws LogicalError. *)
Theorem parseFullReplicaName_characterised (name : string) :
  (∀ shard replica,
     parseFullReplicaName name = Returns (shard, replica)
     ↔ name = getFullReplicaName shard replica
       ∧ Str.contains "|" shard = false ∧ Str.contains "|" replica = false)
  ∧ ((∃ shard replica, parseFullReplicaName name = Returns (shard, replica))
     ∨ parseFullReplicaName name = Throws LOGICAL_ERROR).
Proof.
  split.
  - intros shard replica. split.
    + unfold parseFullReplicaName.
      destruct (Str.find "|" 0 name) as [pos|] eqn:Hfind; [|done].
      apply find_char_split in Hfind as (s & t & -> & <- & Hs).
      rewrite find_char_after.
      destruct (Str.find "|" 0 t) as [pos|] eqn:Hbar; cbn [fmap option_fmap option_map].
      * by rewrite bool_decide_eq_true_2 by by eexists.
      * rewrite bool_decide_eq_false_2 by (by intros [? ?]).
        cbn [Str.substr_to]. rewrite substring_head, substr_from_after.
        intros [= <- <-]. split; [done|]. split; [done|].
        by apply contains_char_none.
    + intros (-> & Hshard & Hreplica).
      by rewrite parseFullReplicaName_join, Hreplica.
  - unfold parseFullReplicaName.
    destruct (Str.find "|" 0 name) as [pos|]; [|by right].
    destruct (bool_decide _); [by right|left; by eexists _, _].
Qed.

(** ** The constructor *)

Lemma DatabaseReplicated_init_valid name_ id p shard replica ctx (w : World K) this w' :
  DatabaseReplicated_init name_ id p shard replica ctx w = (Returns this, w') →
  p ≠ "" ∧ shard ≠ "" ∧ replica ≠ ""
  ∧ Str.contains "/" shard = false ∧ Str.contains "/" replica = false
  ∧ Str.contains "|" shard = false ∧ Str.contains "|" replica = false
  ∧ hasZooKeeper ctx = true
  ∧ shard_name this = shard ∧ replica_name this = replica.
Proof.
  unfold DatabaseReplicated_init.
  destruct (bool_decide (p = "")) eqn:Hp; [done|].
  destruct (bool_decide (shard = "")) eqn:Hs; [done|].
  destruct (bool_decide (replica = "")) eqn:Hr; [done|]. cbn [orb].
  destruct (Str.contains "/" shard) eqn:Hs1; [done|].
  destruct (Str.contains "/" replica) eqn:Hr1; [done|]. cbn [orb].
  destruct (Str.contains "|" shard) eqn:Hs2; [done|].
  destruct (Str.contains "|" replica) eqn:Hr2; [done|]. cbn [orb].
  intros Hi. apply bind_inv in Hi as (q & w1 & Hq & Hi).
  destruct (hasZooKeeper ctx); [|done]. cbn [negb] in Hi.
  apply bind_inv in Hi as (ex & w2 & _ & Hi).
  apply bind_inv in Hi as (? & w3 & _ & Hi).
  apply pair_equal_spec in Hi as [[= <-] _].
  apply bool_decide_eq_false in Hp, Hs, Hr. by repeat split.
Qed.

(** X2.  The constructor throws BadArguments, before any call to the store,
    when the path, the shard or the replica name is empty or when the shard
    or the replica name contains '/' or '|'.  So the node name shard|replica
    under which a constructed database is registered always parses back, with
    parseFullReplicaName, to its shard and its replica name. *)
Theorem constructor_validates_names name_ id p shard replica ctx (w : World K) :
  (p = "" ∨ shard = "" ∨ replica = ""
   ∨ Str.contains "/" shard = true ∨ Str.contains "/" replica = true
   ∨ Str.contains "|" shard = true ∨ Str.contains "|" replica = true →
   DatabaseReplicated_new name_ id p shard replica ctx w = (Throws BAD_ARGUMENTS, w))
  ∧ (∀ this w',
       DatabaseReplicated_new name_ id p shard replica ctx w = (Returns this, w') →
       replica_path this
         = zookeeper_path this +:+ "/replicas/"
           +:+ getFullReplicaName (shard_name this) (replica_name this)
       ∧ parseFullReplicaName (getFullReplicaName (shard_name this) (replica_name this))
         = Returns (shard_name this, replica_name this)).
Proof.
  split.
  - intros Hbad. unfold DatabaseReplicated_new, bind, DatabaseReplicated_init.
    destruct (bool_decide (p = "")) eqn:Hp; [done|].
    destruct (bool_decide (shard = "")) eqn:Hs; [done|].
    destruct (bool_decide (replica = "")) eqn:Hr; [done|]. cbn [orb].
    destruct (Str.contains "/" shard) eqn:Hs1; [done|].
    destruct (Str.contains "/" replica) eqn:Hr1; [done|]. cbn [orb].
    destruct (Str.contains "|" shard) eqn:Hs2; [done|].
    destruct (Str.contains "|" replica) eqn:Hr2; [done|].
    apply bool_decide_eq_false in Hp, Hs, Hr.
    destruct Hbad as [?|[?|[?|[?|[?|[?|?]]]]]]; congruence.
  - intros this w' Hnew. unfold DatabaseReplicated_new in Hnew.
    apply bind_inv in Hnew as (this' & w1 & Hinit & Hnew).
    apply bind_inv in Hnew as (? & w2 & _ & Hnew).
    apply pair_equal_spec in Hnew as [[= ->] _].
    destruct (DatabaseReplicated_init_fields _ _ _ _ _ _ _ _ _ Hinit) as (_ & _ & Hpath).
    destruct (DatabaseReplicated_init_valid _ _ _ _ _ _ _ _ _ Hinit)
      as (_ & _ & _ & _ & _ & Hs & Hr & _ & -> & ->).
    split; [done|]. by rewrite parseFullReplicaName_join, Hr.
Qed.

Lemma substr_from_append s t : Str.substr_from (String.length s) (s +:+ t) = t.
Proof.
  unfold Str.substr_from. rewrite length_append.
  replace (String.length s + String.length t - String.length s)%nat
    with (String.length t) by lia.
  apply substring_tail.
Qed.

Lemma substr_append s t : Str.substr (String.length s) (s +:+ t) = Returns t.
Proof.
  unfold Str.substr. rewrite substr_from_append, length_append.
  by rewrite (proj2 (Nat.ltb_ge _ _)) by lia.
Qed.

(** X3.  When the store names the sequential counter node
    <path>/counter/cnt-<n>, createReplicaNodesInZooKeeper issues one multi-op
    that creates the replica node with the host-id, its log_ptr with "0" and
    the log entry <path>/log/query-<n> with the same number <n>, and removes
    that counter node; nothing else is sent to the store. *)
Theorem createReplicaNodes_entry_number this (w : World K) suffix s1 :
  let counter_prefix := zookeeper_path this +:+ "/counter/cnt-" in
  let ops :=
    [ makeCreateRequest (replica_path this)
        (getHostID (global_context this) (db_uuid this)) Persistent;
      makeCreateRequest (replica_path this +:+ "/log_ptr") "0" Persistent;
      makeCreateRequest (zookeeper_path this +:+ "/log/query-" +:+ suffix)
        (DDLLogEntry_toString {| entry_hosts := []; entry_query := ""; entry_initiator := "" |})
        Persistent;
      makeRemoveRequest (counter_prefix +:+ suffix) (-1) ] in
  zk_answer (zk_create counter_prefix "" EphemeralSequential) (zk w)
    = (Returns (counter_prefix +:+ suffix), s1) →
  createReplicaNodesInZooKeeper this w
  = ((zk_answer (zk_multi ops) s1).1,
     mkWorld (zk_answer (zk_multi ops) s1).2
       (trace w ++ [Zk (zk_create counter_prefix "" EphemeralSequential); Zk (zk_multi ops)])
       (tables w) (databases w) (txn w) (rng_draws w)).
Proof.
  intros counter_prefix ops Hcreate.
  unfold createReplicaNodesInZooKeeper, bind, zookeeper, lift.
  fold counter_prefix. rewrite Hcreate. cbn [zk trace tables databases txn rng_draws].
  unfold counter_prefix at 1. rewrite substr_append.
  cbn [zk trace tables databases txn rng_draws].
  rewrite (append_assoc (zookeeper_path this)). fold counter_prefix ops.
  destruct (zk_answer (zk_multi ops) s1) as [r s2]. cbn [fst snd].
  by rewrite <-app_assoc.
Qed.

(** ** What a computation adds to the trace *)

Lemma adds_silent {A} (Q : list Event → Prop) (m : M K A) :
  Q [] → (∀ w, trace (m w).2 = trace w) → adds Q m.
Proof. intros HQ Hm w. exists []. by rewrite app_nil_r. Qed.

Lemma adds_zookeeper (Q : list Event → Prop) c : Q [Zk c] → adds Q (zookeeper c).
Proof.
  intros HQ w. exists [Zk c]. split; [|done].
  unfold zookeeper. by destruct (zk_answer c (zk w)).
Qed.

Lemma adds_record_local (Q : list Event → Prop) c : Q [Local c] → adds Q (@record_local K c).
Proof. intros HQ w. by exists [Local c]. Qed.

Lemma adds_bind {A B} (Q1 Q2 Q : list Event → Prop) (m : M K A) (k : A → M K B) :
  adds Q1 m → (∀ a, adds Q2 (k a)) →
  (∀ t1, Q1 t1 → Q t1) → (∀ t1 t2, Q1 t1 → Q2 t2 → Q (t1 ++ t2)) →
  adds Q (bind m k).
Proof.
  intros Hm Hk Hfail Hseq w. unfold bind.
  destruct (Hm w) as (t1 & Ht1 & HQ1).
  destruct (m w) as [[a|e|u] w1]; cbn [snd] in *; [|exists t1; auto..].
  destruct (Hk a w1) as (t2 & Ht2 & HQ2).
  exists (t1 ++ t2). rewrite Ht2, Ht1, <-app_assoc. auto.
Qed.

Lemma adds_weaken {A} (Q1 Q2 : list Event → Prop) (m : M K A) :
  (∀ t, Q1 t → Q2 t) → adds Q1 m → adds Q2 m.
Proof. intros HQ Hm w. destruct (Hm w) as (t & Ht & Hq). eauto. Qed.

Lemma emits_adds {A} (P : Event → Prop) (m : M K A) : emits P m ↔ adds (Forall P) m.
Proof. done. Qed.

Lemma emits_silent {A} (P : Event → Prop) (m : M K A) :
  (∀ w, trace (m w).2 = trace w) → emits P m.
Proof. intros Hm. by apply adds_silent. Qed.

Lemma emits_zookeeper (P : Event → Prop) c : P (Zk c) → emits P (zookeeper c).
Proof. intros HP. apply adds_zookeeper. by constructor. Qed.

Lemma emits_record_local (P : Event → Prop) c : P (Local c) → emits P (@record_local K c).
Proof. intros HP. apply adds_record_local. by constructor. Qed.

Lemma emits_bind {A B} (P : Event → Prop) (m : M K A) (k : A → M K B) :
  emits P m → (∀ a, emits P (k a)) → emits P (bind m k).
Proof.
  intros Hm Hk. eapply adds_bind; [exact Hm|exact Hk|done|].
  intros t1 t2 H1 H2. by apply Forall_app.
Qed.

Lemma emits_mapM {A B} (P : Event → Prop) (f : A → M K B) l :
  (∀ a, emits P (f a)) → emits P (mapM f l).
Proof.
  intros Hf. induction l as [|x l IH]; [by apply emits_silent|].
  cbn [mapM]. apply emits_bind; [apply Hf|intros y].
  apply emits_bind; [exact IH|intros ys]. by apply emits_silent.
Qed.

Lemma emits_weaken {A} (P1 P2 : Event → Prop) (m : M K A) :
  (∀ e, P1 e → P2 e) → emits P1 m → emits P2 m.
Proof. intros HP. apply adds_weaken. intros t Ht. by eapply Forall_impl. Qed.

Lemma listings_app t1 t2 : listings (t1 ++ t2) = (listings t1 + listings t2)%nat.
Proof. unfold listings. by rewrite filter_app, length_app. Qed.

Lemma listings_node_reads t : Forall is_node_read t → listings t = 0%nat ∧ Forall is_store_read t.
Proof.
  induction 1 as [|e t [Hread Hlisting] _ [IH1 IH2]]; [done|].
  split; [|by constructor].
  unfold listings in *. rewrite filter_cons_False by congruence. done.
Qed.

Lemma frames_undefined {A} u : frames (@undefined K A u).
Proof. intros w. apply coordination_only_refl. Qed.

(** ** The cluster view: reads only, and a bounded number of them *)

Lemma getCluster_pass_adds this :
  adds (λ t, Forall is_store_read t ∧ (listings t ≤ 1)%nat) (getCluster_pass this).
Proof.
  unfold getCluster_pass.
  eapply (adds_bind (λ t, t = [Zk (zk_getChildren (zookeeper_path this +:+ "/replicas"))])
            (Forall is_node_read)).
  - by apply adds_zookeeper.
  - intros [hosts stat]. destruct (bool_decide (hosts = [])); [by apply emits_silent|].
    apply emits_bind.
    { apply emits_mapM. intros host. refine (emits_zookeeper _ (zk_asyncTryGet _) _). by split. }
    intros futures. apply emits_bind; [by apply emits_silent|intros [success host_ids]].
    apply emits_bind; [by apply emits_zookeeper|intros [text stat']].
    by apply emits_silent.
  - intros t1 ->. split; [by repeat constructor|]. by compute.
  - intros t1 t2 -> [Hcount Hreads]%listings_node_reads. split.
    + by constructor.
    + rewrite listings_app, Hcount. by compute.
Qed.

Lemma getCluster_while_adds this left hosts host_ids success :
  adds (λ t, Forall is_store_read t ∧ (listings t ≤ left)%nat)
       (getCluster_while this left hosts host_ids success).
Proof.
  revert hosts host_ids success.
  induction left as [|left IH]; intros hosts host_ids success; cbn [getCluster_while].
  - by apply adds_silent.
  - eapply adds_bind; [apply getCluster_pass_adds| |..].
    + intros [[[hosts' host_ids'] success'] break].
      destruct break; [|apply IH].
      apply (adds_silent (λ t, Forall is_store_read t ∧ (listings t ≤ left)%nat)); [|done].
      split; [done|]. unfold listings. cbn. lia.
    + intros t1 [? ?]. split; [done|lia].
    + intros t1 t2 [? ?] [? ?]. split; [by apply Forall_app|].
      rewrite listings_app. lia.
Qed.

Lemma frames_getCluster_pass this : frames (getCluster_pass this).
Proof.
  unfold getCluster_pass.
  apply frames_bind; [apply frames_zookeeper|intros [hosts stat]].
  destruct (bool_decide (hosts = [])); [apply frames_throw|].
  apply frames_bind; [apply frames_mapM; intros host; exact (frames_zookeeper _)|intros futures].
  apply frames_bind; [apply frames_lift|intros [success host_ids]].
  apply frames_bind; [apply frames_zookeeper|intros [text stat']].
  apply frames_ret.
Qed.

Lemma frames_getCluster_while this left hosts host_ids success :
  frames (getCluster_while this left hosts host_ids success).
Proof.
  revert hosts host_ids success.
  induction left as [|left IH]; intros hosts host_ids success; cbn [getCluster_while].
  - apply frames_ret.
  - apply frames_bind; [apply frames_getCluster_pass|].
    intros [[[hosts' host_ids'] success'] break].
    destruct break; [apply frames_ret|apply IH].
Qed.

(** X4.  getCluster only reads the coordination service (exists, get,
    getChildren, asyncTryGet), lists the children of /replicas at most
    max_retries = 10 times, and leaves the local catalog, the other
    databases and the metadata transaction as they were, whatever its
    outcome. *)
Theorem getCluster_reads_only this (w : World K) :
  coordination_only w (getCluster this w).2
  ∧ ∃ t, trace (getCluster this w).2 = trace w ++ t
         ∧ Forall is_store_read t ∧ (listings t ≤ Z.to_nat max_retries)%nat.
Proof.
  split.
  - revert w. unfold getCluster.
    apply frames_bind; [apply frames_getCluster_while|intros [[hosts host_ids] success]].
    destruct (negb success); [apply frames_throw|].
    destruct hosts as [|front hosts]; [apply frames_undefined|].
    apply frames_bind; [apply frames_lift|intros [current_shard ?]].
    apply frames_bind; [apply frames_lift|intros groups]. apply frames_ret.
  - revert w. unfold getCluster.
    eapply (adds_bind _ (λ t, t = [])); [apply getCluster_while_adds| |done|].
    + intros [[hosts host_ids] success].
      destruct (negb success); [by apply adds_silent|].
      destruct hosts as [|front hosts]; [by apply adds_silent|].
      eapply (adds_bind (λ t, t = []) (λ t, t = [])); [by apply adds_silent| |done|].
      * intros [current_shard ?].
        eapply (adds_bind (λ t, t = []) (λ t, t = [])); [by apply adds_silent| |done|].
        -- intros groups. by apply adds_silent.
        -- by intros ? ? -> ->.
      * by intros ? ? -> ->.
    + intros t1 t2 [? ?] ->. by rewrite app_nil_r.
Qed.

(** ** The cluster view: what a returned cluster is built from *)

Lemma mapM_length {A B} (f : A → M K B) l (w : World K) ys w' :
  mapM f l w = (Returns ys, w') → length ys = length l.
Proof.
  revert w ys w'. induction l as [|x l IH]; intros w ys w'; cbn [mapM].
  - by intros [= <- _].
  - intros Hm. apply bind_inv in Hm as (y & w1 & _ & Hm).
    apply bind_inv in Hm as (ys' & w2 & Hl & Hm).
    apply pair_equal_spec in Hm as [[= <-] _]. cbn [length]. f_equal. eapply IH, Hl.
Qed.

Lemma getCluster_collect_ok futures success host_ids host_ids' :
  getCluster_collect futures success host_ids = Returns (true, host_ids') →
  success = true
  ∧ ∃ responses, futures = Returns <$> responses
                 ∧ host_ids' = host_ids ++ (data <$> responses)
                 ∧ Forall (λ response, error response = ZOK) responses.
Proof.
  revert success host_ids.
  induction futures as [|future futures IH]; intros success host_ids; cbn [getCluster_collect].
  - intros [= -> <-]. split; [done|]. exists []. by rewrite app_nil_r.
  - destruct future as [res|e|u]; [|done..]. cbn [obind].
    intros [Hsuccess (responses & -> & -> & Hok)]%IH.
    destruct (decide (error res ≠ ZOK)) as [|Hres%dec_stable]; [done|].
    split; [done|]. exists (res :: responses).
    split; [done|]. split; [by rewrite <-app_assoc|by constructor].
Qed.

Lemma getCluster_pass_fetched this (w : World K) hosts host_ids break w' :
  getCluster_pass this w = (Returns (hosts, host_ids, true, break), w') →
  hosts ≠ [] ∧ Sorted String.le hosts ∧ replica_values_fetched this hosts host_ids.
Proof.
  unfold getCluster_pass. intros Hpass.
  apply bind_inv in Hpass as ([children stat] & w1 & _ & Hpass).
  destruct (bool_decide (children = [])) eqn:Hchildren; [done|].
  apply bool_decide_eq_false in Hchildren.
  apply bind_inv in Hpass as (futures & w2 & Hfutures & Hpass).
  apply bind_inv in Hpass as ([success0 host_ids0] & w3 & Hcollect & Hpass).
  apply bind_inv in Hpass as ([text stat'] & w4 & _ & Hpass).
  apply pair_equal_spec in Hpass as [[= <- <- -> <-] <-].
  apply pair_equal_spec in Hcollect as [Hcollect <-].
  apply getCluster_collect_ok in Hcollect as [_ (responses & -> & -> & Hok)].
  split; [|split].
  - intros Hsorted. apply Hchildren, Permutation_nil_r.
    rewrite <-Hsorted. unfold Str.sort. by rewrite merge_sort_Permutation.
  - apply Sorted_merge_sort. apply _.
  - exists w1, w2, responses. split; [done|]. split; [done|]. split; [|done].
    apply mapM_length in Hfutures. by rewrite length_fmap in Hfutures.
Qed.

Lemma getCluster_while_fetched this left hosts0 host_ids0 success0 (w : World K)
    hosts host_ids w' :
  left ≠ 0%nat →
  getCluster_while this left hosts0 host_ids0 success0 w
    = (Returns (hosts, host_ids, true), w') →
  hosts ≠ [] ∧ Sorted String.le hosts ∧ replica_values_fetched this hosts host_ids.
Proof.
  revert hosts0 host_ids0 success0 w.
  induction left as [|left IH]; intros hosts0 host_ids0 success0 w Hleft; [done|].
  cbn [getCluster_while]. intros Hwhile.
  apply bind_inv in Hwhile as ([[[hosts1 host_ids1] success1] break] & w1 & Hpass & Hwhile).
  destruct break.
  - apply pair_equal_spec in Hwhile as [[= <- <- ->] <-].
    by eapply getCluster_pass_fetched.
  - destruct left as [|left].
    + apply pair_equal_spec in Hwhile as [[= <- <- ->] <-].
      by eapply getCluster_pass_fetched.
    + by eapply IH.
Qed.

Lemma back_emplace_back_snoc host (groups : list (list string)) (group : list string) :
  back_emplace_back host (groups ++ [group]) = groups ++ [group ++ [host]].
Proof.
  unfold back_emplace_back. rewrite length_app. cbn [length].
  replace (Nat.pred (length groups + 1)) with (length groups + 0)%nat by lia.
  by rewrite alter_app_r.
Qed.

Lemma back_is_empty_snoc (groups : list (list string)) (group : list string) :
  back_is_empty (groups ++ [group]) = bool_decide (group = []).
Proof.
  unfold back_is_empty. rewrite last_snoc.
  destruct group; [by rewrite !bool_decide_eq_true_2|by rewrite !bool_decide_eq_false_2].
Qed.

(** Once a host has been placed, no shard of the grouping is empty. *)
Lemma getCluster_group_filled i rest host_ids current_shard (groups groups' : list (list string)) :
  groups ≠ [] → Forall (λ shard, shard ≠ []) groups →
  getCluster_group i rest host_ids current_shard groups = Returns groups' →
  groups' ≠ [] ∧ Forall (λ shard, shard ≠ []) groups'.
Proof.
  revert i current_shard groups.
  induction rest as [|host rest IH]; intros i current_shard groups Hne Hall;
    cbn [getCluster_group].
  - by intros [= <-].
  - destruct (host_ids !! i) as [id|]; [|done].
    destruct (bool_decide (id = DROPPED_MARK)); [by apply IH|].
    destruct (parseFullReplicaName host) as [[shard replica]|e|u]; [|done..].
    cbn [obind].
    destruct groups as [|group groups _] using rev_ind; [done|].
    apply Forall_app in Hall as [Hinit [Hlast _]%Forall_cons].
    rewrite back_is_empty_snoc, (bool_decide_eq_false_2 (group = [])) by done.
    cbn [negb].
    destruct (bool_decide (shard ≠ current_shard)).
    + rewrite back_emplace_back_snoc. apply IH.
      * by destruct (groups ++ [group]).
      * apply Forall_app. split; [apply Forall_app; by repeat constructor|].
        by repeat constructor.
    + rewrite back_emplace_back_snoc. apply IH.
      * by destruct groups.
      * apply Forall_app. split; [done|]. constructor; [|done]. by destruct group.
Qed.

Lemma getCluster_group_shards i rest host_ids current_shard (groups' : list (list string)) :
  getCluster_group i rest host_ids current_shard [[]] = Returns groups' →
  groups' = [[]] ∨ (groups' ≠ [] ∧ Forall (λ shard, shard ≠ []) groups').
Proof.
  revert i current_shard.
  induction rest as [|host rest IH]; intros i current_shard; cbn [getCluster_group].
  - intros [= <-]. by left.
  - destruct (host_ids !! i) as [id|]; [|done].
    destruct (bool_decide (id = DROPPED_MARK)); [by apply IH|].
    destruct (parseFullReplicaName host) as [[shard replica]|e|u]; [|done..].
    cbn [obind]. intros Hgroup. right.
    destruct (bool_decide (shard ≠ current_shard));
      cbn in Hgroup; apply getCluster_group_filled in Hgroup; try done;
      by repeat constructor.
Qed.

(** X5.  When getCluster returns a cluster, the listing it is built from is
    not empty and is in lexicographic order, every listed replica node was
    fetched with the answer ZOK (one value for each host), and the cluster is
    either the single empty shard (every listed replica is dropped) or has
    no empty shard. *)
Theorem getCluster_returns_fetched_cluster this (w : World K) cluster w' :
  getCluster this w = (Returns cluster, w') →
  ∃ hosts host_ids,
    hosts ≠ [] ∧ Sorted String.le hosts
    ∧ replica_values_fetched this hosts host_ids
    ∧ concat (shards cluster) = visible_hosts hosts host_ids
    ∧ (shards cluster = [[]]
       ∨ (shards cluster ≠ [] ∧ Forall (λ shard, shard ≠ []) (shards cluster))).
Proof.
  intros Hcluster. unfold getCluster in Hcluster.
  apply bind_inv in Hcluster as ([[hosts host_ids] success] & w1 & Hwhile & Hcluster).
  destruct success; cbn [negb] in Hcluster; [|done].
  apply getCluster_while_fetched in Hwhile as (Hne & Hsorted & Hfetched); [|by compute].
  destruct hosts as [|front hosts]; [done|].
  apply bind_inv in Hcluster as ([current_shard ?] & w2 & Hfront & Hcluster).
  apply bind_inv in Hcluster as (groups & w3 & Hgroup & Hcluster).
  apply pair_equal_spec in Hgroup as [Hgroup _].
  apply pair_equal_spec in Hcluster as [[= <-] _].
  exists (front :: hosts), host_ids. repeat split; [done..| |].
  - apply getCluster_group_visible in Hgroup; [|done]. cbn [shards]. by rewrite Hgroup.
  - cbn [shards]. by eapply getCluster_group_shards.
Qed.

(** ** The consistent metadata snapshot *)

Lemma size_map_emplace {V} k (v : V) (m : gmap string V) :
  (m !! k = None ∧ map_emplace k v m = <[k := v]> m ∧ size (map_emplace k v m) = S (size m))
  ∨ (is_Some (m !! k) ∧ map_emplace k v m = m).
Proof.
  unfold map_emplace. destruct (m !! k) eqn:Hk; [right; by eauto|left].
  split; [done|]. split; [done|]. by apply map_size_insert_None.
Qed.

Lemma snapshot_collect_size table_names futures (m0 m : gmap string string) :
  snapshot_collect table_names futures m0 = Returns m →
  (size m ≤ size m0 + length table_names)%nat.
Proof.
  revert futures m0.
  induction table_names as [|name names IH]; intros futures m0; cbn [snapshot_collect].
  - intros [= <-]. lia.
  - destruct futures as [|[res|e|u] futures]; [done| |done..]. cbn [obind].
    destruct (decide (error res ≠ ZOK)); [intros [= <-]; lia|].
    intros Hm%IH. cbn [length].
    destruct (size_map_emplace (unescapeForFileName name) (data res) m0)
      as [(_ & _ & Hsize)|[_ Heq]]; [rewrite Hsize in Hm|rewrite Heq in Hm]; lia.
Qed.

Lemma snapshot_collect_full table_names futures (m0 m : gmap string string) :
  snapshot_collect table_names futures m0 = Returns m →
  length futures = length table_names →
  size m = (size m0 + length table_names)%nat →
  ∃ responses,
    futures = Returns <$> responses
    ∧ Forall (λ response, error response = ZOK) responses
    ∧ NoDup (unescapeForFileName <$> table_names)
    ∧ (∀ k, k ∈ unescapeForFileName <$> table_names → m0 !! k = None)
    ∧ m = list_to_map (zip (unescapeForFileName <$> table_names) (data <$> responses)) ∪ m0.
Proof.
  revert futures m0.
  induction table_names as [|name names IH]; intros futures m0; cbn [snapshot_collect].
  - intros [= <-] Hlen _. destruct futures; [|done]. exists [].
    split; [done|]. split; [done|]. split; [constructor|].
    split; [by intros k ?%elem_of_nil|]. cbn. by rewrite (left_id_L ∅ (∪)).
  - destruct futures as [|[res|e|u] futures]; [done| |done..]. cbn [obind length].
    destruct (decide (error res ≠ ZOK)) as [|Hres%dec_stable]; [intros [= <-]; lia|].
    intros Hm [= Hlen] Hsize. pose proof (snapshot_collect_size _ _ _ _ Hm) as Hle.
    destruct (size_map_emplace (unescapeForFileName name) (data res) m0)
      as [(Hfresh & Heq & Hsize1)|[_ Heq]]; [|rewrite Heq in Hle; lia].
    apply IH in Hm as (responses & -> & Hok & Hnodup & Hkeys & ->); [|done|lia].
    rewrite Heq in Hkeys.
    assert (unescapeForFileName name ∉ unescapeForFileName <$> names) as Hnotin.
    { intros Hin%Hkeys. by rewrite lookup_insert_eq in Hin. }
    exists (res :: responses).
    split; [done|]. split; [by constructor|]. split; [by constructor|]. split.
    + intros k [->|Hin]%elem_of_cons; [done|].
      apply Hkeys in Hin. by apply lookup_insert_None in Hin as [? _].
    + rewrite Heq. cbn [fmap list_fmap zip zip_with list_to_map foldr curry fst snd].
      rewrite <-insert_union_r, insert_union_l; [done|].
      apply not_elem_of_list_to_map_1. rewrite fst_zip; [done|].
      rewrite !length_fmap. rewrite length_fmap in Hlen. lia.
Qed.

Lemma snapshot_pass_inv this pointer (w : World K) snapshot pointer' break w' :
  snapshot_pass this pointer w = (Returns (snapshot, pointer', break), w') →
  pointer ≤ pointer'
  ∧ (break = true → pointer' = pointer ∧ snapshot_taken this snapshot pointer).
Proof.
  unfold snapshot_pass. intros Hpass.
  apply bind_inv in Hpass as ([table_names stat] & w1 & Hlist & Hpass).
  apply bind_inv in Hpass as (futures & w2 & Hfutures & Hpass).
  apply bind_inv in Hpass as (m & w2' & Hcollect & Hpass).
  apply pair_equal_spec in Hcollect as [Hcollect <-].
  apply bind_inv in Hpass as ([text stat'] & w3 & Hget & Hpass).
  apply bind_inv in Hpass as (new_max_log_ptr & w3' & Hparse & Hpass).
  apply pair_equal_spec in Hparse as [Hparse <-].
  destruct (bool_decide (new_max_log_ptr = pointer)) eqn:Hsame; cbn [andb] in Hpass.
  - apply bool_decide_eq_true in Hsame as ->.
    destruct (bool_decide (vector_size table_names = _)) eqn:Hsize.
    + apply pair_equal_spec in Hpass as [[= <- <- <-] <-]. split; [lia|]. intros _.
      split; [done|]. exists w, w1, w2, w3, table_names, stat, futures, text, stat'.
      split; [done|]. split; [done|]. split; [done|]. split; [done|].
      intros Hfits. apply bool_decide_eq_true in Hsize.
      pose proof (snapshot_collect_size _ _ _ _ Hcollect) as Hle.
      rewrite map_size_empty in Hle. unfold vector_size in Hsize.
      rewrite !Z.mod_small in Hsize by (unfold size_t_modulus in *; lia).
      apply snapshot_collect_full in Hcollect as (responses & -> & Hok & Hnodup & _ & ->).
      * exists responses. by rewrite (right_id_L ∅ (∪)).
      * by apply mapM_length in Hfutures.
      * rewrite map_size_empty. lia.
    + rewrite bool_decide_eq_false_2 in Hpass by lia.
      apply pair_equal_spec in Hpass as [[= <- <- <-] <-]. by split; [lia|].
  - destruct (bool_decide (pointer < new_max_log_ptr)) eqn:Hlt.
    + apply bool_decide_eq_true in Hlt.
      apply pair_equal_spec in Hpass as [[= <- <- <-] <-]. by split; [lia|].
    + apply pair_equal_spec in Hpass as [[= <- <- <-] <-]. by split; [lia|].
Qed.

Lemma snapshot_while_inv this left iteration snapshot0 pointer (w : World K)
    snapshot pointer' iteration' w' :
  snapshot_while this left iteration snapshot0 pointer w
    = (Returns (snapshot, pointer', iteration'), w') →
  pointer ≤ pointer'
  ∧ (iteration' = iteration + Z.of_nat left + 1
     ∨ (iteration' ≤ iteration + Z.of_nat left ∧ snapshot_taken this snapshot pointer')).
Proof.
  revert iteration snapshot0 pointer w.
  induction left as [|left IH]; intros iteration snapshot0 pointer w; cbn [snapshot_while].
  - intros [= <- <- <-] . split; [lia|]. left. lia.
  - intros Hwhile.
    apply bind_inv in Hwhile as ([[snapshot1 pointer1] break] & w1 & Hpass & Hwhile).
    apply snapshot_pass_inv in Hpass as [Hle Hbreak].
    destruct break.
    + apply pair_equal_spec in Hwhile as [[= <- <- <-] <-].
      destruct (Hbreak eq_refl) as [-> Htaken]. split; [lia|]. right. split; [lia|done].
    + apply IH in Hwhile as [Hle' Hcases]. split; [lia|].
      destruct Hcases as [->|[? ?]]; [left|right; split; [|done]]; lia.
Qed.

Lemma tryGetConsistentMetadataSnapshot_inv this pointer (w : World K)
    snapshot pointer' w' :
  tryGetConsistentMetadataSnapshot this pointer w = (Returns (snapshot, pointer'), w') →
  pointer ≤ pointer' ∧ snapshot_taken this snapshot pointer'.
Proof.
  unfold tryGetConsistentMetadataSnapshot. intros Hsnapshot.
  apply bind_inv in Hsnapshot as ([[snapshot1 pointer1] iteration] & w1 & Hwhile & Hsnapshot).
  destruct (bool_decide (max_retries < iteration)) eqn:Hcap; [done|].
  apply bool_decide_eq_false in Hcap.
  apply pair_equal_spec in Hsnapshot as [[= <- <-] <-].
  apply snapshot_while_inv in Hwhile as [Hle [->|[_ Htaken]]]; [|done].
  unfold max_retries in Hcap. lia.
Qed.

(** X6.  When tryGetConsistentMetadataSnapshot returns a snapshot and a
    log pointer, the pointer is not below the one passed in, and the snapshot
    was validated by the pass that read it: the node max_log_ptr, read after
    all the fetches, held exactly the returned pointer, every child of
    /metadata was fetched with ZOK, and the snapshot maps the unescaped name
    of each child to the data fetched from it (no two children sharing a
    name). *)
Theorem tryGetConsistentMetadataSnapshot_validated this pointer (w : World K)
    snapshot pointer' w' :
  tryGetConsistentMetadataSnapshot this pointer w = (Returns (snapshot, pointer'), w') →
  pointer ≤ pointer' ∧ snapshot_taken this snapshot pointer'.
Proof. apply tryGetConsistentMetadataSnapshot_inv. Qed.

Lemma snapshot_pass_adds this pointer :
  adds (λ t, Forall is_store_read t ∧ (listings t ≤ 1)%nat) (snapshot_pass this pointer).
Proof.
  unfold snapshot_pass.
  eapply (adds_bind (λ t, t = [Zk (zk_getChildren (zookeeper_path this +:+ "/metadata"))])
            (Forall is_node_read)).
  - by apply adds_zookeeper.
  - intros [table_names stat]. apply emits_bind.
    { apply emits_mapM. intros table.
      refine (emits_zookeeper _ (zk_asyncTryGet _) _). by split. }
    intros futures. apply emits_bind; [by apply emits_silent|intros snapshot].
    apply emits_bind; [by apply emits_zookeeper|intros [text stat']].
    apply emits_bind; [by apply emits_silent|intros new_max_log_ptr].
    repeat case_match; by apply emits_silent.
  - intros t1 ->. split; [by repeat constructor|]. by compute.
  - intros t1 t2 -> [Hcount Hreads]%listings_node_reads. split.
    + by constructor.
    + rewrite listings_app, Hcount. by compute.
Qed.

Lemma snapshot_while_adds this left iteration snapshot pointer :
  adds (λ t, Forall is_store_read t ∧ (listings t ≤ left)%nat)
       (snapshot_while this left iteration snapshot pointer).
Proof.
  revert iteration snapshot pointer.
  induction left as [|left IH]; intros iteration snapshot pointer; cbn [snapshot_while].
  - by apply adds_silent.
  - eapply adds_bind; [apply snapshot_pass_adds| |..].
    + intros [[snapshot' pointer'] break].
      destruct break; [|apply IH].
      apply (adds_silent (λ t, Forall is_store_read t ∧ (listings t ≤ left)%nat)); [|done].
      split; [done|]. unfold listings. cbn. lia.
    + intros t1 [? ?]. split; [done|lia].
    + intros t1 t2 [? ?] [? ?]. split; [by apply Forall_app|].
      rewrite listings_app. lia.
Qed.

Lemma tryGetConsistentMetadataSnapshot_adds this pointer :
  adds (λ t, Forall is_store_read t ∧ (listings t ≤ Z.to_nat max_retries)%nat)
       (tryGetConsistentMetadataSnapshot this pointer).
Proof.
  unfold tryGetConsistentMetadataSnapshot.
  eapply (adds_bind _ (λ t, t = [])); [apply snapshot_while_adds| |done|].
  - intros [[snapshot pointer'] iteration]. case_match; by apply adds_silent.
  - intros t1 t2 [? ?] ->. by rewrite app_nil_r.
Qed.

(** X7.  tryGetConsistentMetadataSnapshot only reads the coordination
    service, lists the children of /metadata at most max_retries = 10 times,
    and leaves the local catalog, the other databases and the metadata
    transaction as they were, whatever its outcome. *)
Theorem tryGetConsistentMetadataSnapshot_reads_only this pointer (w : World K) :
  coordination_only w (tryGetConsistentMetadataSnapshot this pointer w).2
  ∧ ∃ t, trace (tryGetConsistentMetadataSnapshot this pointer w).2 = trace w ++ t
         ∧ Forall is_store_read t ∧ (listings t ≤ Z.to_nat max_retries)%nat.
Proof.
  split; [apply frames_tryGetConsistentMetadataSnapshot|].
  apply tryGetConsistentMetadataSnapshot_adds.
Qed.

(** ** Recovery: what is sent to the store *)

Lemma emits_local_drop (P : Event → Prop) c name :
  P (Local c) → emits P (@local_drop K c name).
Proof.
  intros HP. unfold local_drop.
  apply emits_bind; [by apply emits_record_local|intros _].
  apply emits_bind; [by apply emits_silent|intros t]. by apply emits_silent.
Qed.

Lemma emits_create_database (P : Event → Prop) name :
  P (Local (executeQuery_CreateDatabaseIfNotExists name)) →
  emits P (@executeQuery_create_database K name).
Proof.
  intros HP. unfold executeQuery_create_database.
  apply emits_bind; [by apply emits_record_local|intros _].
  apply emits_bind; [by apply emits_silent|intros t]. by apply emits_silent.
Qed.

Lemma emits_rename (P : Event → Prop) this_name name to_database to_name exchange dictionary :
  P (Local (DatabaseAtomic_renameTable name to_database to_name exchange dictionary)) →
  emits P (@DatabaseAtomic_rename K this_name name to_database to_name exchange dictionary).
Proof.
  intros HP. unfold DatabaseAtomic_rename.
  apply emits_bind; [by apply emits_record_local|intros _].
  apply emits_bind; [by apply emits_silent|intros t].
  apply emits_bind; [by apply emits_silent|intros d].
  repeat case_match; try (by apply emits_silent);
    (apply emits_bind; [by apply emits_silent|intros _]; by apply emits_silent).
Qed.

Lemma emits_create (P : Event → Prop) query :
  P (Local (InterpreterCreateQuery_execute query)) →
  emits P (@InterpreterCreateQuery_run K _ query).
Proof.
  intros HP. unfold InterpreterCreateQuery_run.
  apply emits_bind; [by apply emits_record_local|intros _].
  apply emits_bind; [by apply emits_silent|intros storage].
  apply emits_bind; [by apply emits_silent|intros t]. by apply emits_silent.
Qed.

Lemma emits_recover_detach (P : Event → Prop) this to_db_name pointer names counters :
  (∀ c, P (Local c)) →
  emits P (@recover_detach K _ this to_db_name pointer names counters).
Proof.
  intros HP. revert counters.
  induction names as [|name names IH]; intros counters; cbn [recover_detach].
  - by apply emits_silent.
  - apply emits_bind; [|intros counters'; apply IH].
    unfold recover_detach_one. destruct counters as [[dicts moved] dropped].
    apply emits_bind; [by apply emits_silent|intros random].
    apply emits_bind; [by apply emits_silent|intros existing].
    destruct (existing !! name) as [t|]; [|by apply emits_silent].
    destruct (is_dictionary t).
    { apply emits_bind; [by apply emits_local_drop|intros _]. by apply emits_silent. }
    destruct (negb (storesDataOnDisk t)).
    { apply emits_bind; [by apply emits_record_local|intros _].
      apply emits_bind; [by apply emits_local_drop|intros _]. by apply emits_silent. }
    apply emits_bind; [by apply emits_silent|intros catalog].
    case_match; [by apply emits_silent|].
    apply emits_bind; [by apply emits_rename|intros _]. by apply emits_silent.
Qed.

Lemma emits_recover_create (P : Event → Prop) this items :
  (∀ c, P (Local c)) → emits P (@recover_create K _ this items).
Proof.
  intros HP. induction items as [|item items IH]; cbn [recover_create].
  - by apply emits_silent.
  - apply emits_bind; [by apply emits_silent|intros present].
    destruct present; [exact IH|].
    apply emits_bind; [by apply emits_silent|intros query].
    apply emits_bind; [by apply emits_create|intros _]. exact IH.
Qed.

Lemma sealed_prefix {A} seal (m : M K A) (k : A → M K unit) :
  emits no_store_write m → (∀ a, sealed seal (k a)) → sealed seal (bind m k).
Proof.
  intros Hm Hk w. unfold bind.
  destruct (Hm w) as (t1 & Ht1 & HP1).
  destruct (m w) as [[a|e|u] w1]; cbn [fst snd] in *.
  - destruct (Hk a w1) as [[Hr (t2 & Ht2 & HP2)]|(w0 & t0 & Ht0 & HP0 & Hrun)].
    + left. split; [done|]. exists (t1 ++ t2).
      rewrite Ht2, Ht1, <-app_assoc. split; [done|]. by apply Forall_app.
    + right. exists w0, (t1 ++ t0).
      rewrite Ht0, Ht1, <-app_assoc. split; [done|]. split; [by apply Forall_app|done].
  - left. split; [done|]. by exists t1.
  - left. split; [done|]. by exists t1.
Qed.

Lemma sealed_failure seal e : sealed seal (@throw K unit e).
Proof. intros w. left. split; [done|]. exists []. by rewrite app_nil_r. Qed.

Lemma sealed_seal (seal : M K unit) : sealed seal seal.
Proof. intros w. right. exists w, []. by rewrite app_nil_r. Qed.

Lemma recover_scan_silent snapshot names detach0 total0 (w : World K) :
  trace (recover_scan snapshot names detach0 total0 w).2 = trace w.
Proof.
  revert detach0 total0.
  induction names as [|name names IH]; intros detach0 total0; cbn [recover_scan]; [done|].
  unfold bind at 1, readMetadataFile.
  destruct (tables w !! name) as [t|]; [|done].
  unfold bind at 1, lift.
  destruct (should_detach snapshot name (metadata_file t)) as [d|e|u]; [|done..].
  apply IH.
Qed.

(** X8.  The only write of recoverLostReplica to the coordination service
    is the set of log_ptr.  Either the run does not return and has called no
    write of the service; or its last call is that set, made after every
    local change and after calls that are no writes, the value written is the
    log pointer, not below the one passed in, under which the snapshot was
    validated, and the outcome and the final state of the run are those of
    that set.  So a run that returns ends with that write, and a run that
    fails has called no write unless it fails in that last write. *)
Theorem recoverLostReplica_seals this our_log_ptr max_log_ptr (w : World K) r w' :
  recoverLostReplica this our_log_ptr max_log_ptr w = (r, w') →
  (r ≠ Returns () ∧ ∃ t, trace w' = trace w ++ t ∧ Forall no_store_write t)
  ∨ ∃ snapshot pointer w0 t0,
      max_log_ptr ≤ pointer ∧ snapshot_taken this snapshot pointer
      ∧ trace w0 = trace w ++ t0 ∧ Forall no_store_write t0
      ∧ zookeeper (zk_set (replica_path this +:+ "/log_ptr") (Str.of_Z pointer)) w0 = (r, w')
      ∧ trace w' = trace w ++ t0
                   ++ [Zk (zk_set (replica_path this +:+ "/log_ptr") (Str.of_Z pointer))].
Proof.
  intros Hrun. unfold recoverLostReplica in Hrun.
  unfold bind at 1, empty at 1 in Hrun.
  destruct (bool_decide (our_log_ptr = 0) && negb (bool_decide (tables w = ∅))).
  { apply pair_equal_spec in Hrun as [<- <-]. left. split; [done|].
    exists []. by rewrite app_nil_r. }
  unfold bind at 1 in Hrun.
  destruct (tryGetConsistentMetadataSnapshot_adds this max_log_ptr w) as (t1 & Ht1 & Hreads & _).
  assert (Forall no_store_write t1) as Hnw.
  { eapply Forall_impl; [exact Hreads|]. by intros [[]|]. }
  destruct (tryGetConsistentMetadataSnapshot this max_log_ptr w)
    as [[[snapshot pointer]|e|u] w1] eqn:Hsnapshot; cbn [snd] in Ht1.
  2,3: apply pair_equal_spec in Hrun as [<- <-]; left; split; [done|]; by exists t1.
  apply tryGetConsistentMetadataSnapshot_inv in Hsnapshot as [Hle Htaken].
  match type of Hrun with ?rest w1 = _ =>
    assert (sealed (zookeeper (zk_set (replica_path this +:+ "/log_ptr") (Str.of_Z pointer)))
              rest) as Hsealed
  end.
  { apply sealed_prefix; [by apply emits_silent|intros names].
    apply sealed_prefix.
    { apply emits_silent. intros w0. apply recover_scan_silent. }
    intros [detach total].
    case_match; [apply sealed_failure|].
    apply sealed_prefix.
    { case_match; [by apply emits_create_database|by apply emits_silent]. }
    intros _. apply sealed_prefix; [by apply emits_recover_detach|].
    intros [[? ?] dropped].
    apply sealed_prefix.
    { apply emits_mapM. intros id. by apply emits_record_local. }
    intros _. apply sealed_prefix; [by apply emits_recover_create|].
    intros _. apply sealed_seal. }
  specialize (Hsealed w1). rewrite Hrun in Hsealed. cbn [fst snd] in Hsealed.
  destruct Hsealed as [[Hr (t2 & Ht2 & HP2)]|(w0 & t0 & Ht0 & HP0 & Hseal)].
  - left. split; [done|]. exists (t1 ++ t2).
    rewrite Ht2, Ht1, <-app_assoc. split; [done|]. by apply Forall_app.
  - right. exists snapshot, pointer, w0, (t1 ++ t0).
    split; [done|]. split; [done|].
    split; [by rewrite Ht0, Ht1, <-app_assoc|].
    split; [by apply Forall_app|]. split; [done|].
    unfold zookeeper in Hseal.
    destruct (zk_answer _ (zk w0)) as [r0 s]. apply pair_equal_spec in Hseal as [_ ->].
    cbn [trace]. by rewrite Ht0, Ht1, <-!app_assoc.
Qed.

(** ** Recovery of a replica whose tables match the snapshot *)

Lemma should_detach_equal (snapshot : gmap string string) name text :
  snapshot !! name = Some text → should_detach snapshot name text = Returns false.
Proof.
  intros Hzk. unfold should_detach. rewrite Hzk.
  rewrite (bool_decide_eq_false_2 (Some text = None)) by done.
  by rewrite bool_decide_eq_false_2 by (intros Hne; by apply Hne).
Qed.

Lemma recover_scan_all_kept snapshot names detach0 total0 (w : World K) :
  0 ≤ total0 →
  (∀ name, name ∈ names →
     ∃ t, tables w !! name = Some t ∧ snapshot !! name = Some (metadata_file t)) →
  ∃ total, 0 ≤ total
           ∧ recover_scan snapshot names detach0 total0 w = (Returns (detach0, total), w).
Proof.
  revert total0.
  induction names as [|name names IH]; intros total0 Htotal Hkept; cbn [recover_scan].
  - by exists total0.
  - destruct (Hkept name) as (t & Ht & Hzk); [by left|].
    unfold bind at 1, readMetadataFile. rewrite Ht.
    unfold bind at 1, lift. rewrite (should_detach_equal _ _ _ Hzk).
    apply IH.
    + unfold size_t_succ. by apply Z.mod_pos_bound.
    + intros name' Hin. apply Hkept. by right.
Qed.

Lemma recover_create_present this items (w : World K) :
  (∀ item, item ∈ items → is_Some (tables w !! item.1)) →
  recover_create this items w = (Returns (), w).
Proof.
  induction items as [|item items IH]; intros Hpresent; cbn [recover_create]; [done|].
  unfold bind, isTableExist.
  rewrite bool_decide_eq_true_2 by (apply Hpresent; by left).
  apply IH. intros item' Hin. apply Hpresent. by right.
Qed.

(** X9.  When the validated snapshot holds, for every local table, exactly
    the text of its metadata file, and names no other table, recovery changes
    nothing locally: after the reads of the snapshot its only call is the
    write of the new log pointer, and its outcome is the outcome of that
    write. *)
Theorem recovery_of_matching_replica
    this our_log_ptr max_log_ptr (w : World K) snapshot pointer w1 :
  our_log_ptr ≠ 0 ∨ tables w = ∅ →
  tryGetConsistentMetadataSnapshot this max_log_ptr w = (Returns (snapshot, pointer), w1) →
  snapshot = metadata_file <$> tables w →
  recoverLostReplica this our_log_ptr max_log_ptr w
  = zookeeper (zk_set (replica_path this +:+ "/log_ptr") (Str.of_Z pointer)) w1
  ∧ tables w1 = tables w ∧ databases w1 = databases w
  ∧ local_calls (trace w1) = local_calls (trace w).
Proof.
  intros Hguard Hsnapshot ->.
  pose proof (frames_tryGetConsistentMetadataSnapshot this max_log_ptr w) as Hframe.
  rewrite Hsnapshot in Hframe. destruct Hframe as (Htables & Hdbs & _ & _ & Hcalls).
  cbn [snd] in *. split; [|done].
  unfold recoverLostReplica, bind at 1, empty.
  assert (bool_decide (our_log_ptr = 0) && negb (bool_decide (tables w = ∅)) = false) as ->.
  { destruct Hguard as [Hour| ->].
    - by rewrite (bool_decide_eq_false_2 _ Hour).
    - rewrite (bool_decide_eq_true_2 (∅ = ∅)) by done. apply andb_false_r. }
  rewrite (bind_returns _ _ _ _ _ Hsnapshot).
  unfold bind at 1, getTablesIterator.
  destruct (recover_scan_all_kept (metadata_file <$> tables w)
              (map_items (tables w1)).*1 [] 0 w1) as (total & Htotal & Hscan); [done| |].
  { intros name ((name' & t) & -> & Hin%elem_of_map_items)%list_elem_of_fmap.
    exists t. split; [done|]. rewrite <-Htables, lookup_fmap. cbn. by rewrite Hin. }
  rewrite (bind_returns _ _ _ _ _ Hscan).
  rewrite bool_decide_eq_false_2.
  2:{ change (size_t_mul (vector_size (@nil string)) 2) with 0. lia. }
  cbn [negb].
  rewrite (bool_decide_eq_true_2 ([] = [])) by done. cbn [negb].
  unfold bind at 1, ret at 1. cbn [recover_detach].
  unfold bind at 1, ret at 1. cbn [mapM].
  unfold bind at 1, ret at 1.
  erewrite bind_returns; [reflexivity|].
  apply recover_create_present.
  intros [name text] Hin%elem_of_map_items. cbn [fst].
  rewrite lookup_fmap in Hin. rewrite Htables.
  destruct (tables w !! name); [by eexists|done].
Qed.

(** ** Recovery: what is asked of the local catalog *)

Lemma detaching_bind {A B} before (P : Event → Prop) (m : M K A) (k : A → M K B) :
  detaching before P m → (∀ a, detaching before P (k a)) → detaching before P (bind m k).
Proof.
  intros Hm Hk w Hw. unfold bind.
  destruct (Hm w Hw) as (t1 & Ht1 & HP1 & Hw1).
  destruct (m w) as [[a|e|u] w1]; cbn [snd] in *; [|exists t1; auto..].
  destruct (Hk a w1 Hw1) as (t2 & Ht2 & HP2 & Hw2).
  exists (t1 ++ t2). rewrite Ht2, Ht1, <-app_assoc. split; [done|].
  split; [by apply Forall_app|done].
Qed.

Lemma detaching_same_tables {A} before (P : Event → Prop) (m : M K A) :
  (∀ w, tables (m w).2 = tables w) → emits P m → detaching before P m.
Proof.
  intros Htables Hm w Hw. destruct (Hm w) as (t & Ht & HP).
  exists t. by rewrite Htables.
Qed.

Lemma detaching_silent {A} before (P : Event → Prop) (m : M K A) :
  (∀ w, (m w).2 = w) → detaching before P m.
Proof.
  intros Hm. apply detaching_same_tables.
  - intros w. by rewrite Hm.
  - apply emits_silent. intros w. by rewrite Hm.
Qed.

Lemma calling_bind {A B} before (P : Event → Prop) (m : M K A) (k : A → M K B) :
  detaching before P m → (∀ a, calling before P (k a)) → calling before P (bind m k).
Proof.
  intros Hm Hk w Hw. unfold bind.
  destruct (Hm w Hw) as (t1 & Ht1 & HP1 & Hw1).
  destruct (m w) as [[a|e|u] w1]; cbn [snd] in *; [|exists t1; auto..].
  destruct (Hk a w1 Hw1) as (t2 & Ht2 & HP2).
  exists (t1 ++ t2). rewrite Ht2, Ht1, <-app_assoc. split; [done|]. by apply Forall_app.
Qed.

Lemma calling_emits {A} before (P : Event → Prop) (m : M K A) :
  emits P m → calling before P m.
Proof. intros Hm w _. apply Hm. Qed.

Lemma shrunk_from_delete before now name :
  shrunk_from before now → shrunk_from before (delete name now).
Proof.
  intros Hnow name'. destruct (decide (name = name')) as [->|Hne].
  - left. apply lookup_delete_eq.
  - rewrite lookup_delete_ne by done. apply Hnow.
Qed.

Lemma shrunk_from_lookup before now name t :
  shrunk_from before now → now !! name = Some t → before !! name = Some t.
Proof. intros Hnow Ht. destruct (Hnow name) as [Hnone|<-]; congruence. Qed.

Lemma broken_tables_is_another_database db : db +:+ BROKEN_TABLES_SUFFIX ≠ db.
Proof.
  intros Heq. apply (f_equal String.length) in Heq.
  rewrite length_append in Heq. cbn in Heq. lia.
Qed.

Lemma recover_detach_one_calls before this pointer name counters :
  detaching before (recovery_call_ok before (database_name this))
    (@recover_detach_one K _ this (database_name this +:+ BROKEN_TABLES_SUFFIX)
       pointer name counters).
Proof.
  intros w Hw. destruct counters as [[dicts moved] dropped].
  remember (recover_detach_one this (database_name this +:+ BROKEN_TABLES_SUFFIX)
              pointer name (dicts, moved, dropped) w) as result eqn:Hresult.
  cbv [recover_detach_one bind draw get_tables get_databases local_drop record_local
       put_tables put_databases DatabaseAtomic_rename ret throw undefined] in Hresult.
  cbn [zk trace tables databases txn rng_draws] in Hresult.
  destruct (tables w !! name) as [t|] eqn:Ht.
  2:{ subst result. exists []. cbn [snd trace tables]. by rewrite app_nil_r. }
  pose proof (shrunk_from_lookup _ _ _ _ Hw Ht) as Hbefore.
  destruct (is_dictionary t) eqn:Hdictionary.
  { subst result. exists [Local (DatabaseAtomic_removeDictionary name)].
    cbn [snd trace tables]. split; [done|]. split; [|by apply shrunk_from_delete].
    constructor; [|done]. by exists t. }
  destruct (storesDataOnDisk t) eqn:Hdata; cbn [negb] in Hresult.
  2:{ subst result.
      exists [Local (IStorage_shutdown name); Local (DatabaseAtomic_dropTable name true)].
      cbn [snd trace tables].
      split; [by rewrite <-app_assoc|]. split; [|by apply shrunk_from_delete].
      repeat constructor; by exists t. }
  cbn [zk trace tables databases txn rng_draws] in Hresult.
  destruct (bool_decide (databases w !! _ = None)); cbn beta in Hresult.
  { subst result. exists []. cbn [snd trace tables]. by rewrite app_nil_r. }
  assert (recovery_call_ok before (database_name this)
            (Local (DatabaseAtomic_renameTable name
                      (database_name this +:+ BROKEN_TABLES_SUFFIX)
                      (name +:+ "_" +:+ Str.of_Z pointer +:+ "_"
                       +:+ Str.of_Z (thread_local_rng (rng_draws w) `mod` 1000))
                      false false))) as Hcall.
  { split; [by exists t|done]. }
  cbn [zk trace tables databases txn rng_draws] in Hresult.
  rewrite Ht in Hresult.
  rewrite (bool_decide_eq_false_2 (_ = database_name this)) in Hresult
    by apply broken_tables_is_another_database.
  destruct (databases w !! _) as [other|].
  2:{ subst result. eexists [_]. cbn [snd trace tables]. by repeat split; [constructor|]. }
  destruct (other !! _) as [dst|].
  { subst result. eexists [_]. cbn [snd trace tables]. by repeat split; [constructor|]. }
  subst result. eexists [_]. cbn [snd trace tables].
  split; [done|]. split; [by constructor|]. by apply shrunk_from_delete.
Qed.

Lemma recover_detach_calls before this pointer names counters :
  detaching before (recovery_call_ok before (database_name this))
    (@recover_detach K _ this (database_name this +:+ BROKEN_TABLES_SUFFIX)
       pointer names counters).
Proof.
  revert counters. induction names as [|name names IH]; intros counters; cbn [recover_detach].
  - by apply detaching_silent.
  - apply detaching_bind; [apply recover_detach_one_calls|exact IH].
Qed.

Lemma parseQueryFromMetadataInZooKeeper_returned this node_name query ast :
  parseQueryFromMetadataInZooKeeper this node_name query = Returns ast →
  database ast = database_name this ∧ attach ast = false ∧ uuid ast ≠ UUIDHelpers_Nil.
Proof.
  unfold parseQueryFromMetadataInZooKeeper.
  destruct (parseQuery query) as [create|e|u]; [|done..]. cbn [obind].
  destruct (bool_decide (uuid create = UUIDHelpers_Nil)) eqn:Huuid; [done|].
  apply bool_decide_eq_false in Huuid. cbn [orb].
  destruct (_ || _); [done|]. by intros [= <-].
Qed.

Lemma emits_bind_lift {A B} (P : Event → Prop) (o : outcome A) (k : A → M K B) :
  (∀ a, o = Returns a → emits P (k a)) → emits P (bind (lift o) k).
Proof.
  intros Hk w. unfold bind, lift. destruct o as [a|e|u].
  - by apply Hk.
  - exists []. by rewrite app_nil_r.
  - exists []. by rewrite app_nil_r.
Qed.

Lemma recover_create_calls before this items :
  emits (recovery_call_ok before (database_name this)) (@recover_create K _ this items).
Proof.
  induction items as [|item items IH]; cbn [recover_create].
  - by apply emits_silent.
  - apply emits_bind; [by apply emits_silent|intros present].
    destruct present; [exact IH|].
    apply emits_bind_lift. intros ast Hast%parseQueryFromMetadataInZooKeeper_returned.
    apply emits_bind; [by apply emits_create|intros _]. exact IH.
Qed.

(** X10.  Whatever its outcome, recovery asks of the local catalog only
    this: it creates the database <db>_broken_tables; it removes
    dictionaries; it shuts down and drops only tables that stored no data on
    disk before recovery; a table that stored data on disk is renamed (never
    exchanged) into <db>_broken_tables; every CREATE it runs is for this
    database, carries a non-Nil UUID and is no ATTACH; and it never drops the
    database. *)
Theorem recovery_calls this our_log_ptr max_log_ptr (w : World K) :
  ∃ t, trace (recoverLostReplica this our_log_ptr max_log_ptr w).2 = trace w ++ t
       ∧ Forall (recovery_call_ok (tables w) (database_name this)) t.
Proof.
  assert (calling (tables w) (recovery_call_ok (tables w) (database_name this))
            (@recoverLostReplica K _ _ this our_log_ptr max_log_ptr)) as Hcalling.
  2:{ apply Hcalling. intros name. by right. }
  unfold recoverLostReplica.
  apply calling_bind; [by apply detaching_silent|intros is_empty].
  case_match; [apply calling_emits; by apply emits_silent|].
  apply calling_bind.
  { apply detaching_same_tables.
    - intros w0. apply (frames_tryGetConsistentMetadataSnapshot this max_log_ptr w0).
    - apply (emits_weaken is_store_read); [by intros [[]|]|].
      apply emits_adds. eapply adds_weaken; [|apply tryGetConsistentMetadataSnapshot_adds].
      by intros t [? _]. }
  intros [snapshot pointer].
  apply calling_bind; [by apply detaching_silent|intros names].
  apply calling_bind.
  { apply detaching_silent. intros w0.
    destruct (recover_scan _ _ _ _ w0) as [r0 w1] eqn:Hscan.
    by apply recover_scan_pure in Hscan as [-> _]. }
  intros [detach total].
  case_match; [apply calling_emits; by apply emits_silent|].
  apply calling_bind.
  { case_match; [|by apply detaching_silent].
    apply detaching_same_tables; [done|by apply emits_create_database]. }
  intros _. apply calling_bind; [apply recover_detach_calls|intros [[? ?] dropped]].
  apply calling_emits.
  apply emits_bind.
  { apply emits_mapM. intros id. by apply emits_record_local. }
  intros _. apply emits_bind; [apply recover_create_calls|intros _].
  exact (emits_zookeeper _ (zk_set _ _) I).
Qed.

(** ** The metadata transaction of a rename *)

Lemma txn_ops_emplace_back_some op (w : World K) t :
  txn w = Some t → txn_ops_emplace_back op w = (Returns (), with_ops [op] w).
Proof.
  intros Htxn. unfold txn_ops_emplace_back, bind, get_txn, put_txn, with_ops.
  by rewrite Htxn.
Qed.

Lemma with_ops_with_ops a b (w : World K) : with_ops a (with_ops b w) = with_ops (b ++ a) w.
Proof.
  unfold with_ops. cbn [zk trace tables databases txn rng_draws].
  destruct (txn w) as [t|]; cbn [fmap option_fmap option_map]; [|done].
  cbn [is_initial_query txn_zookeeper_path ops]. by rewrite <-app_assoc.
Qed.

Lemma txn_with_ops added (w : World K) t :
  txn w = Some t →
  txn (with_ops added w)
  = Some {| is_initial_query := is_initial_query t;
            txn_zookeeper_path := txn_zookeeper_path t;
            ops := ops t ++ added |}.
Proof. intros Htxn. unfold with_ops. cbn [txn]. by rewrite Htxn. Qed.

(** What an initial rename does once the preconditions hold. *)
Lemma renameTable_initial this table_name to_table_name exchange dictionary
    (w : World K) t src :
  txn w = Some t → is_initial_query t = true →
  table_name ≠ to_table_name → tables w !! table_name = Some src →
  (exchange = true → is_Some (tables w !! to_table_name)) →
  renameTable this table_name (database_name this) to_table_name exchange dictionary w
  = DatabaseAtomic_rename (database_name this) table_name (database_name this) to_table_name
      exchange dictionary
      (with_ops
         (makeRemoveRequest (metadata_node (txn_zookeeper_path t) table_name) (-1)
          :: (if exchange
              then match tables w !! to_table_name with
                   | Some dst =>
                     [makeRemoveRequest (metadata_node (txn_zookeeper_path t) to_table_name) (-1);
                      makeCreateRequest (metadata_node (txn_zookeeper_path t) table_name)
                        (metadata_file dst) Persistent]
                   | None => []
                   end
              else [])
          ++ [makeCreateRequest (metadata_node (txn_zookeeper_path t) to_table_name)
                (metadata_file src) Persistent])
         w).
Proof.
  intros Htxn Hinitial Hne Hsrc Hdst.
  unfold renameTable, metadata_node.
  unfold bind at 1, get_txn at 1. rewrite Htxn, Hinitial.
  rewrite bool_decide_eq_false_2 by (intros Hdiff; by apply Hdiff).
  rewrite bool_decide_eq_false_2 by done.
  unfold bind at 1.
  unfold bind at 1, isTableExist at 1. rewrite Hsrc.
  rewrite bool_decide_eq_true_2 by done. cbn [negb].
  destruct exchange.
  - destruct (Hdst eq_refl) as [dst Hdst'].
    unfold bind at 1, bind at 1, IDatabase_isTableExist.
    rewrite bool_decide_eq_true_2 by done. unfold isTableExist, ret.
    rewrite Hdst', bool_decide_eq_true_2 by done. cbn [negb].
    unfold bind at 1, readMetadataFile at 1. rewrite Hsrc.
    unfold bind at 1. rewrite (txn_ops_emplace_back_some _ w t Htxn).
    unfold bind at 1, bind at 1, readMetadataFile at 1.
    cbn [with_ops tables]. rewrite Hdst'.
    unfold bind at 1.
    rewrite (txn_ops_emplace_back_some _ _ _ (txn_with_ops _ w t Htxn)).
    rewrite with_ops_with_ops.
    rewrite (txn_ops_emplace_back_some _ _ _ (txn_with_ops _ w t Htxn)).
    rewrite with_ops_with_ops.
    rewrite (txn_ops_emplace_back_some _ _ _ (txn_with_ops _ w t Htxn)).
    rewrite with_ops_with_ops. reflexivity.
  - unfold bind at 1, ret at 1.
    unfold bind at 1, readMetadataFile at 1. rewrite Hsrc.
    unfold bind at 1. rewrite (txn_ops_emplace_back_some _ w t Htxn).
    unfold bind at 1, ret at 1.
    rewrite (txn_ops_emplace_back_some _ _ _ (txn_with_ops _ w t Htxn)).
    rewrite with_ops_with_ops. reflexivity.
Qed.

(** X11.  An initial rename whose preconditions hold queues two requests
    behind those already in the metadata transaction, in this order: the
    removal (any version) of the node of the old name under the /metadata of
    the transaction's path, and the creation of the persistent node of the new
    name holding the metadata file of the table; then it hands over to the
    local catalog. *)
Theorem renameTable_queues_rename this table_name to_table_name dictionary
    (w : World K) t src :
  txn w = Some t → is_initial_query t = true →
  table_name ≠ to_table_name → tables w !! table_name = Some src →
  renameTable this table_name (database_name this) to_table_name false dictionary w
  = DatabaseAtomic_rename (database_name this) table_name (database_name this) to_table_name
      false dictionary
      (with_ops
         [makeRemoveRequest (metadata_node (txn_zookeeper_path t) table_name) (-1);
          makeCreateRequest (metadata_node (txn_zookeeper_path t) to_table_name)
            (metadata_file src) Persistent]
         w).
Proof.
  intros Htxn Hinitial Hne Hsrc.
  by rewrite (renameTable_initial _ _ _ _ _ _ t src Htxn Hinitial Hne Hsrc).
Qed.

(** X12.  An initial exchange whose preconditions hold queues four requests
    behind those already in the metadata transaction, in this order: the
    removals of the nodes of the first and of the second name, the creation of
    the node of the first name with the metadata file of the second table, and
    the creation of the node of the second name with the metadata file of the
    first table; then it hands over to the local catalog. *)
Theorem renameTable_queues_exchange this table_name to_table_name dictionary
    (w : World K) t src dst :
  txn w = Some t → is_initial_query t = true →
  table_name ≠ to_table_name →
  tables w !! table_name = Some src → tables w !! to_table_name = Some dst →
  renameTable this table_name (database_name this) to_table_name true dictionary w
  = DatabaseAtomic_rename (database_name this) table_name (database_name this) to_table_name
      true dictionary
      (with_ops
         [makeRemoveRequest (metadata_node (txn_zookeeper_path t) table_name) (-1);
          makeRemoveRequest (metadata_node (txn_zookeeper_path t) to_table_name) (-1);
          makeCreateRequest (metadata_node (txn_zookeeper_path t) table_name)
            (metadata_file dst) Persistent;
          makeCreateRequest (metadata_node (txn_zookeeper_path t) to_table_name)
            (metadata_file src) Persistent]
         w).
Proof.
  intros Htxn Hinitial Hne Hsrc Hdst.
  rewrite (renameTable_initial _ _ _ _ _ _ t src Htxn Hinitial Hne Hsrc) by (by rewrite Hdst).
  by rewrite Hdst.
Qed.

Lemma append_inj_l (p a b : string) : p +:+ a = p +:+ b → a = b.
Proof.
  induction p as [|c p IH]; [done|].
  rewrite !append_cons. intros [= Heq]. by apply IH.
Qed.

Lemma metadata_node_inj root a b :
  (∀ x y, escapeForFileName x = escapeForFileName y → x = y) →
  metadata_node root a = metadata_node root b → a = b.
Proof.
  intros Hinj Heq. unfold metadata_node in Heq.
  by apply append_inj_l, append_inj_l, Hinj in Heq.
Qed.

(** An initial rename that returns had its preconditions. *)
Lemma renameTable_returned this table_name to_database to_table_name exchange dictionary
    (w : World K) t w' :
  txn w = Some t → is_initial_query t = true →
  renameTable this table_name to_database to_table_name exchange dictionary w
    = (Returns (), w') →
  to_database = database_name this ∧ table_name ≠ to_table_name
  ∧ is_Some (tables w !! table_name)
  ∧ (exchange = true → is_Some (tables w !! to_table_name)).
Proof.
  intros Htxn Hinitial. unfold renameTable.
  unfold bind at 1, get_txn at 1. rewrite Htxn, Hinitial.
  unfold bind at 1.
  destruct (decide (database_name this = to_database)) as [Hdb|Hdb];
    [|by rewrite bool_decide_eq_true_2 by done].
  rewrite bool_decide_eq_false_2 by (intros Hdiff; by apply Hdiff).
  destruct (decide (table_name = to_table_name)) as [Hname|Hname];
    [by rewrite bool_decide_eq_true_2 by done|].
  rewrite bool_decide_eq_false_2 by done.
  unfold bind at 1, isTableExist at 1.
  destruct (tables w !! table_name) as [src|] eqn:Hsrc;
    [|by rewrite bool_decide_eq_false_2 by (by intros [? ?])].
  rewrite bool_decide_eq_true_2 by done. cbn [negb].
  destruct exchange; [|by intros _].
  unfold bind at 1, bind at 1, IDatabase_isTableExist.
  rewrite bool_decide_eq_true_2 by done. unfold isTableExist, ret.
  destruct (tables w !! to_table_name) as [dst|] eqn:Hdst;
    [|by rewrite bool_decide_eq_false_2 by (by intros [? ?])].
  by intros _.
Qed.

(** What the local catalog did when a rename inside the database returns. *)
Lemma DatabaseAtomic_rename_returned this_name table_name to_table_name exchange dictionary
    (w : World K) w' src :
  tables w !! table_name = Some src →
  DatabaseAtomic_rename this_name table_name this_name to_table_name exchange dictionary w
    = (Returns (), w') →
  txn w' = txn w
  ∧ if exchange
    then ∃ dst, tables w !! to_table_name = Some dst
                ∧ tables w' = <[to_table_name := src]> (<[table_name := dst]> (tables w))
    else tables w !! to_table_name = None
         ∧ tables w' = <[to_table_name := src]> (delete table_name (tables w)).
Proof.
  intros Hsrc. unfold DatabaseAtomic_rename, bind, record_local, get_tables, get_databases,
    put_tables, throw. cbn [zk trace tables databases txn rng_draws].
  rewrite Hsrc, bool_decide_eq_true_2 by done.
  destruct (tables w !! to_table_name) as [dst|] eqn:Hdst, exchange; try done.
  - intros [= <-]. cbn [txn tables]. split; [done|]. by exists dst.
  - intros [= <-]. cbn [txn tables]. done.
Qed.

Lemma apply_remove path version nodes value :
  nodes !! path = Some value →
  apply_request (makeRemoveRequest path version) nodes = Some (delete path nodes).
Proof. intros Hpath. unfold apply_request. by rewrite Hpath. Qed.

Lemma apply_create path value mode nodes :
  nodes !! path = None →
  apply_request (makeCreateRequest path value mode) nodes = Some (<[path := value]> nodes).
Proof. intros Hpath. unfold apply_request. by rewrite Hpath. Qed.

(** X13.  The requests that a returning initial rename (or exchange) queues
    do to the nodes under /metadata what the local catalog did to the tables:
    when file names escape injectively and the nodes of the two names held the
    metadata files of the two tables (no node for no table), the queued
    requests, applied in order as one multi-op, all succeed, and every name
    whose node mirrored the catalog before still mirrors it afterwards. *)
Theorem renameTable_requests_mirror_catalog
    this table_name to_database to_table_name exchange dictionary
    (w : World K) t w' (nodes : gmap string string) :
  (∀ x y, escapeForFileName x = escapeForFileName y → x = y) →
  txn w = Some t → is_initial_query t = true →
  nodes !! metadata_node (txn_zookeeper_path t) table_name
    = metadata_file <$> tables w !! table_name →
  nodes !! metadata_node (txn_zookeeper_path t) to_table_name
    = metadata_file <$> tables w !! to_table_name →
  renameTable this table_name to_database to_table_name exchange dictionary w
    = (Returns (), w') →
  ∃ added nodes',
    txn w' = txn (with_ops added w)
    ∧ apply_requests added nodes = Some nodes'
    ∧ ∀ name,
        nodes !! metadata_node (txn_zookeeper_path t) name
          = metadata_file <$> tables w !! name →
        nodes' !! metadata_node (txn_zookeeper_path t) name
          = metadata_file <$> tables w' !! name.
Proof.
  intros Hinj Htxn Hinitial Hold Hnew Hrun.
  destruct (renameTable_returned _ _ _ _ _ _ _ _ _ Htxn Hinitial Hrun)
    as (-> & Hne & [src Hsrc] & Hdst).
  assert (∀ a b, a ≠ b →
            metadata_node (txn_zookeeper_path t) a ≠ metadata_node (txn_zookeeper_path t) b)
    as Hnodes.
  { intros a b Hab Heq. by apply Hab, (metadata_node_inj (txn_zookeeper_path t)). }
  rewrite Hsrc in Hold. cbn [fmap option_fmap option_map] in Hold.
  destruct exchange.
  - destruct (Hdst eq_refl) as [dst Hdst'].
    rewrite Hdst' in Hnew. cbn [fmap option_fmap option_map] in Hnew.
    rewrite (renameTable_initial _ _ _ _ _ _ t src Htxn Hinitial Hne Hsrc) in Hrun
      by (by rewrite Hdst').
    rewrite Hdst' in Hrun. cbn [app] in Hrun.
    apply (DatabaseAtomic_rename_returned _ _ _ _ _ _ _ src) in Hrun as [Htxn' Htables];
      [|done].
    destruct Htables as (dst' & Hdst'' & Htables). cbn [with_ops tables] in Hdst'', Htables.
    assert (dst' = dst) as -> by congruence.
    eexists _, _. split; [exact Htxn'|]. split.
    + cbn [apply_requests]. rewrite (apply_remove _ _ _ _ Hold). cbn [mbind option_bind].
      rewrite (apply_remove _ _ _ (metadata_file dst)); cbn [mbind option_bind].
      2:{ rewrite lookup_delete_ne; [done|]. by apply Hnodes. }
      rewrite apply_create; cbn [mbind option_bind].
      2:{ rewrite lookup_delete_ne by (by apply Hnodes, not_eq_sym).
          by rewrite lookup_delete_eq. }
      rewrite apply_create; cbn [mbind option_bind]; [reflexivity|].
      rewrite lookup_insert_ne by (by apply Hnodes). by rewrite lookup_delete_eq.
    + intros name Hname. rewrite Htables.
      destruct (decide (name = to_table_name)) as [->|Hto].
      { by rewrite !lookup_insert_eq. }
      rewrite !(lookup_insert_ne _ to_table_name) by done.
      rewrite lookup_insert_ne by (by apply Hnodes, not_eq_sym).
      destruct (decide (name = table_name)) as [->|Hfrom].
      { by rewrite !lookup_insert_eq. }
      rewrite !lookup_insert_ne by (done || by apply Hnodes, not_eq_sym).
      rewrite !lookup_delete_ne by (by apply Hnodes, not_eq_sym). exact Hname.
  - rewrite (renameTable_initial _ _ _ _ _ _ t src Htxn Hinitial Hne Hsrc) in Hrun by done.
    cbn [app] in Hrun.
    apply (DatabaseAtomic_rename_returned _ _ _ _ _ _ _ src) in Hrun as [Htxn' Htables];
      [|done].
    destruct Htables as [Hdst' Htables]. cbn [with_ops tables] in Hdst', Htables.
    rewrite Hdst' in Hnew. cbn [fmap option_fmap option_map] in Hnew.
    eexists _, _. split; [exact Htxn'|]. split.
    + cbn [apply_requests]. rewrite (apply_remove _ _ _ _ Hold). cbn [mbind option_bind].
      rewrite apply_create; cbn [mbind option_bind]; [reflexivity|].
      rewrite lookup_delete_ne by (by apply Hnodes). exact Hnew.
    + intros name Hname. rewrite Htables.
      destruct (decide (name = to_table_name)) as [->|Hto].
      { by rewrite !lookup_insert_eq. }
      rewrite !lookup_insert_ne by (done || by apply Hnodes, not_eq_sym).
      destruct (decide (name = table_name)) as [->|Hfrom].
      { by rewrite !lookup_delete_eq. }
      rewrite !lookup_delete_ne by (done || by apply Hnodes, not_eq_sym). exact Hname.
Qed.

(** ** The other hooks of the metadata transaction *)

Lemma hook_queues {A} (op : MetadataTransaction → Request) (delegate : M K A) (w : World K) :
  (do current <- get_txn;
   run (match current with
        | Some t => if is_initial_query t then txn_ops_emplace_back (op t) else ret ()
        | None => ret ()
        end);
   delegate) w
  = delegate (queued op w).
Proof.
  unfold bind at 1, get_txn at 1, queued.
  destruct (txn w) as [t|] eqn:Htxn; [|done].
  destruct (is_initial_query t); [|done].
  unfold bind. by rewrite (txn_ops_emplace_back_some _ w t Htxn).
Qed.

(** X14.  Each of the six hooks dropTable, commitCreateTable,
    commitAlterTable, createDictionary, removeDictionary and
    detachTablePermanently is the method of the local catalog run after one
    request was queued behind those of the metadata transaction, and only when
    there is a transaction of an initial query; without a transaction or on a
    secondary query the hook is the method of the local catalog.  No hook
    throws or calls the coordination service by itself.  The removals of
    dropTable, removeDictionary and detachTablePermanently name the node under
    the path of the database; the creations and the set of commitCreateTable,
    createDictionary and commitAlterTable name the node under the path of the
    transaction. *)
Theorem hooks_queue_one_request this
    (getObjectDefinitionFromCreateQuery : ASTCreateQuery → string)
    (DatabaseAtomic_commitCreateTable : ASTCreateQuery → Table → string → string → M K unit)
    (DatabaseAtomic_commitAlterTable : string → string → string → string → M K unit)
    (DatabaseAtomic_createDictionary : string → ASTCreateQuery → M K unit)
    (DatabaseAtomic_detachTablePermanently : string → M K unit)
    (w : World K) :
  (∀ table_name no_delay,
     dropTable this table_name no_delay w
     = local_drop (DatabaseAtomic_dropTable table_name no_delay) table_name
         (queued (λ _, makeRemoveRequest (metadata_node (zookeeper_path this) table_name) (-1))
                 w))
  ∧ (∀ query storage tmp_path path,
       commitCreateTable getObjectDefinitionFromCreateQuery DatabaseAtomic_commitCreateTable
         query storage tmp_path path w
       = DatabaseAtomic_commitCreateTable query storage tmp_path path
           (queued (λ t, makeCreateRequest (metadata_node (txn_zookeeper_path t) (table query))
                           (getObjectDefinitionFromCreateQuery query) Persistent)
                   w))
  ∧ (∀ table_name tmp_path path statement,
       commitAlterTable DatabaseAtomic_commitAlterTable table_name tmp_path path statement w
       = DatabaseAtomic_commitAlterTable table_name tmp_path path statement
           (queued (λ t, makeSetRequest (metadata_node (txn_zookeeper_path t) table_name)
                           statement (-1))
                   w))
  ∧ (∀ dictionary_name query,
       createDictionary getObjectDefinitionFromCreateQuery DatabaseAtomic_createDictionary
         dictionary_name query w
       = DatabaseAtomic_createDictionary dictionary_name query
           (queued (λ t, makeCreateRequest
                           (metadata_node (txn_zookeeper_path t) dictionary_name)
                           (getObjectDefinitionFromCreateQuery query) Persistent)
                   w))
  ∧ (∀ dictionary_name,
       removeDictionary this dictionary_name w
       = local_drop (DatabaseAtomic_removeDictionary dictionary_name) dictionary_name
           (queued (λ _, makeRemoveRequest
                           (metadata_node (zookeeper_path this) dictionary_name) (-1))
                   w))
  ∧ (∀ table_name,
       detachTablePermanently DatabaseAtomic_detachTablePermanently this table_name w
       = DatabaseAtomic_detachTablePermanently table_name
           (queued (λ _, makeRemoveRequest (metadata_node (zookeeper_path this) table_name) (-1))
                   w)).
Proof.
  repeat split; intros.
  - exact (hook_queues (λ _, makeRemoveRequest _ _) _ w).
  - exact (hook_queues (λ t, makeCreateRequest _ _ _) _ w).
  - exact (hook_queues (λ t, makeSetRequest _ _ _) _ w).
  - exact (hook_queues (λ t, makeCreateRequest _ _ _) _ w).
  - exact (hook_queues (λ _, makeRemoveRequest _ _) _ w).
  - exact (hook_queues (λ _, makeRemoveRequest _ _) _ w).
Qed.

(** X15.  renameTable reads the metadata transaction without the check of
    the other hooks: without a transaction it dereferences a null pointer
    (the assert is compiled out of a release build) and nothing is renamed;
    on a secondary query it checks nothing and queues nothing, it is the
    rename of the local catalog, also towards another database. *)
Theorem renameTable_without_initial_transaction
    this table_name to_database to_table_name exchange dictionary (w : World K) :
  (txn w = None →
   renameTable this table_name to_database to_table_name exchange dictionary w
   = (Undefined DerefNullPointer, w))
  ∧ (∀ t, txn w = Some t → is_initial_query t = false →
     renameTable this table_name to_database to_table_name exchange dictionary w
     = DatabaseAtomic_rename (database_name this) table_name to_database to_table_name
         exchange dictionary w).
Proof.
  split.
  - intros Htxn. unfold renameTable, bind, get_txn. by rewrite Htxn.
  - intros t Htxn Hsecondary. unfold renameTable.
    unfold bind at 1, get_txn at 1. rewrite Htxn, Hsecondary. reflexivity.
Qed.

(** ** Dropping the database *)

(** X16.  The calls of drop are a prefix, never empty, of: set the replica
    node to DROPPED, drop the local database, remove the replica node
    recursively, try to remove /replicas, remove the root recursively.  When
    only the first is made (the mark could not be written) drop does not
    return and the local tables are kept.  The root is removed only when the
    service, in the state the earlier calls left, answered ZOK to the removal
    of /replicas. *)
Theorem drop_calls this (w : World K) :
  ∃ n, (1 ≤ n)%nat
    ∧ trace (drop this w).2
      = trace w ++ take n
          [Zk (zk_set (replica_path this) DROPPED_MARK);
           Local DatabaseAtomic_drop;
           Zk (zk_tryRemoveRecursive (replica_path this));
           Zk (zk_tryRemove (zookeeper_path this +:+ "/replicas"));
           Zk (zk_tryRemoveRecursive (zookeeper_path this))]
    ∧ (n = 1%nat → (drop this w).1 ≠ Returns () ∧ tables (drop this w).2 = tables w)
    ∧ (n = 5%nat →
       ∃ s1 s3,
         zk_answer (zk_set (replica_path this) DROPPED_MARK) (zk w) = (Returns (), s1)
         ∧ zk_answer (zk_tryRemoveRecursive (replica_path this)) s1 = (Returns (), s3)
         ∧ (zk_answer (zk_tryRemove (zookeeper_path this +:+ "/replicas")) s3).1
           = Returns ZOK).
Proof.
  unfold drop, bind, zookeeper, DatabaseAtomic_drop_all, bind, record_local, put_tables, ret.
  cbn [zk trace tables databases txn rng_draws].
  destruct (zk_answer (zk_set (replica_path this) DROPPED_MARK) (zk w))
    as [[[]|e|u] s1] eqn:Hset;
    [|exists 1%nat; cbn [fst snd trace tables take]; by repeat split..].
  cbn [zk trace tables databases txn rng_draws].
  destruct (zk_answer (zk_tryRemoveRecursive (replica_path this)) s1)
    as [[[]|e|u] s3] eqn:Hreplica;
    [|exists 3%nat; cbn [fst snd trace tables take]; rewrite <-!app_assoc;
      (split; [lia|]); by repeat split..].
  cbn [zk trace tables databases txn rng_draws].
  destruct (zk_answer (zk_tryRemove (zookeeper_path this +:+ "/replicas")) s3)
    as [[res|e|u] s4] eqn:Hreplicas;
    [|exists 4%nat; cbn [fst snd trace tables take]; rewrite <-!app_assoc;
      (split; [lia|]); by repeat split..].
  destruct (decide (res = ZOK)) as [->|Hres].
  - cbn [zk trace tables databases txn rng_draws].
    destruct (zk_answer (zk_tryRemoveRecursive (zookeeper_path this)) s4) as [r s5].
    exists 5%nat. cbn [fst snd trace tables take]. rewrite <-!app_assoc.
    split; [lia|]. split; [done|]. split; [done|].
    intros _. exists s1, s3. by rewrite Hreplicas.
  - exists 4%nat. cbn [fst snd trace tables take]. rewrite <-!app_assoc.
    split; [lia|]. by repeat split.
Qed.

(** ** Proposing a statement *)

Lemma propose_check_alter_unsupported (isSupportedAlterType : Z → bool) commands :
  Exists (λ command, isSupportedAlterType command = false) commands →
  propose_check_alter isSupportedAlterType commands = Throws NOT_IMPLEMENTED.
Proof.
  induction 1 as [command commands Hcommand|command commands Hcommands IH];
    cbn [propose_check_alter].
  - by rewrite Hcommand.
  - by destruct (isSupportedAlterType command).
Qed.

Lemma propose_check_alter_supported (isSupportedAlterType : Z → bool) commands :
  Forall (λ command, isSupportedAlterType command = true) commands →
  propose_check_alter isSupportedAlterType commands = Returns ().
Proof.
  induction 1 as [|command commands Hcommand Hcommands IH]; cbn [propose_check_alter]; [done|].
  by rewrite Hcommand.
Qed.

(** X17.  propose refuses before it reaches the DDL worker: a statement
    that is not of an initial query throws INCORRECT_QUERY, and an ALTER of an
    initial query with a command of an unsupported type throws
    NOT_IMPLEMENTED; in both cases nothing was enqueued, the coordination
    service was not called and the state is as it was, whatever the worker
    would have done. *)
Theorem propose_refuses this
    (isSupportedAlterType : Z → bool) (queryToString : ASTQuery → string)
    (getCommonHostID : string)
    (tryEnqueueAndExecuteEntry : DDLLogEntry → QueryContext → M K string)
    query query_context (w : World K) :
  (query_kind query_context ≠ INITIAL_QUERY →
   propose isSupportedAlterType queryToString getCommonHostID tryEnqueueAndExecuteEntry
     this query query_context w
   = (Throws INCORRECT_QUERY, w))
  ∧ (∀ commands,
     query_kind query_context = INITIAL_QUERY →
     alter_commands query = Some commands →
     Exists (λ command, isSupportedAlterType command = false) commands →
     propose isSupportedAlterType queryToString getCommonHostID tryEnqueueAndExecuteEntry
       this query query_context w
     = (Throws NOT_IMPLEMENTED, w)).
Proof.
  split.
  - intros Hkind. unfold propose. by rewrite bool_decide_eq_true_2 by done.
  - intros commands Hkind Hcommands Hunsupported. unfold propose.
    rewrite bool_decide_eq_false_2 by (intros Hne; by apply Hne).
    unfold bind at 1.
    assert (alter_commands
              (if is_query_with_table query
               then {| is_query_with_table := true; query_database := "";
                       alter_commands := alter_commands query;
                       query_body := query_body query |}
               else query) = Some commands) as ->.
    { by destruct (is_query_with_table query). }
    unfold lift. by rewrite propose_check_alter_unsupported.
Qed.

(** ** The constructor without a coordination service *)

(** X19.  On a server without ZooKeeper the constructor never returns an
    object and never calls the coordination service: the state is as it was,
    and valid arguments end in NO_ZOOKEEPER. *)
Theorem constructor_without_zookeeper name_ id path shard replica context_ (w : World K) :
  hasZooKeeper context_ = false →
  (DatabaseReplicated_new name_ id path shard replica context_ w).2 = w
  ∧ (∀ this, (DatabaseReplicated_new name_ id path shard replica context_ w).1
             ≠ Returns this)
  ∧ (∀ normalized,
       path ≠ "" → shard ≠ "" → replica ≠ "" →
       Str.contains "/" shard = false → Str.contains "/" replica = false →
       Str.contains "|" shard = false → Str.contains "|" replica = false →
       normalize_zookeeper_path path = Returns normalized →
       (DatabaseReplicated_new name_ id path shard replica context_ w).1
       = Throws NO_ZOOKEEPER).
Proof.
  intros Hcontext. unfold DatabaseReplicated_new, DatabaseReplicated_init.
  assert (∃ r, DatabaseReplicated_init name_ id path shard replica context_ w = (r, w)
               ∧ ∀ this, r ≠ Returns this) as (r & Hinit & Hr).
  { unfold DatabaseReplicated_init, bind, lift, throw. rewrite Hcontext. cbn [negb].
    repeat case_match; eexists; (split; [reflexivity|done]). }
  unfold DatabaseReplicated_init in Hinit.
  split; [|split].
  - unfold bind at 1. rewrite Hinit. by destruct r as [this|e|u]; [destruct (Hr this)|..].
  - intros this. unfold bind at 1. rewrite Hinit.
    by destruct r as [this'|e|u]; [destruct (Hr this')|..].
  - intros normalized Hpath Hshard Hreplica Hs1 Hr1 Hs2 Hr2 Hnormalized.
    rewrite !bool_decide_eq_false_2 by done. rewrite Hs1, Hr1, Hs2, Hr2. cbn [orb].
    unfold bind, lift, throw. by rewrite Hnormalized, Hcontext.
Qed.

End FurtherProperties.

(** * Examples for the further properties *)

(** X1: a node name with one separator. *)
Lemma parseFullReplicaName_characterised_witness :
  parseFullReplicaName "s1|r1" = Returns ("s1", "r1").
Proof.
  apply (proj2 (proj1 (parseFullReplicaName_characterised "s1|r1") "s1" "r1")).
  split; [|split]; vm_compute; reflexivity.
Defined.

(** X2: a shard name with a separator is refused; a replica that finds its
    own node is constructed, and its node name parses back. *)
Lemma constructor_validates_names_witness :
  let w := Sample.world [] ∅ in
  let session := [answer_bool true; answer_tryGet (Some "host1:9000:7")] in
  let this := Sample.db "/ch/db" in
  DatabaseReplicated_new "db1" 7 "/ch/db" "s|1" "r1" Sample.context w
    = (Throws BAD_ARGUMENTS, w)
  ∧ DatabaseReplicated_new "db1" 7 "/ch/db" "s1" "r1" Sample.context (Sample.world session ∅)
    = (Returns this,
       mkWorld [] [Zk (zk_exists "/ch/db"); Zk (zk_tryGet "/ch/db/replicas/s1|r1")]
         ∅ ∅ None 0)
  ∧ parseFullReplicaName (getFullReplicaName (shard_name this) (replica_name this))
    = Returns ("s1", "r1").
Proof.
  intros w session this. split; [|split].
  - apply (proj1 (constructor_validates_names "db1" 7 "/ch/db" "s|1" "r1" Sample.context w)).
    do 5 right. left. vm_compute. reflexivity.
  - vm_compute. reflexivity.
  - refine (proj2 (proj2 (constructor_validates_names "db1" 7 "/ch/db" "s1" "r1"
                            Sample.context (Sample.world session ∅))
                     this
                     (mkWorld [] [Zk (zk_exists "/ch/db");
                                  Zk (zk_tryGet "/ch/db/replicas/s1|r1")] ∅ ∅ None 0) _)).
    vm_compute. reflexivity.
Defined.

(** X3: the service names the counter node cnt-0000000007. *)
Lemma createReplicaNodes_entry_number_witness :
  let this := Sample.db "/ch/db" in
  let w := Sample.world [answer_path "/ch/db/counter/cnt-0000000007"; answer_done] ∅ in
  createReplicaNodesInZooKeeper this w
  = (Returns (),
     mkWorld [] [Zk (zk_create "/ch/db/counter/cnt-" "" EphemeralSequential);
                 Zk (zk_multi
                       [makeCreateRequest "/ch/db/replicas/s1|r1" "host1:9000:7" Persistent;
                        makeCreateRequest "/ch/db/replicas/s1|r1/log_ptr" "0" Persistent;
                        makeCreateRequest "/ch/db/log/query-0000000007" "" Persistent;
                        makeRemoveRequest "/ch/db/counter/cnt-0000000007" (-1)])]
       ∅ ∅ None 0).
Proof.
  intros this w.
  refine (createReplicaNodes_entry_number this w "0000000007" [answer_done] _).
  vm_compute. reflexivity.
Defined.

(** X5: a pass validated at once on a service with two replicas of one
    shard, one of them dropped. *)
Lemma getCluster_returns_fetched_cluster_witness :
  let this := Sample.db "/ch/db" in
  let session :=
    [ answer_children ["s1|r2"; "s1|r1"] {| version := 1; cversion := 1 |};
      Sample.ok "host1:9000:7";
      Sample.ok DROPPED_MARK;
      answer_get "" {| version := 1; cversion := 1 |} ] in
  let cluster :=
    {| shards := [["host1"]]; username := "default"; password := "";
       port := 9000; secure := false |} in
  ∃ w',
    getCluster this (Sample.world session ∅) = (Returns cluster, w')
    ∧ ∃ hosts host_ids,
        hosts ≠ [] ∧ Sorted String.le hosts
        ∧ replica_values_fetched this hosts host_ids
        ∧ concat (shards cluster) = visible_hosts hosts host_ids
        ∧ (shards cluster = [[]]
           ∨ (shards cluster ≠ [] ∧ Forall (λ shard, shard ≠ []) (shards cluster))).
Proof.
  intros this session cluster. eexists. split; [vm_compute; reflexivity|].
  refine (getCluster_returns_fetched_cluster this (Sample.world session ∅) cluster _ _).
  vm_compute. reflexivity.
Defined.

(** X6: one table under /metadata; the log pointer has moved from 3 to 5,
    so a second pass reads the snapshot again under the log pointer 5. *)
Lemma tryGetConsistentMetadataSnapshot_validated_witness :
  let this := Sample.db "/ch/db" in
  let pass :=
    [ answer_children ["t"] {| version := 0; cversion := 1 |};
      Sample.ok Sample.zk_Log;
      answer_get "5" {| version := 0; cversion := 0 |} ] in
  let session := pass ++ pass in
  let snapshot : gmap string string := {["t" := Sample.zk_Log]} in
  let reads := [Zk (zk_getChildren "/ch/db/metadata");
                Zk (zk_asyncTryGet "/ch/db/metadata/t");
                Zk (zk_get "/ch/db/max_log_ptr")] in
  let w' : World (list Answer) := mkWorld [] (reads ++ reads) ∅ ∅ None 0 in
  tryGetConsistentMetadataSnapshot this 3 (Sample.world session ∅)
    = (Returns (snapshot, 5), w')
  ∧ 3 ≤ 5 ∧ snapshot_taken this snapshot 5.
Proof.
  intros this pass session snapshot reads w'. split; [vm_compute; reflexivity|].
  refine (tryGetConsistentMetadataSnapshot_validated this 3 (Sample.world session ∅)
            snapshot 5 w' _).
  vm_compute. reflexivity.
Defined.

(** X8: a replica whose only table is the one of the snapshot.  In one
    session the write of log_ptr succeeds and the run returns; in the other it
    is answered by an exception, which is the outcome of the run. *)
Lemma recoverLostReplica_seals_witness :
  let this := Sample.db "/ch/db" in
  let reading :=
    [ answer_children ["t"] {| version := 0; cversion := 1 |};
      Sample.ok Sample.zk_Log;
      answer_get "5" {| version := 0; cversion := 0 |} ] in
  let local : gmap string Table := {["t" := Sample.stored Sample.zk_Log 2]} in
  let reads := [Zk (zk_getChildren "/ch/db/metadata");
                Zk (zk_asyncTryGet "/ch/db/metadata/t");
                Zk (zk_get "/ch/db/max_log_ptr")] in
  let w' : World (list Answer) :=
    mkWorld [] (reads ++ [Zk (zk_set "/ch/db/replicas/s1|r1/log_ptr" "5")]) local ∅ None 0 in
  let seals (w : World (list Answer)) (r : outcome unit) :=
    (r ≠ Returns () ∧ ∃ t, trace w' = trace w ++ t ∧ Forall no_store_write t)
    ∨ ∃ snapshot pointer w0 t0,
        5 ≤ pointer ∧ snapshot_taken this snapshot pointer
        ∧ trace w0 = trace w ++ t0 ∧ Forall no_store_write t0
        ∧ zookeeper (zk_set (replica_path this +:+ "/log_ptr") (Str.of_Z pointer)) w0 = (r, w')
        ∧ trace w' = trace w ++ t0
                     ++ [Zk (zk_set (replica_path this +:+ "/log_ptr") (Str.of_Z pointer))] in
  let lost : outcome unit := Throws (KEEPER_EXCEPTION ZSESSIONEXPIRED) in
  (recoverLostReplica this 3 5 (Sample.world (reading ++ [answer_done]) local)
     = (Returns (), w')
   ∧ seals (Sample.world (reading ++ [answer_done]) local) (Returns ()))
  ∧ (recoverLostReplica this 3 5
       (Sample.world (reading ++ [answer_throw (KEEPER_EXCEPTION ZSESSIONEXPIRED)]) local)
     = (lost, w')
     ∧ seals (Sample.world (reading ++ [answer_throw (KEEPER_EXCEPTION ZSESSIONEXPIRED)])
                local) lost).
Proof.
  intros this reading local reads w' seals lost. split.
  - split; [vm_compute; reflexivity|].
    refine (recoverLostReplica_seals this 3 5 _ (Returns ()) w' _).
    vm_compute. reflexivity.
  - split; [vm_compute; reflexivity|].
    refine (recoverLostReplica_seals this 3 5 _ lost w' _).
    vm_compute. reflexivity.
Defined.

(** X9: the same replica: nothing is changed locally. *)
Lemma recovery_of_matching_replica_witness :
  let this := Sample.db "/ch/db" in
  let session :=
    [ answer_children ["t"] {| version := 0; cversion := 1 |};
      Sample.ok Sample.zk_Log;
      answer_get "5" {| version := 0; cversion := 0 |};
      answer_done ] in
  let local : gmap string Table := {["t" := Sample.stored Sample.zk_Log 2]} in
  let w := Sample.world session local in
  let w1 : World (list Answer) :=
    mkWorld [answer_done]
      [Zk (zk_getChildren "/ch/db/metadata");
       Zk (zk_asyncTryGet "/ch/db/metadata/t");
       Zk (zk_get "/ch/db/max_log_ptr")] local ∅ None 0 in
  tryGetConsistentMetadataSnapshot this 5 w = (Returns ({["t" := Sample.zk_Log]}, 5), w1)
  ∧ recoverLostReplica this 3 5 w
    = zookeeper (zk_set (replica_path this +:+ "/log_ptr") (Str.of_Z 5)) w1
  ∧ tables w1 = tables w ∧ databases w1 = databases w
  ∧ local_calls (trace w1) = local_calls (trace w).
Proof.
  intros this session local w w1. split; [vm_compute; reflexivity|].
  refine (recovery_of_matching_replica this 3 5 w {["t" := Sample.zk_Log]} 5 w1 _ _ _).
  - left. discriminate.
  - vm_compute. reflexivity.
  - vm_compute. reflexivity.
Defined.

(** X11: the table t is renamed to v behind one queued request. *)
Lemma renameTable_queues_rename_witness :
  let first := makeSetRequest "/ch/db/metadata/s" "" (-1) in
  let t := {| is_initial_query := true; txn_zookeeper_path := "/ch/db"; ops := [first] |} in
  let src := Sample.stored Sample.local_Log 2 in
  let w : World (list Answer) := mkWorld [] [] {["t" := src]} ∅ (Some t) 0 in
  renameTable (Sample.db "/ch/db") "t" "db1" "v" false false w
  = (Returns (),
     mkWorld [] [Local (DatabaseAtomic_renameTable "t" "db1" "v" false false)]
       {["v" := src]} ∅
       (Some {| is_initial_query := true; txn_zookeeper_path := "/ch/db";
                ops := [first;
                        makeRemoveRequest "/ch/db/metadata/t" (-1);
                        makeCreateRequest "/ch/db/metadata/v" Sample.local_Log Persistent] |})
       0).
Proof.
  intros first t src w.
  refine (eq_trans
            (renameTable_queues_rename (Sample.db "/ch/db") "t" "v" false w t src _ _ _ _) _).
  - reflexivity.
  - reflexivity.
  - discriminate.
  - vm_compute. reflexivity.
  - vm_compute. reflexivity.
Defined.

(** X12: the tables t and u are exchanged. *)
Lemma renameTable_queues_exchange_witness :
  let t := {| is_initial_query := true; txn_zookeeper_path := "/ch/db"; ops := [] |} in
  let src := Sample.stored Sample.local_Log 2 in
  let dst := Sample.stored Sample.local_MergeTree 1 in
  let w : World (list Answer) := mkWorld [] [] {["t" := src; "u" := dst]} ∅ (Some t) 0 in
  renameTable (Sample.db "/ch/db") "t" "db1" "u" true false w
  = (Returns (),
     mkWorld [] [Local (DatabaseAtomic_renameTable "t" "db1" "u" true false)]
       {["t" := dst; "u" := src]} ∅
       (Some {| is_initial_query := true; txn_zookeeper_path := "/ch/db";
                ops := [makeRemoveRequest "/ch/db/metadata/t" (-1);
                        makeRemoveRequest "/ch/db/metadata/u" (-1);
                        makeCreateRequest "/ch/db/metadata/t" Sample.local_MergeTree Persistent;
                        makeCreateRequest "/ch/db/metadata/u" Sample.local_Log Persistent] |})
       0).
Proof.
  intros t src dst w.
  refine (eq_trans
            (renameTable_queues_exchange (Sample.db "/ch/db") "t" "u" false w t src dst
               _ _ _ _ _) _).
  - reflexivity.
  - reflexivity.
  - discriminate.
  - vm_compute. reflexivity.
  - vm_compute. reflexivity.
  - vm_compute. reflexivity.
Defined.

(** X13: the nodes under /metadata follow the rename of t to v. *)
Lemma renameTable_requests_mirror_catalog_witness :
  let t := {| is_initial_query := true; txn_zookeeper_path := "/ch/db"; ops := [] |} in
  let src := Sample.stored Sample.local_Log 2 in
  let w : World (list Answer) := mkWorld [] [] {["t" := src]} ∅ (Some t) 0 in
  let added := [makeRemoveRequest "/ch/db/metadata/t" (-1);
                makeCreateRequest "/ch/db/metadata/v" Sample.local_Log Persistent] in
  let w' : World (list Answer) :=
    mkWorld [] [Local (DatabaseAtomic_renameTable "t" "db1" "v" false false)]
      {["v" := src]} ∅
      (Some {| is_initial_query := true; txn_zookeeper_path := "/ch/db"; ops := added |}) 0 in
  let nodes : gmap string string := {["/ch/db/metadata/t" := Sample.local_Log]} in
  renameTable (Sample.db "/ch/db") "t" "db1" "v" false false w = (Returns (), w')
  ∧ ∃ added nodes',
      txn w' = txn (with_ops added w)
      ∧ apply_requests added nodes = Some nodes'
      ∧ ∀ name,
          nodes !! metadata_node "/ch/db" name = metadata_file <$> tables w !! name →
          nodes' !! metadata_node "/ch/db" name = metadata_file <$> tables w' !! name.
Proof.
  intros t src w added w' nodes. split; [vm_compute; reflexivity|].
  refine (renameTable_requests_mirror_catalog (Sample.db "/ch/db") "t" "db1" "v" false false
            w t w' nodes _ _ _ _ _ _).
  - intros x y Hxy. exact Hxy.
  - reflexivity.
  - reflexivity.
  - vm_compute. reflexivity.
  - vm_compute. reflexivity.
  - vm_compute. reflexivity.
Defined.

(** X15: no transaction, and the transaction of a secondary query that
    moves t to another database. *)
Lemma renameTable_without_initial_transaction_witness :
  let src := Sample.stored Sample.local_Log 2 in
  let t := {| is_initial_query := false; txn_zookeeper_path := "/ch/db"; ops := [] |} in
  let w0 : World (list Answer) := mkWorld [] [] {["t" := src]} ∅ None 0 in
  let w : World (list Answer) := mkWorld [] [] {["t" := src]} {["db2" := ∅]} (Some t) 0 in
  renameTable (Sample.db "/ch/db") "t" "db1" "v" false false w0
    = (Undefined DerefNullPointer, w0)
  ∧ renameTable (Sample.db "/ch/db") "t" "db2" "v" false false w
    = DatabaseAtomic_rename "db1" "t" "db2" "v" false false w.
Proof.
  intros src t w0 w. split.
  - apply (proj1 (renameTable_without_initial_transaction
                    (Sample.db "/ch/db") "t" "db1" "v" false false w0)).
    reflexivity.
  - apply (proj2 (renameTable_without_initial_transaction
                    (Sample.db "/ch/db") "t" "db2" "v" false false w) t); reflexivity.
Defined.

(** X17: a secondary query, and an initial ALTER whose second command is of
    an unsupported type; the worker is not reached. *)
Lemma propose_refuses_witness :
  let worker (entry : DDLLogEntry) (query_context : QueryContext) : M (list Answer) string :=
    run record_local DatabaseAtomic_drop; ret "/ch/db/log/query-0000000001" in
  let query := {| is_query_with_table := true; query_database := "db1";
                  alter_commands := Some [1; 2]; query_body := "ALTER TABLE t" |} in
  let w := Sample.world [] ∅ in
  propose (Z.eqb 1) query_body "host1:9000" worker (Sample.db "/ch/db") query
    {| query_kind := SECONDARY_QUERY; distributed_ddl_task_timeout := 180 |} w
    = (Throws INCORRECT_QUERY, w)
  ∧ propose (Z.eqb 1) query_body "host1:9000" worker (Sample.db "/ch/db") query
      {| query_kind := INITIAL_QUERY; distributed_ddl_task_timeout := 180 |} w
    = (Throws NOT_IMPLEMENTED, w).
Proof.
  intros worker query w. split.
  - apply (proj1 (propose_refuses (Sample.db "/ch/db") (Z.eqb 1) query_body "host1:9000"
                    worker query _ w)).
    discriminate.
  - apply (proj2 (propose_refuses (Sample.db "/ch/db") (Z.eqb 1) query_body "host1:9000"
                    worker query _ w) [1; 2]).
    + reflexivity.
    + reflexivity.
    + apply Exists_cons_tl, Exists_cons_hd. reflexivity.
Defined.

(** X19: a server without ZooKeeper. *)
Lemma constructor_without_zookeeper_witness :
  let context_ := {| hasZooKeeper := false; FQDNOrHostName := "host1"; TCPPort := 9000 |} in
  let w := Sample.world [answer_bool true; answer_tryGet None] ∅ in
  (DatabaseReplicated_new "db1" 7 "/ch/db" "s1" "r1" context_ w).2 = w
  ∧ (DatabaseReplicated_new "db1" 7 "/ch/db" "s1" "r1" context_ w).1 = Throws NO_ZOOKEEPER.
Proof.
  intros context_ w. split.
  - apply (proj1 (constructor_without_zookeeper "db1" 7 "/ch/db" "s1" "r1" context_ w
                    eq_refl)).
  - apply (proj2 (proj2 (constructor_without_zookeeper "db1" 7 "/ch/db" "s1" "r1" context_ w
                           eq_refl)) "/ch/db"); try discriminate; vm_compute; reflexivity.
Defined.
